(** * linked_list_hashmap.c: a chained hash map and its iterator

    A shallow embedding of [src/linked_list_hashmap.c].  Pointers are
    integers ([0] is [NULL]); the nodes of the bucket array and the
    chain nodes live in one node-granular memory, so that a cursor's
    [cur_linked] can alias (and outlive) a chain node exactly as in the
    C code.  Reading or freeing a cell that is not allocated is a fault,
    as is a failed [assert]. *)

From stdpp Require Import base numbers option list gmap fin_maps.

Local Open Scope Z_scope.

(** ** Outcomes of a call *)

Inductive fault : Type :=
  | InvalidAccess   (* load, store or free of a cell that is not allocated *)
  | AssertFailed    (* an [assert] of the source does not hold *)
  | DivByZero       (* [x % 0] in [__doProbe] *)
  | Diverges.       (* a loop or a recursion that does not come back *)

Inductive result (A : Type) : Type :=
  | Ok (a : A)
  | Fault (f : fault).
Arguments Ok {A} a.
Arguments Fault {A} f.

#[global] Instance result_ret : MRet result := λ A a, Ok a.
#[global] Instance result_bind : MBind result :=
  λ A B k r, match r with Ok a => k a | Fault f => Fault f end.

(** ** Data *)

(** [hash_entry_t]: a key and a value, both [void *]. *)
Record hash_entry_t : Type := Entry { key : Z; val : Z }.

(** [struct hash_node_s]. *)
Record hash_node_t : Type := Node { ety : hash_entry_t; next : Z }.

(** Modelled from the spec: [hashmap_t] and [hashmap_iterator_t] are
    declared in [linked_list_hashmap.h], which is not part of the
    sources; the fields are the ones the C file reads and writes
    ([count], [arraySize], [array], [hash], [compare]; [cur],
    [cur_linked]), the integers are taken without a width, but for the
    array size that [hashmap_increase_capacity] computes with its
    [unsigned int] factor.  The record
    also carries the memory the map points into: [cells] are the
    allocated nodes, [brk] the next address [calloc] hands out. *)
Record hashmap_t : Type := Hashmap {
  count : Z;
  arraySize : Z;
  array : Z;
  hash : Z → Z;
  compare : Z → Z → Z;
  cells : gmap Z hash_node_t;
  brk : Z
}.

Record hashmap_iterator_t : Type := Iter { cur : Z; cur_linked : Z }.

Definition with_count (c : Z) (h : hashmap_t) : hashmap_t :=
  Hashmap c (arraySize h) (array h) (hash h) (compare h) (cells h) (brk h).
Definition with_arraySize (n : Z) (h : hashmap_t) : hashmap_t :=
  Hashmap (count h) n (array h) (hash h) (compare h) (cells h) (brk h).
Definition with_array (a : Z) (h : hashmap_t) : hashmap_t :=
  Hashmap (count h) (arraySize h) a (hash h) (compare h) (cells h) (brk h).
Definition with_cells (m : gmap Z hash_node_t) (h : hashmap_t) : hashmap_t :=
  Hashmap (count h) (arraySize h) (array h) (hash h) (compare h) m (brk h).
Definition with_brk (b : Z) (h : hashmap_t) : hashmap_t :=
  Hashmap (count h) (arraySize h) (array h) (hash h) (compare h) (cells h) b.

(** ** Memory *)

Definition zero_node : hash_node_t := Node (Entry 0 0) 0.

Definition load (h : hashmap_t) (p : Z) : result hash_node_t :=
  match cells h !! p with
  | Some n => Ok n
  | None => Fault InvalidAccess
  end.

Definition store (h : hashmap_t) (p : Z) (n : hash_node_t) : result hashmap_t :=
  match cells h !! p with
  | Some _ => Ok (with_cells (<[p := n]> (cells h)) h)
  | None => Fault InvalidAccess
  end.

(** [free] of one node. *)
Definition free (h : hashmap_t) (p : Z) : result hashmap_t :=
  match cells h !! p with
  | Some _ => Ok (with_cells (delete p (cells h)) h)
  | None => Fault InvalidAccess
  end.

(** [free] of an array of [n] nodes. *)
Fixpoint free_block (n : nat) (h : hashmap_t) (p : Z) : result hashmap_t :=
  match n with
  | O => Ok h
  | S n' => h1 ← free h p; free_block n' h1 (p + 1)
  end.

Fixpoint zero_fill (n : nat) (p : Z) (m : gmap Z hash_node_t) : gmap Z hash_node_t :=
  match n with
  | O => m
  | S n' => <[p := zero_node]> (zero_fill n' (p + 1) m)
  end.

(** The value of an [unsigned int] (32 bits): arithmetic in that type
    is modulo 2^32. *)
Definition to_uint (x : Z) : Z := x `mod` 2 ^ 32.

(** [__allocnodes]: [calloc] of [n] zeroed nodes, at addresses never
    used before.  [n] is the [unsigned int count] of the source:
    [hashmap_new] hands on its own [unsigned int] argument,
    [hashmap_put] asks for one node, and [hashmap_increase_capacity]
    for the size that it has computed in [unsigned int]. *)
Definition __allocnodes (h : hashmap_t) (n : Z) : Z * hashmap_t :=
  (brk h,
   with_brk (brk h + Z.max 1 n)
     (with_cells (zero_fill (Z.to_nat n) (brk h) (cells h)) h)).

(** A walk along a chain that visits more nodes than are allocated is
    going round a cycle. *)
Definition chain_fuel (h : hashmap_t) : nat := S (size (cells h)).

(** ** Construction and size *)

Definition hashmap_new (hashf : Z → Z) (cmp : Z → Z → Z)
    (initial_capacity : Z) : hashmap_t :=
  let h := Hashmap 0 initial_capacity 0 hashf cmp ∅ 1 in
  let '(p, h1) := __allocnodes h (arraySize h) in
  with_array p h1.

Definition hashmap_count (h : hashmap_t) : Z := count h.
Definition hashmap_size (h : hashmap_t) : Z := arraySize h.

(** ** Clear *)

Fixpoint __node_empty (fuel : nat) (h : hashmap_t) (node : Z) : result hashmap_t :=
  if node =? 0 then Ok h else
  match fuel with
  | O => Fault Diverges
  | S f =>
      nd ← load h node;
      h1 ← __node_empty f h (next nd);
      h2 ← free h1 node;
      Ok (with_count (count h2 - 1) h2)
  end.

Fixpoint clear_slots (n : nat) (h : hashmap_t) (ii : Z) : result hashmap_t :=
  match n with
  | O => Ok h
  | S n' =>
      nd ← load h (array h + ii);
      if key (ety nd) =? 0 then clear_slots n' h (ii + 1) else
      h1 ← store h (array h + ii) (Node (Entry 0 (val (ety nd))) (next nd));
      nd1 ← load h1 (array h1 + ii);
      h2 ← __node_empty (chain_fuel h1) h1 (next nd1);
      nd2 ← load h2 (array h2 + ii);
      h3 ← store h2 (array h2 + ii) (Node (ety nd2) 0);
      let h4 := with_count (count h3 - 1) h3 in
      if 0 <=? count h4 then clear_slots n' h4 (ii + 1)
      else Fault AssertFailed
  end.

Definition hashmap_clear (h : hashmap_t) : result hashmap_t :=
  h1 ← clear_slots (Z.to_nat (arraySize h)) h 0;
  if hashmap_count h1 =? 0 then Ok h1 else Fault AssertFailed.

(** [hashmap_free].  The map is a value here, not a pointer that could
    be [NULL]: [assert(h)] holds. *)
Definition hashmap_free (h : hashmap_t) : result hashmap_t := hashmap_clear h.

(** [hashmap_freeall]: [hashmap_free], then [free(h)] releases the map
    record.  No map is left to return: the result is the node memory
    that stays allocated behind it. *)
Definition hashmap_freeall (h : hashmap_t) : result (gmap Z hash_node_t) :=
  h1 ← hashmap_free h;
  Ok (cells h1).

(** ** Get *)

Definition __doProbe (h : hashmap_t) (k : Z) : result Z :=
  if arraySize h =? 0 then Fault DivByZero
  else Ok (hash h k `mod` arraySize h).

Fixpoint get_chain (fuel : nat) (h : hashmap_t) (k : Z) (node : Z) : result Z :=
  match fuel with
  | O => Fault Diverges
  | S f =>
      nd ← load h node;
      if compare h k (key (ety nd)) =? 0 then Ok (val (ety nd))
      else if next nd =? 0 then Ok 0
      else get_chain f h k (next nd)
  end.

Definition hashmap_get (h : hashmap_t) (k : Z) : result Z :=
  if (hashmap_count h =? 0) || (k =? 0) then Ok 0 else
  probe ← __doProbe h k;
  nd ← load h (array h + probe);
  if key (ety nd) =? 0 then Ok 0
  else get_chain (chain_fuel h) h k (array h + probe).

Definition hashmap_contains_key (h : hashmap_t) (k : Z) : result Z :=
  v ← hashmap_get h k;
  Ok (if v =? 0 then 0 else 1).

(** ** Remove *)

(** The [do ... while (n)] loop of [hashmap_remove_entry]; [n] is not
    [NULL] on entry, [n_parent] is [NULL] while [n] is the array slot. *)
Fixpoint remove_chain (fuel : nat) (h : hashmap_t) (k : Z) (n n_parent : Z)
    : result (hash_entry_t * hashmap_t) :=
  match fuel with
  | O => Fault Diverges
  | S f =>
      nd ← load h n;
      if negb (compare h k (key (ety nd)) =? 0) then
        if next nd =? 0 then Ok (Entry 0 0, h)
        else remove_chain f h k (next nd) n
      else
        h1 ←
          (if n_parent =? 0 then
             if negb (next nd =? 0) then
               tmp ← load h (next nd);
               h' ← store h n (Node (ety tmp) (next tmp));
               free h' (next nd)
             else
               store h n (Node (Entry 0 (val (ety nd))) (next nd))
           else
             par ← load h n_parent;
             h' ← store h n_parent (Node (ety par) (next nd));
             free h' n);
        Ok (ety nd, with_count (count h1 - 1) h1)
  end.

Definition hashmap_remove_entry (h : hashmap_t) (k : Z)
    : result (hash_entry_t * hashmap_t) :=
  probe ← __doProbe h k;
  nd ← load h (array h + probe);
  if key (ety nd) =? 0 then Ok (Entry 0 0, h)
  else remove_chain (chain_fuel h) h k (array h + probe) 0.

Definition hashmap_remove (h : hashmap_t) (k : Z) : result (Z * hashmap_t) :=
  '(entry, h1) ← hashmap_remove_entry h k;
  Ok (val entry, h1).

(** ** Put and growth *)

Definition __nodeassign (h : hashmap_t) (node : Z) (k v : Z) : result hashmap_t :=
  nd ← load h node;
  let h1 := if key (ety nd) =? 0 then with_count (count h + 1) h else h in
  if count h1 <? 32768 then store h1 node (Node (Entry k v) (next nd))
  else Fault AssertFailed.

(** The [do ... while (node->next && (node = node->next))] loop of
    [hashmap_put] and the append after it. *)
Fixpoint put_chain (fuel : nat) (h : hashmap_t) (node : Z) (k v : Z)
    : result (Z * hashmap_t) :=
  match fuel with
  | O => Fault Diverges
  | S f =>
      nd ← load h node;
      if compare h k (key (ety nd)) =? 0 then
        h1 ← store h node (Node (Entry (key (ety nd)) v) (next nd));
        Ok (val (ety nd), h1)
      else if negb (next nd =? 0) then put_chain f h (next nd) k v
      else
        let '(p, h1) := __allocnodes h 1 in
        h2 ← store h1 node (Node (ety nd) p);
        h3 ← __nodeassign h2 p k v;
        Ok (0, h3)
  end.

(** [(float) h->count / h->arraySize < SPACERATIO], with [SPACERATIO]
    being [0.5].  The quotient is taken exactly: the test is the one of
    the source as long as both numbers are exact as floats (below 2^24).
    A zero divisor gives an infinity or a NaN in C. *)
Definition below_spaceratio (c n : Z) : bool :=
  if 0 <? n then 2 * c <? n
  else if n <? 0 then n <? 2 * c
  else c <? 0.

Section Growth.
  (** [hashmap_put] and [hashmap_increase_capacity] call each other; the
      growth code is written over the [put] it calls. *)
Variable put : hashmap_t → Z → Z → result (Z * hashmap_t).

  (** The [while (node)] loop over the chain of an old slot. *)
Fixpoint rehash_chain (fuel : nat) (h : hashmap_t) (node : Z) : result hashmap_t :=
    if node =? 0 then Ok h else
    match fuel with
    | O => Fault Diverges
    | S f =>
        nd ← load h node;
        '(_, h1) ← put h (key (ety nd)) (val (ety nd));
        nd1 ← load h1 node;
        if key (ety nd1) =? 0 then Fault AssertFailed else
        h2 ← free h1 node;
        rehash_chain f h2 (next nd)
    end.

  (** The [for] loop over the old array. *)
Fixpoint rehash_slots (n : nat) (h : hashmap_t) (array_old ii : Z) : result hashmap_t :=
    match n with
    | O => Ok h
    | S n' =>
        nd ← load h (array_old + ii);
        if key (ety nd) =? 0 then rehash_slots n' h array_old (ii + 1) else
        '(_, h1) ← put h (key (ety nd)) (val (ety nd));
        nd1 ← load h1 (array_old + ii);
        h2 ← rehash_chain (chain_fuel h1) h1 (next nd1);
        rehash_slots n' h2 array_old (ii + 1)
    end.

  (** [h->arraySize *= factor] has an [unsigned int factor]: the product
      is taken in [unsigned int], modulo 2^32, and that is the size of
      the new array.  (Read as an [int], as [hashmap_size] returns it, a
      size of 2^31 or more is another number: the properties of growth
      are stated for sizes below 2^31.) *)
Definition increase_capacity_with (h : hashmap_t) (factor : Z) : result hashmap_t :=
    let array_old := array h in
    let asize_old := arraySize h in
    let h1 := with_arraySize (to_uint (arraySize h * factor)) h in
    let '(p, h2) := __allocnodes h1 (arraySize h1) in
    let h3 := with_count 0 (with_array p h2) in
    h4 ← rehash_slots (Z.to_nat asize_old) h3 array_old 0;
    free_block (Z.to_nat asize_old) h4 array_old.

Definition ensurecapacity_with (h : hashmap_t) : result hashmap_t :=
    if below_spaceratio (count h) (arraySize h) then Ok h
    else increase_capacity_with h 2.

Definition put_with (h : hashmap_t) (k val_new : Z) : result (Z * hashmap_t) :=
    if (k =? 0) || (val_new =? 0) then Ok (0, h) else
    h1 ← ensurecapacity_with h;
    probe ← __doProbe h1 k;
    nd ← load h1 (array h1 + probe);
    if key (ety nd) =? 0 then
      h2 ← __nodeassign h1 (array h1 + probe) k val_new;
      Ok (0, h2)
    else put_chain (chain_fuel h1) h1 (array h1 + probe) k val_new.
End Growth.

(** [hashmap_put], with the depth [d] to which the recursion through
    [__ensurecapacity] and [hashmap_increase_capacity] is followed. *)
Fixpoint hashmap_put (d : nat) (h : hashmap_t) (k val_new : Z)
    : result (Z * hashmap_t) :=
  match d with
  | O => Fault Diverges
  | S d' => put_with (hashmap_put d') h k val_new
  end.

Definition hashmap_put_entry (d : nat) (h : hashmap_t) (entry : hash_entry_t)
    : result hashmap_t :=
  '(_, h1) ← hashmap_put d h (key entry) (val entry);
  Ok h1.

Definition hashmap_increase_capacity (d : nat) (h : hashmap_t) (factor : Z)
    : result hashmap_t :=
  increase_capacity_with (hashmap_put d) h factor.

Definition __ensurecapacity (d : nat) (h : hashmap_t) : result hashmap_t :=
  ensurecapacity_with (hashmap_put d) h.

(** ** Iterator *)

(** The [for (; iter->cur < h->arraySize; iter->cur++)] scan of
    [hashmap_iterator_peek] and [hashmap_iterator_next]: the value of
    [iter->cur] at the first slot with a key, or where the bound stops
    the loop. *)
Fixpoint skip_empty (n : nat) (h : hashmap_t) (c : Z) : result Z :=
  match n with
  | O => Ok c
  | S n' =>
      if c <? arraySize h then
        nd ← load h (array h + c);
        if negb (key (ety nd) =? 0) then Ok c
        else skip_empty n' h (c + 1)
      else Ok c
  end.

Definition scan (h : hashmap_t) (c : Z) : result Z :=
  skip_empty (Z.to_nat (arraySize h - c)) h c.

Definition hashmap_iterator_peek (h : hashmap_t) (iter : hashmap_iterator_t)
    : result (Z * hashmap_iterator_t) :=
  if cur_linked iter =? 0 then
    c ← scan h (cur iter);
    if c <? arraySize h then
      nd ← load h (array h + c);
      Ok (key (ety nd), Iter c (cur_linked iter))
    else Ok (0, Iter c (cur_linked iter))
  else
    nd ← load h (cur_linked iter);
    Ok (key (ety nd), iter).

Definition hashmap_iterator_peek_value (h : hashmap_t) (iter : hashmap_iterator_t)
    : result (Z * hashmap_iterator_t) :=
  '(k, iter1) ← hashmap_iterator_peek h iter;
  v ← hashmap_get h k;
  Ok (v, iter1).

Definition hashmap_iterator_has_next (h : hashmap_t) (iter : hashmap_iterator_t)
    : result (Z * hashmap_iterator_t) :=
  '(k, iter1) ← hashmap_iterator_peek h iter;
  Ok (if k =? 0 then 0 else 1, iter1).

Definition hashmap_iterator_next (h : hashmap_t) (iter : hashmap_iterator_t)
    : result (Z * hashmap_iterator_t) :=
  if negb (cur_linked iter =? 0) then
    n_parent ← load h (array h + cur iter);
    if next n_parent =? 0 then
      Ok (key (ety n_parent), Iter (cur iter + 1) 0)
    else
      n ← load h (cur_linked iter);
      Ok (key (ety n),
          Iter (if next n =? 0 then cur iter + 1 else cur iter) (next n))
  else
    c ← scan h (cur iter);
    if arraySize h =? c then Ok (0, Iter c (cur_linked iter)) else
    n ← load h (array h + c);
    if negb (next n =? 0) then Ok (key (ety n), Iter c (next n))
    else Ok (key (ety n), Iter (c + 1) (cur_linked iter)).

Definition hashmap_iterator_next_value (h : hashmap_t) (iter : hashmap_iterator_t)
    : result (Z * hashmap_iterator_t) :=
  '(k, iter1) ← hashmap_iterator_next h iter;
  if k =? 0 then Ok (0, iter1) else
  v ← hashmap_get h k;
  Ok (v, iter1).

Definition hashmap_iterator (h : hashmap_t) : hashmap_iterator_t := Iter 0 0.

(** The caller's loop [while ((k = hashmap_iterator_next(h, &iter)))]:
    the keys returned until the first [NULL], within [fuel] calls. *)
Fixpoint drain (fuel : nat) (h : hashmap_t) (iter : hashmap_iterator_t)
    : result (list Z) :=
  match fuel with
  | O => Fault Diverges
  | S f =>
      '(k, iter1) ← hashmap_iterator_next h iter;
      if k =? 0 then Ok []
      else ks ← drain f h iter1; Ok (k :: ks)
  end.

(** The caller's loop
    [while ((v = hashmap_iterator_next_value(h, &iter)))]: the values
    returned until the first [NULL], within [fuel] calls. *)
Fixpoint drain_values (fuel : nat) (h : hashmap_t) (iter : hashmap_iterator_t)
    : result (list Z) :=
  match fuel with
  | O => Fault Diverges
  | S f =>
      '(v, iter1) ← hashmap_iterator_next_value h iter;
      if v =? 0 then Ok []
      else vs ← drain_values f h iter1; Ok (v :: vs)
  end.

(** Puts of a list of entries, one after the other. *)
Fixpoint put_all (d : nat) (h : hashmap_t) (es : list hash_entry_t) : result hashmap_t :=
  match es with
  | [] => Ok h
  | e :: es' => h1 ← hashmap_put_entry d h e; put_all d h1 es'
  end.


(** ** The representation invariant *)

(** [chain m p l]: following [next] from [p] in memory [m] visits the
    nodes listed in [l] (address and entry) and then reaches [NULL]. *)
Fixpoint chain (m : gmap Z hash_node_t) (p : Z) (l : list (Z * hash_entry_t)) : Prop :=
  match l with
  | [] => p = 0
  | (q, e) :: l' =>
      p = q ∧ p ≠ 0 ∧ ∃ nx, m !! p = Some (Node e nx) ∧ chain m nx l'
  end.

(** The slot at address [a]: empty (no key, no chain), or the head of
    the chain [l]. *)
Definition slot (m : gmap Z hash_node_t) (a : Z) (l : list (Z * hash_entry_t)) : Prop :=
  match l with
  | [] => ∃ v, m !! a = Some (Node (Entry 0 v) 0)
  | _ :: _ => chain m a l
  end.

Definition keys_of (l : list (Z * hash_entry_t)) : list Z := (λ pe, key pe.2) <$> l.
Definition kv (l : list (Z * hash_entry_t)) : list (Z * Z) :=
  (λ pe, (key pe.2, val pe.2)) <$> l.

(** The key/value associations held by the buckets [bs]. *)
Definition to_map (bs : list (list (Z * hash_entry_t))) : gmap Z Z :=
  list_to_map (kv (mjoin bs)).

(** The addresses a map owns: its array and its chain nodes. *)
Definition owned (h : hashmap_t) (bs : list (list (Z * hash_entry_t))) (p : Z) : Prop :=
  array h ≤ p < array h + arraySize h ∨ p ∈ (mjoin bs).*1.

(** [rep h bs]: the map [h] is well formed and its slot [i] holds the
    entries [bs !! i], the array node first. *)
Record rep (h : hashmap_t) (bs : list (list (Z * hash_entry_t))) : Prop := Rep {
  rep_size : Z.of_nat (length bs) = arraySize h;
  rep_size_pos : 0 < arraySize h;
  rep_array : 0 < array h;
  rep_slot : ∀ (i : nat) l, bs !! i = Some l → slot (cells h) (array h + Z.of_nat i) l;
  rep_nodup : NoDup (mjoin bs).*1;
  rep_block : ∀ (i : nat) l p e, bs !! i = Some l → (p, e) ∈ l →
      array h ≤ p < array h + arraySize h → p = array h + Z.of_nat i;
  rep_brk : ∀ p, is_Some (cells h !! p) → 0 < p < brk h;
  rep_keys : ∀ (i : nat) l p e, bs !! i = Some l → (p, e) ∈ l →
      key e ≠ 0 ∧ val e ≠ 0 ∧ hash h (key e) `mod` arraySize h = Z.of_nat i;
  rep_keys_nodup : ∀ (i : nat) l, bs !! i = Some l → NoDup (keys_of l);
  rep_count : count h = Z.of_nat (length (mjoin bs));
  rep_count_max : count h < 32768;
  rep_load : count h ≤ arraySize h;
  rep_cmp : ∀ a b, compare h a b = 0 ↔ a = b
}.

(** A well-formed map. *)
Definition wf (h : hashmap_t) : Prop := ∃ bs, rep h bs.

(** What [hashmap_remove_entry] makes of the bucket of a key: the entry
    with the key leaves the list; when it is the entry of the array
    node, the entry of the first chain node takes its place there. *)
Fixpoint drop_key (k : Z) (l : list (Z * hash_entry_t)) : list (Z * hash_entry_t) :=
  match l with
  | [] => []
  | (q, e) :: t => if key e =? k then t else (q, e) :: drop_key k t
  end.

Definition bucket_remove (k : Z) (l : list (Z * hash_entry_t))
    : list (Z * hash_entry_t) :=
  match l with
  | [] => []
  | (a, e) :: t =>
      if key e =? k then
        match t with
        | [] => []
        | (_, e1) :: t' => (a, e1) :: t'
        end
      else (a, e) :: drop_key k t
  end.

(** [hashmap_put] after its call of [__ensurecapacity]. *)
Definition put_core (h : hashmap_t) (k val_new : Z) : result (Z * hashmap_t) :=
  probe ← __doProbe h k;
  nd ← load h (array h + probe);
  if key (ety nd) =? 0 then
    h2 ← __nodeassign h (array h + probe) k val_new;
    Ok (0, h2)
  else put_chain (chain_fuel h) h (array h + probe) k val_new.

(** The entries of all buckets but bucket [i]. *)
Definition others {A} (bs : list (list A)) (i : nat) : list A :=
  mjoin (take i bs) ++ mjoin (drop (S i) bs).

(** The fields of the map record that only creation and growth set. *)
Definition same_meta (h h' : hashmap_t) : Prop :=
  arraySize h' = arraySize h ∧ array h' = array h ∧
  hash h' = hash h ∧ compare h' = compare h.

(** [iter_at bs it rest]: the cursor [it] is at a position of the
    buckets [bs] from which the keys [rest] are still to come: at a slot
    of the array, or on a node of the chain of its slot. *)
Inductive iter_at (bs : list (list (Z * hash_entry_t)))
    : hashmap_iterator_t → list Z → Prop :=
  | at_slot (c : nat) :
      (c ≤ length bs)%nat →
      iter_at bs (Iter (Z.of_nat c) 0) (keys_of (mjoin (drop c bs)))
  | at_node (c : nat) pre p e post :
      bs !! c = Some (pre ++ (p, e) :: post) → pre ≠ [] →
      iter_at bs (Iter (Z.of_nat c) p)
        (keys_of ((p, e) :: post) ++ keys_of (mjoin (drop (S c) bs))).

(** A cursor that is valid for the map [h]. *)
Definition iter_wf (h : hashmap_t) (it : hashmap_iterator_t) : Prop :=
  ∃ bs rest, rep h bs ∧ iter_at bs it rest.

(** What a call [put h k v] does on a well-formed map [h] that
    satisfies [P]. *)
Definition put_ok (P : hashmap_t → Prop)
    (put : hashmap_t → Z → Z → result (Z * hashmap_t)) : Prop :=
  ∀ h bs k v, rep h bs → P h → k ≠ 0 → v ≠ 0 →
    (is_Some (to_map bs !! k) ∨ count h + 1 < 32768) →
    ∃ h' bs', put h k v = Ok (default 0 (to_map bs !! k), h') ∧
      rep h' bs' ∧ to_map bs' = <[k := v]> (to_map bs) ∧
      hash h' = hash h ∧ compare h' = compare h ∧
      arraySize h ≤ arraySize h' ∧
      (below_spaceratio (count h) (arraySize h) = true → arraySize h' = arraySize h) ∧
      count h' = match to_map bs !! k with Some _ => count h | None => count h + 1 end ∧
      brk h ≤ brk h' ∧
      (∀ p, p < brk h → ¬ owned h bs p → cells h' !! p = cells h !! p) ∧
      (∀ p, owned h' bs' p → owned h bs p ∨ brk h ≤ p).

(** The state [hc] in the middle of a growth of the map [h0]: the new
    table holds the entries [done] that were put again so far, it is at
    least [nmin] slots long, it lives above the old [brk], and the cells
    in [keep] are still as they were in [h0]. *)
Record rehash_inv (h0 : hashmap_t) (nmin : Z) (done : list (Z * hash_entry_t))
    (keep : Z → Prop) (hc : hashmap_t) : Prop := RehashInv {
  ri_rep : ∃ bsc, rep hc bsc ∧ to_map bsc = list_to_map (kv done) ∧
                  (∀ p, owned hc bsc p → brk h0 ≤ p);
  ri_hash : hash hc = hash h0;
  ri_cmp : compare hc = compare h0;
  ri_count : count hc = Z.of_nat (length done);
  ri_size : nmin ≤ arraySize hc;
  ri_exact : 2 * (count h0 - 1) < nmin → arraySize hc = nmin;
  ri_brk : brk h0 ≤ brk hc;
  ri_keep : ∀ p, keep p → cells hc !! p = cells h0 !! p
}.

(** Going from [h] to [h'], no node is left behind: a node that is
    allocated in [h'] and that [h'] does not own was allocated before
    and [h] did not own it either. *)
Definition no_new_garbage (h : hashmap_t) (bs : list (list (Z * hash_entry_t)))
    (h' : hashmap_t) (bs' : list (list (Z * hash_entry_t))) : Prop :=
  ∀ p, is_Some (cells h' !! p) →
       owned h' bs' p ∨ (is_Some (cells h !! p) ∧ ¬ owned h bs p).

(** [put_ok], and the call leaves no node behind. *)
Definition put_ok_alloc (P : hashmap_t → Prop)
    (put : hashmap_t → Z → Z → result (Z * hashmap_t)) : Prop :=
  ∀ h bs k v, rep h bs → P h → k ≠ 0 → v ≠ 0 →
    (is_Some (to_map bs !! k) ∨ count h + 1 < 32768) →
    ∃ h' bs', put h k v = Ok (default 0 (to_map bs !! k), h') ∧
      rep h' bs' ∧ to_map bs' = <[k := v]> (to_map bs) ∧
      hash h' = hash h ∧ compare h' = compare h ∧
      arraySize h ≤ arraySize h' ∧
      (below_spaceratio (count h) (arraySize h) = true → arraySize h' = arraySize h) ∧
      count h' = match to_map bs !! k with Some _ => count h | None => count h + 1 end ∧
      brk h ≤ brk h' ∧
      (∀ p, p < brk h → ¬ owned h bs p → cells h' !! p = cells h !! p) ∧
      (∀ p, owned h' bs' p → owned h bs p ∨ brk h ≤ p) ∧
      no_new_garbage h bs h' bs'.

(** [rehash_inv], and what is allocated: above the old [brk] the new
    table owns every node, below it only cells in [keep] are left. *)
Record rehash_alloc (h0 : hashmap_t) (nmin : Z) (done : list (Z * hash_entry_t))
    (keep : Z → Prop) (hc : hashmap_t) : Prop := RehashAlloc {
  ra_inv : rehash_inv h0 nmin done keep hc;
  ra_tight : ∀ bsc p, rep hc bsc → brk h0 ≤ p → is_Some (cells hc !! p) →
                      owned hc bsc p;
  ra_live : ∀ p, p < brk h0 → is_Some (cells hc !! p) → keep p
}.

(** The old cells that the growth loop has not consumed when it is at
    slot [ii]: the cells that are not the map's, the old array, and the
    chains of the slots from [ii] on. *)
Definition keep_from (h0 : hashmap_t) (bs0 : list (list (Z * hash_entry_t)))
    (ii : nat) (q : Z) : Prop :=
  q < brk h0 ∧
  (¬ owned h0 bs0 q ∨ array h0 ≤ q < array h0 + arraySize h0 ∨
   ∃ (j : nat) l, (ii ≤ j)%nat ∧ bs0 !! j = Some l ∧ q ∈ (tail l).*1).

(** [in_place h h' k v]: [h'] is [h] but for the value of the one node
    that holds the key [k], which is now [v]: no other field of the map,
    no other cell and no link has changed. *)
Definition in_place (h h' : hashmap_t) (k v : Z) : Prop :=
  ∃ q v0 nx, cells h !! q = Some (Node (Entry k v0) nx) ∧
    h' = with_cells (<[q := Node (Entry k v) nx]> (cells h)) h.

(** The slot [c] of the array has no key. *)
Definition slot_empty (h : hashmap_t) (c : Z) : Prop :=
  ∃ nd, load h (array h + c) = Ok nd ∧ key (ety nd) = 0.

(** Whether the array node of the slot of [k] holds [k] and has a chain
    of two nodes or more ([node->next && node->next->next], for the
    node that [hashmap_remove_entry] starts from). *)
Definition root_has_long_chain (h : hashmap_t) (k : Z) : result bool :=
  probe ← __doProbe h k;
  nd ← load h (array h + probe);
  if negb (key (ety nd) =? k) || (next nd =? 0) then Ok false else
  nd2 ← load h (next nd);
  Ok (negb (next nd2 =? 0)).

(** The map a failed call leaves in place of its result. *)
Definition map_of (r : result hashmap_t) : hashmap_t :=
  match r with
  | Ok h => h
  | Fault _ => hashmap_new (λ k, k) Z.sub 1
  end.

(** Three keys that collide in slot 1 of eight, hashed by their value. *)
Definition chain_of_three : hashmap_t :=
  map_of (put_all 2 (hashmap_new (λ k, k) Z.sub 8)
            [Entry 1 101; Entry 9 102; Entry 17 103]).

(** Two keys that collide in slot 1 of eight. *)
Definition chain_of_two : hashmap_t :=
  map_of (put_all 2 (hashmap_new (λ k, k) Z.sub 8) [Entry 1 101; Entry 9 102]).

(** The map of the spec's scenario: size 4, keys 1 and 5 in slot 1. *)
Definition two_of_four : hashmap_t :=
  map_of (put_all 2 (hashmap_new (λ k, k) Z.sub 4) [Entry 1 101; Entry 5 102]).

(** Keys 3, 1 and 9, put in that order into a map of size 8: key 3 is in
    slot 3, keys 1 and 9 are in slot 1. *)
Definition slots_one_and_three : hashmap_t :=
  map_of (put_all 2 (hashmap_new (λ k, k) Z.sub 8)
            [Entry 3 103; Entry 1 101; Entry 9 102]).

(** [same_content fuel h h']: [h'] is well formed and holds what [h]
    holds: the same count, the same value for every key, and the same
    keys when iterated over. *)
Definition same_content (fuel : nat) (h h' : hashmap_t) : Prop :=
  wf h' ∧ hashmap_count h' = hashmap_count h ∧
  (∀ k, hashmap_get h' k = hashmap_get h k) ∧
  (∀ k, hashmap_contains_key h' k = hashmap_contains_key h k) ∧
  ∃ ks ks', drain fuel h (hashmap_iterator h) = Ok ks ∧
            drain fuel h' (hashmap_iterator h') = Ok ks' ∧ ks' ≡ₚ ks.

(** The maps that the operations build from a new map; a growth is by
    a factor that keeps the array size below 2^31. *)
Inductive reachable : hashmap_t → Prop :=
  | reach_new hashf cmp n :
      0 < n → (∀ x y, cmp x y = 0 ↔ x = y) →
      reachable (hashmap_new hashf cmp n)
  | reach_put d h k v prev h' :
      (2 ≤ d)%nat → reachable h → hashmap_put d h k v = Ok (prev, h') →
      reachable h'
  | reach_remove h k entry h' :
      reachable h → hashmap_remove_entry h k = Ok (entry, h') → reachable h'
  | reach_clear h h' :
      reachable h → hashmap_clear h = Ok h' → reachable h'
  | reach_grow d h factor h' :
      (2 ≤ d)%nat → 1 ≤ factor → arraySize h * factor < 2 ^ 31 → reachable h →
      hashmap_increase_capacity d h factor = Ok h' → reachable h'.

(** A well-formed map that owns every node that is allocated: the nodes
    of its array and the nodes of its chains. *)
Definition tight (h : hashmap_t) : Prop :=
  ∃ bs, rep h bs ∧ ∀ p, is_Some (cells h !! p) → owned h bs p.

(** * Proofs *)

Lemma chain_fuel_eq h : chain_fuel h = S (size (cells h)).
Proof. done. Qed.

#[global] Opaque chain_fuel.

Lemma Ok_bind {A B} (a : A) (k : A → result B) : Ok a ≫= k = k a.
Proof. done. Qed.

Lemma load_eq h p n : cells h !! p = Some n → load h p = Ok n.
Proof. unfold load. by intros ->. Qed.


(** ** Chains *)

Lemma chain_frame m m' p l :
  chain m p l → (∀ q, q ∈ l.*1 → m' !! q = m !! q) → chain m' p l.
Proof.
  revert p. induction l as [|[q e] l IH]; simpl; intros p; [done|].
  intros (-> & Hq & nx & Hm & Hc) Hfr. split_and!; [done..|].
  exists nx. split.
  - rewrite Hfr; [done|]. set_solver.
  - apply IH; [done|]. intros; apply Hfr. set_solver.
Qed.

Lemma chain_alloc m p l q e :
  chain m p l → (q, e) ∈ l → q ≠ 0 ∧ ∃ nx, m !! q = Some (Node e nx).
Proof.
  revert p. induction l as [|[q' e'] l IH]; simpl; intros p Hc Hin.
  - by apply elem_of_nil in Hin.
  - destruct Hc as (-> & Hq & nx & Hm & Hc).
    apply elem_of_cons in Hin as [[= -> ->]|Hin]; [eauto|].
    eapply IH; eauto.
Qed.

Lemma chain_unique m l1 : ∀ p l2, chain m p l1 → chain m p l2 → l1 = l2.
Proof.
  induction l1 as [|[q1 e1] l1 IH]; intros p [|[q2 e2] l2]; simpl.
  - done.
  - intros -> (_ & ? & _). done.
  - intros (_ & ? & _) ->. done.
  - intros (-> & _ & nx1 & Hm1 & Hc1) (<- & _ & nx2 & Hm2 & Hc2).
    rewrite Hm1 in Hm2. injection Hm2 as <- <-. f_equal. eauto.
Qed.

Lemma slot_frame m m' a l :
  slot m a l → m' !! a = m !! a → (∀ q, q ∈ l.*1 → m' !! q = m !! q) → slot m' a l.
Proof.
  destruct l as [|[q e] l]; simpl.
  - intros [v Hv] Ha _. exists v. by rewrite Ha.
  - intros Hc _ Hfr. by apply (chain_frame m m' a ((q, e) :: l)).
Qed.

(** ** Buckets inside the list of buckets *)

Lemma join_lookup {A} (bs : list (list A)) i l :
  bs !! i = Some l → mjoin bs = mjoin (take i bs) ++ l ++ mjoin (drop (S i) bs).
Proof.
  intros H. rewrite <-(take_drop_middle bs i l H) at 1.
  by rewrite join_app.
Qed.

Lemma join_insert {A} (bs : list (list A)) i l :
  (i < length bs)%nat →
  mjoin (<[i:=l]> bs) = mjoin (take i bs) ++ l ++ mjoin (drop (S i) bs).
Proof.
  intros H. rewrite insert_take_drop by done. by rewrite join_app.
Qed.

Lemma join_lookup_perm {A} (bs : list (list A)) i l :
  bs !! i = Some l → mjoin bs ≡ₚ l ++ others bs i.
Proof.
  intros H. rewrite (join_lookup bs i l H). unfold others.
  by rewrite Permutation_app_swap_app.
Qed.

Lemma join_insert_perm {A} (bs : list (list A)) i l :
  (i < length bs)%nat → mjoin (<[i:=l]> bs) ≡ₚ l ++ others bs i.
Proof.
  intros H. rewrite (join_insert bs i l H). unfold others.
  by rewrite Permutation_app_swap_app.
Qed.

Lemma elem_of_others {A} (bs : list (list A)) i x :
  x ∈ others bs i ↔ ∃ j l, j ≠ i ∧ bs !! j = Some l ∧ x ∈ l.
Proof.
  unfold others. rewrite elem_of_app, !list_elem_of_join. split.
  - intros [(l & Hx & Hl)|(l & Hx & Hl)].
    + apply list_elem_of_lookup in Hl as [j Hj].
      apply lookup_take_Some in Hj as [Hj ?]. exists j, l. split_and!; [lia|done..].
    + apply list_elem_of_lookup in Hl as [j Hj].
      rewrite lookup_drop in Hj. exists (S i + j)%nat, l. split_and!; [lia|done..].
  - intros (j & l & Hne & Hj & Hx).
    destruct (decide (j < i)%nat).
    + left. exists l. split; [done|]. apply list_elem_of_lookup. exists j.
      by rewrite lookup_take_lt.
    + right. exists l. split; [done|]. apply list_elem_of_lookup.
      exists (j - S i)%nat. rewrite lookup_drop. rewrite <-Hj. f_equal. lia.
Qed.

Lemma elem_of_join_lookup {A} (bs : list (list A)) x :
  x ∈ mjoin bs ↔ ∃ j l, bs !! j = Some l ∧ x ∈ l.
Proof.
  rewrite list_elem_of_join. split.
  - intros (l & Hx & Hl). apply list_elem_of_lookup in Hl as [j Hj]. eauto.
  - intros (j & l & Hj & Hx). exists l. split; [done|].
    apply list_elem_of_lookup. eauto.
Qed.

(** ** Consequences of the invariant *)

Section Rep.
Context (h : hashmap_t) (bs : list (list (Z * hash_entry_t))).
Hypothesis Hrep : rep h bs.

Lemma rep_bucket (i : Z) :
    0 ≤ i < arraySize h → ∃ l, bs !! Z.to_nat i = Some l.
Proof.
  intros Hi. apply lookup_lt_is_Some_2.
  pose proof (rep_size _ _ Hrep). lia.
Qed.

Lemma rep_probe k :
    ∃ l, bs !! Z.to_nat (hash h k `mod` arraySize h) = Some l.
Proof.
  apply rep_bucket. apply Z.mod_pos_bound. apply (rep_size_pos _ _ Hrep).
Qed.

Lemma rep_index (i : nat) l : bs !! i = Some l → 0 ≤ Z.of_nat i < arraySize h.
Proof.
  intros H. apply lookup_lt_Some in H.
  pose proof (rep_size _ _ Hrep). lia.
Qed.

Lemma rep_key_bucket (i j : nat) l p e :
    bs !! j = Some l → (p, e) ∈ l →
    hash h (key e) `mod` arraySize h = Z.of_nat i → j = i.
Proof.
  intros Hj Hin Hi.
  destruct (rep_keys _ _ Hrep j l p e Hj Hin) as (_ & _ & Hk). lia.
Qed.

Lemma rep_others_key (i : nat) k :
    hash h k `mod` arraySize h = Z.of_nat i → k ∉ keys_of (others bs i).
Proof.
  intros Hi Hin. unfold keys_of in Hin.
  apply list_elem_of_fmap in Hin as ([p e] & -> & Hin).
  apply elem_of_others in Hin as (j & l & Hne & Hj & Hin).
  apply Hne. eapply rep_key_bucket; eauto.
Qed.

Lemma to_map_bucket (i : nat) l k :
    bs !! i = Some l → hash h k `mod` arraySize h = Z.of_nat i →
    to_map bs !! k = (list_to_map (kv l) : gmap Z Z) !! k.
Proof.
  intros Hl Hi. unfold to_map. rewrite (join_lookup bs i l Hl).
  unfold kv. rewrite !fmap_app, !list_to_map_app.
  pose proof (rep_others_key i k Hi) as Hn.
  unfold others, keys_of in Hn. rewrite fmap_app, not_elem_of_app in Hn.
  destruct Hn as [Hn1 Hn2].
  rewrite lookup_union_r.
  2:{ apply not_elem_of_list_to_map_1. by rewrite <-list_fmap_compose. }
  rewrite lookup_union_l; [done|].
  apply not_elem_of_list_to_map_1. by rewrite <-list_fmap_compose.
Qed.

Lemma rep_addr_alloc p e : (p, e) ∈ mjoin bs → ∃ nx, cells h !! p = Some (Node e nx).
Proof.
  intros Hin. apply elem_of_join_lookup in Hin as (j & l & Hj & Hin).
  pose proof (rep_slot _ _ Hrep j l Hj) as Hs.
  destruct l as [|x l]; [by apply elem_of_nil in Hin|].
  change (chain (cells h) (array h + Z.of_nat j) (x :: l)) in Hs.
  by destruct (chain_alloc _ _ _ _ _ Hs Hin) as [_ ?].
Qed.

Lemma rep_length_cells : (length (mjoin bs) ≤ size (cells h))%nat.
Proof.
  rewrite <-(length_fmap fst).
  rewrite <-(size_list_to_set (C:=gset Z) (mjoin bs).*1) by apply (rep_nodup _ _ Hrep).
  rewrite <-(size_dom (D:=gset Z) (cells h)).
  apply subseteq_size. intros p Hp. apply elem_of_list_to_set in Hp.
  apply list_elem_of_fmap in Hp as ([q e] & -> & Hin).
  apply elem_of_dom. simpl. destruct (rep_addr_alloc q e Hin) as [nx ->]. eauto.
Qed.

Lemma rep_fuel (i : nat) l : bs !! i = Some l → (length l < chain_fuel h)%nat.
Proof.
  intros Hl. rewrite chain_fuel_eq. pose proof rep_length_cells as H.
  rewrite (join_lookup bs i l Hl) in H. rewrite !length_app in H. lia.
Qed.

Lemma rep_key_nonzero k : is_Some (to_map bs !! k) → k ≠ 0.
Proof.
  intros [v Hv]. unfold to_map in Hv. apply elem_of_list_to_map_2 in Hv.
  unfold kv in Hv. apply list_elem_of_fmap in Hv as ([p e] & [= -> ->] & Hin).
  apply elem_of_join_lookup in Hin as (j & l & Hj & Hin).
  by destruct (rep_keys _ _ Hrep j l p e Hj Hin) as (? & _).
Qed.
End Rep.

(** ** Get *)


Lemma get_chain_spec h k l : 
  (∀ a b, compare h a b = 0 ↔ a = b) →
  ∀ fuel p, chain (cells h) p l → l ≠ [] → (length l ≤ fuel)%nat →
  get_chain fuel h k p = Ok (default 0 ((list_to_map (kv l) : gmap Z Z) !! k)).
Proof.
  intros Hcmp. induction l as [|[q e] l IH]; [done|].
  intros fuel p (-> & Hq & nx & Hm & Hc) _ Hf.
  destruct fuel as [|fuel]; [simpl in Hf; lia|]. simpl in Hf.
  simpl. unfold load. rewrite Hm. simpl.
  destruct (Z.eqb_spec (compare h k (key e)) 0) as [Heq|Hne].
  - apply Hcmp in Heq as ->. by rewrite lookup_insert_eq.
  - assert (key e ≠ k) by (intros <-; apply Hne; by apply Hcmp).
    rewrite lookup_insert_ne by done.
    destruct l as [|x l].
    + simpl in Hc. subst nx. simpl. by rewrite lookup_empty.
    + assert (nx ≠ 0) by (destruct x; simpl in Hc; naive_solver).
      destruct (Z.eqb_spec nx 0); [done|].
      apply IH; [done|done|simpl in *; lia].
Qed.

Lemma hashmap_get_spec h bs k :
  rep h bs → hashmap_get h k = Ok (default 0 (to_map bs !! k)).
Proof.
  intros Hrep. unfold hashmap_get, hashmap_count.
  destruct (Z.eqb_spec (count h) 0) as [Hc|Hc]; simpl.
  { rewrite (rep_count _ _ Hrep) in Hc.
    assert (mjoin bs = []) as Hnil by (apply nil_length_inv; lia).
    unfold to_map. rewrite Hnil. simpl. by rewrite lookup_empty. }
  destruct (Z.eqb_spec k 0) as [->|Hk]; simpl.
  { destruct (to_map bs !! 0) eqn:E; [|done].
    exfalso. eapply (rep_key_nonzero h bs Hrep 0); eauto. }
  unfold __doProbe. pose proof (rep_size_pos _ _ Hrep) as Hpos.
  destruct (Z.eqb_spec (arraySize h) 0); [lia|]. simpl.
  destruct (rep_probe h bs Hrep k) as [l Hl].
  pose proof (Z.mod_pos_bound (hash h k) (arraySize h) Hpos) as Hb.
  pose proof (rep_slot _ _ Hrep _ _ Hl) as Hs. rewrite Z2Nat.id in Hs by lia.
  rewrite (to_map_bucket h bs Hrep _ l k Hl) by lia.
  destruct l as [|[q e] l].
  - destruct Hs as [v Hv]. unfold load. rewrite Hv. simpl. by rewrite lookup_empty.
  - pose proof Hs as (-> & Hq & nx & Hm & Hc').
    rewrite (load_eq _ _ _ Hm), Ok_bind. cbn [ety key].
    destruct (rep_keys _ _ Hrep _ _ _ e Hl ltac:(left)) as (Hke & _).
    destruct (Z.eqb_spec (key e) 0); [done|].
    apply get_chain_spec; [apply (rep_cmp _ _ Hrep)|by (simpl; eauto)|done|].
    pose proof (rep_fuel h bs Hrep _ _ Hl). lia.
Qed.

(** ** Replacing one bucket *)

Section Update.
Context (h : hashmap_t) (bs : list (list (Z * hash_entry_t))).
Hypothesis Hrep : rep h bs.

Lemma rep_block_alloc (j : Z) :
    0 ≤ j < arraySize h → is_Some (cells h !! (array h + j)).
Proof.
  intros Hj. destruct (rep_bucket h bs Hrep j Hj) as [l Hl].
  pose proof (rep_slot _ _ Hrep _ _ Hl) as Hs. rewrite Z2Nat.id in Hs by lia.
  destruct l as [|[q e] l]; simpl in Hs.
  - destruct Hs as [v ->]. eauto.
  - destruct Hs as (_ & _ & nx & -> & _). eauto.
Qed.

Lemma rep_block_brk : array h + arraySize h ≤ brk h.
Proof.
  pose proof (rep_size_pos _ _ Hrep).
  destruct (rep_block_alloc (arraySize h - 1)) as [n Hn]; [lia|].
  pose proof (rep_brk _ _ Hrep _ (mk_is_Some _ _ Hn)). lia.
Qed.

Lemma rep_addr_bound p : p ∈ (mjoin bs).*1 → 0 < p < brk h.
Proof.
  intros Hp. apply list_elem_of_fmap in Hp as ([q e] & -> & Hin).
  destruct (rep_addr_alloc h bs Hrep q e Hin) as [nx Hnx].
  apply (rep_brk _ _ Hrep). simpl. eauto.
Qed.


Lemma rep_disjoint (i j : nat) l lj p :
    bs !! i = Some l → bs !! j = Some lj → j ≠ i →
    p ∈ l.*1 → p ∈ lj.*1 → False.
Proof.
  intros Hi Hj Hne Hp Hpj.
  pose proof (rep_nodup _ _ Hrep) as Hnd.
  rewrite (join_lookup_perm bs i l Hi), fmap_app in Hnd.
  apply NoDup_app in Hnd as (_ & Hnd & _). apply (Hnd p Hp).
  apply list_elem_of_fmap in Hpj as (x & -> & Hx).
  apply list_elem_of_fmap. exists x. split; [done|].
  apply elem_of_others. eauto.
Qed.

Lemma rep_root_not_chain (i j : nat) l lj :
    bs !! i = Some l → bs !! j = Some lj → j ≠ i →
    array h + Z.of_nat i ∉ lj.*1.
Proof.
  intros Hi Hj Hne Hp.
  apply list_elem_of_fmap in Hp as ([q e] & Hq & Hin). simpl in Hq. subst q.
  pose proof (rep_index h bs Hrep _ _ Hi).
  pose proof (rep_block _ _ Hrep j lj _ e Hj Hin). lia.
Qed.

Lemma rep_update (i : nat) l h' l' :
    bs !! i = Some l →
    same_meta h h' →
    slot (cells h') (array h + Z.of_nat i) l' →
    (∀ p, p ∉ l.*1 → p ≠ array h + Z.of_nat i → p < brk h →
          cells h' !! p = cells h !! p) →
    (∀ p, is_Some (cells h' !! p) → 0 < p < brk h') →
    (∀ p, p ∈ l'.*1 → p ∈ l.*1 ∨ p = array h + Z.of_nat i ∨ brk h ≤ p) →
    NoDup l'.*1 →
    (∀ p e, (p, e) ∈ l' →
       key e ≠ 0 ∧ val e ≠ 0 ∧ hash h (key e) `mod` arraySize h = Z.of_nat i) →
    NoDup (keys_of l') →
    count h' = count h - Z.of_nat (length l) + Z.of_nat (length l') →
    count h' < 32768 → count h' ≤ arraySize h →
    rep h' (<[i := l']> bs).
Proof.
  intros Hi (HN & Ha & Hh & Hc) Hs Hfr Hbrk Haddr Hnd Hk Hknd Hcnt Hmax Hload.
  pose proof (lookup_lt_Some _ _ _ Hi) as Hlt.
  pose proof (rep_index h bs Hrep _ _ Hi) as Hidx.
  pose proof rep_block_brk as Hbb.
  assert (∀ j lj, j ≠ i → bs !! j = Some lj →
          ∀ q, q ∈ lj.*1 → cells h' !! q = cells h !! q) as Hfr_chain.
  { intros j lj Hne Hj q Hq. apply Hfr.
    - intros Hql. eapply (rep_disjoint i j); eauto.
    - intros ->. eapply (rep_root_not_chain i j); eauto.
    - apply rep_addr_bound. apply list_elem_of_fmap in Hq as (x & -> & Hx).
      apply list_elem_of_fmap. exists x. split; [done|].
      apply elem_of_join_lookup. eauto. }
  assert (∀ p, p ∈ l'.*1 → p ∉ (others bs i).*1) as Hdisj.
  { intros p Hp Hpo.
    apply list_elem_of_fmap in Hpo as ([q e] & -> & Hx). simpl in *.
    apply elem_of_others in Hx as (j & lj & Hne & Hj & Hx).
    assert (q ∈ lj.*1) as Hqj.
    { apply list_elem_of_fmap. by exists (q, e). }
    destruct (Haddr _ Hp) as [Hp1|[->|Hp1]].
    - eapply (rep_disjoint i j); eauto.
    - eapply (rep_root_not_chain i j); eauto.
    - assert (0 < q < brk h); [|lia]. apply rep_addr_bound.
      apply list_elem_of_fmap. exists (q, e). split; [done|].
      apply elem_of_join_lookup. eauto. }
  split.
  - rewrite length_insert, HN. apply (rep_size _ _ Hrep).
  - rewrite HN. apply (rep_size_pos _ _ Hrep).
  - rewrite Ha. apply (rep_array _ _ Hrep).
  - intros j lj Hj. rewrite Ha.
    destruct (decide (j = i)) as [->|Hne].
    + rewrite list_lookup_insert_eq in Hj by done. by injection Hj as <-.
    + rewrite list_lookup_insert_ne in Hj by done.
      eapply slot_frame; [by apply (rep_slot _ _ Hrep)| |by eapply Hfr_chain].
      pose proof (rep_index h bs Hrep _ _ Hj).
      apply Hfr; [|lia|lia].
      intros Hin. apply list_elem_of_fmap in Hin as ([q e] & Hq & Hin).
      simpl in Hq. subst q.
      pose proof (rep_block _ _ Hrep i l _ e Hi Hin). lia.
  - rewrite (join_insert_perm bs i l' Hlt), fmap_app.
    apply NoDup_app. split_and!; [done|done|].
    pose proof (rep_nodup _ _ Hrep) as Hnd'.
    rewrite (join_lookup_perm bs i l Hi), fmap_app in Hnd'.
    by apply NoDup_app in Hnd' as (_ & _ & ?).
  - intros j lj p e Hj Hin Hp. rewrite Ha, HN in *.
    destruct (decide (j = i)) as [->|Hne].
    + rewrite list_lookup_insert_eq in Hj by done. injection Hj as <-.
      destruct (Haddr p) as [Hp1|[->|Hp1]]; [| |done|lia].
      { apply list_elem_of_fmap. by exists (p, e). }
      apply list_elem_of_fmap in Hp1 as ([q e'] & Hq & Hin'). simpl in Hq. subst q.
      by apply (rep_block _ _ Hrep i l p e').
    + rewrite list_lookup_insert_ne in Hj by done.
      by apply (rep_block _ _ Hrep j lj p e).
  - done.
  - intros j lj p e Hj Hin. rewrite Hh, HN.
    destruct (decide (j = i)) as [->|Hne].
    + rewrite list_lookup_insert_eq in Hj by done. injection Hj as <-. eauto.
    + rewrite list_lookup_insert_ne in Hj by done.
      by apply (rep_keys _ _ Hrep j lj p e).
  - intros j lj Hj.
    destruct (decide (j = i)) as [->|Hne].
    + rewrite list_lookup_insert_eq in Hj by done. by injection Hj as <-.
    + rewrite list_lookup_insert_ne in Hj by done.
      by apply (rep_keys_nodup _ _ Hrep j lj).
  - rewrite Hcnt, (rep_count _ _ Hrep).
    rewrite (join_insert_perm bs i l' Hlt), (join_lookup_perm bs i l Hi).
    rewrite !length_app. lia.
  - done.
  - by rewrite HN.
  - rewrite Hc. apply (rep_cmp _ _ Hrep).
Qed.

  (** What the update does to the associations. *)
Lemma to_map_update (i : nat) l h' l' (f : gmap Z Z → gmap Z Z) k :
    bs !! i = Some l → rep h' (<[i := l']> bs) → same_meta h h' →
    hash h k `mod` arraySize h = Z.of_nat i →
    (∀ k', (list_to_map (kv l') : gmap Z Z) !! k' = f (list_to_map (kv l)) !! k') →
    (∀ m1 m2 : gmap Z Z, m1 !! k = m2 !! k → f m1 !! k = f m2 !! k) →
    (∀ k' (m : gmap Z Z), k' ≠ k → f m !! k' = m !! k') →
    to_map (<[i := l']> bs) = f (to_map bs).
Proof.
  intros Hi Hrep' (HN & Ha & Hh & Hc) Hk Hf2 Hf3 Hf4. apply map_eq. intros k'.
  pose proof (lookup_lt_Some _ _ _ Hi) as Hlt.
  destruct (rep_probe h bs Hrep k') as [lj Hj].
  set (j := Z.to_nat (hash h k' `mod` arraySize h)) in *.
  pose proof (rep_index h bs Hrep _ _ Hj) as Hjb.
  assert (hash h k' `mod` arraySize h = Z.of_nat j) as Hkj.
  { unfold j. rewrite Z2Nat.id; [done|].
    apply Z.mod_pos_bound, (rep_size_pos _ _ Hrep). }
  destruct (decide (j = i)) as [Heq|Hne].
  - rewrite (to_map_bucket h' _ Hrep' i l' k').
    2:{ by apply list_lookup_insert_eq. }
    2:{ rewrite Hh, HN. lia. }
    rewrite Hf2. destruct (decide (k' = k)) as [->|Hk'].
    + apply Hf3. symmetry. by apply (to_map_bucket h bs Hrep i l k).
    + rewrite !Hf4 by done. symmetry.
      apply (to_map_bucket h bs Hrep i l k'); [done|lia].
  - assert (k' ≠ k) by (intros ->; lia).
    rewrite Hf4 by done.
    rewrite (to_map_bucket h' _ Hrep' j lj k').
    2:{ by rewrite list_lookup_insert_ne. }
    2:{ rewrite Hh, HN. lia. }
    symmetry. by apply (to_map_bucket h bs Hrep j lj k').
Qed.
End Update.

(** ** Nodes that are allocated and not owned *)

Lemma owned_dec h bs p : owned h bs p ∨ ¬ owned h bs p.
Proof.
  unfold owned.
  destruct (decide (array h ≤ p < array h + arraySize h)); [by left; left|].
  destruct (decide (p ∈ (mjoin bs).*1)); [by left; right|].
  right. by intros [?|?].
Qed.

Lemma no_new_garbage_refl h bs : no_new_garbage h bs h bs.
Proof. intros p Hp. destruct (owned_dec h bs p); [by left|by right]. Qed.

Lemma no_new_garbage_trans h1 bs1 h2 bs2 h3 bs3 :
  no_new_garbage h1 bs1 h2 bs2 → no_new_garbage h2 bs2 h3 bs3 →
  no_new_garbage h1 bs1 h3 bs3.
Proof.
  intros H12 H23 p Hp. destruct (H23 p Hp) as [?|[Hp2 Hno]]; [by left|].
  destruct (H12 p Hp2) as [?|?]; [done|by right].
Qed.

(** The memory determines the buckets. *)
Lemma rep_unique h bs1 bs2 : rep h bs1 → rep h bs2 → bs1 = bs2.
Proof.
  intros H1 H2. apply list_eq. intros i.
  pose proof (rep_size _ _ H1) as HN1. pose proof (rep_size _ _ H2) as HN2.
  destruct (bs1 !! i) as [l1|] eqn:E1.
  - destruct (lookup_lt_is_Some_2 bs2 i) as [l2 E2].
    { apply lookup_lt_Some in E1. lia. }
    rewrite E2. f_equal.
    pose proof (rep_slot _ _ H1 _ _ E1) as Hs1.
    pose proof (rep_slot _ _ H2 _ _ E2) as Hs2.
    destruct l1 as [|[a1 e1] t1], l2 as [|[a2 e2] t2]; [done| | |].
    + destruct Hs1 as [v Hv]. destruct Hs2 as (_ & _ & nx & Hm & _).
      rewrite Hv in Hm. injection Hm as <- <-.
      by destruct (rep_keys _ _ H2 i _ a2 _ E2 ltac:(left)) as (? & _).
    + destruct Hs2 as [v Hv]. destruct Hs1 as (_ & _ & nx & Hm & _).
      rewrite Hv in Hm. injection Hm as <- <-.
      by destruct (rep_keys _ _ H1 i _ a1 _ E1 ltac:(left)) as (? & _).
    + eapply chain_unique; [exact Hs1|exact Hs2].
  - symmetry. apply lookup_ge_None. apply lookup_ge_None in E1. lia.
Qed.

(** One bucket is replaced: its nodes stay in the bucket, are nodes of
    the array or are freed, and the only new nodes are in the bucket. *)
Lemma no_new_garbage_update h bs (i : nat) l h' l' :
  bs !! i = Some l → same_meta h h' →
  (∀ q, q ∈ l.*1 →
     q ∈ l'.*1 ∨ array h ≤ q < array h + arraySize h ∨ cells h' !! q = None) →
  (∀ q, is_Some (cells h' !! q) → is_Some (cells h !! q) ∨ q ∈ l'.*1) →
  no_new_garbage h bs h' (<[i := l']> bs).
Proof.
  intros Hi (HN & Ha & _) Hold Hnew p Hp.
  pose proof (lookup_lt_Some _ _ _ Hi) as Hlt.
  assert (∀ q, q ∈ l'.*1 → owned h' (<[i := l']> bs) q) as Hin'.
  { intros q Hq. right.
    rewrite (join_insert_perm bs i l' Hlt), fmap_app, elem_of_app. by left. }
  destruct (Hnew p Hp) as [Hp0|Hp']; [|left; by apply Hin'].
  destruct (owned_dec h bs p) as [[Ho|Ho]|Hno]; [| |by right].
  - left. left. lia.
  - rewrite (join_lookup_perm bs i l Hi), fmap_app, elem_of_app in Ho.
    destruct Ho as [Ho|Ho].
    + destruct (Hold p Ho) as [?|[?|Hnone]].
      * left. by apply Hin'.
      * left. left. lia.
      * rewrite Hnone in Hp. by destruct Hp.
    + left. right.
      rewrite (join_insert_perm bs i l' Hlt), fmap_app, elem_of_app. by right.
Qed.

(** ** Put without growth *)

Lemma store_eq h p n n' :
  cells h !! p = Some n → store h p n' = Ok (with_cells (<[p := n']> (cells h)) h).
Proof. unfold store. by intros ->. Qed.

Lemma free_eq h p n :
  cells h !! p = Some n → free h p = Ok (with_cells (delete p (cells h)) h).
Proof. unfold free. by intros ->. Qed.

Lemma chain_nonnil_ptr m p l : chain m p l → l ≠ [] → p ≠ 0.
Proof. destruct l as [|[q e] l]; [done|]. simpl. naive_solver. Qed.


Lemma chain_update m e' nx l1 q e l2 :
  ∀ p, chain m p (l1 ++ (q, e) :: l2) → NoDup (l1 ++ (q, e) :: l2).*1 →
  m !! q = Some (Node e nx) →
  chain (<[q := Node e' nx]> m) p (l1 ++ (q, e') :: l2).
Proof.
  induction l1 as [|[q1 e1] l1 IH]; simpl; intros p.
  - intros (-> & Hq & nx' & Hm & Hc) Hnd Hm'.
    rewrite Hm in Hm'. injection Hm' as ->. split_and!; [done..|].
    exists nx. rewrite lookup_insert_eq. split; [done|].
    apply NoDup_cons in Hnd as [Hnq _].
    eapply chain_frame; [done|]. intros x Hx.
    rewrite lookup_insert_ne; [done|]. by intros ->.
  - intros (-> & Hq & nx' & Hm & Hc) Hnd Hm'.
    apply NoDup_cons in Hnd as [Hnq Hnd]. split_and!; [done..|].
    exists nx'. split; [|by apply IH].
    rewrite lookup_insert_ne; [done|]. intros ->. apply Hnq.
    rewrite fmap_app. set_solver.
Qed.

Lemma put_chain_present h k v l1 q v0 l2 :
  (∀ a b, compare h a b = 0 ↔ a = b) →
  k ∉ keys_of l1 →
  ∀ fuel p nx, chain (cells h) p (l1 ++ (q, Entry k v0) :: l2) →
  cells h !! q = Some (Node (Entry k v0) nx) →
  (length l1 < fuel)%nat →
  put_chain fuel h p k v =
    Ok (v0, with_cells (<[q := Node (Entry k v) nx]> (cells h)) h).
Proof.
  intros Hcmp. induction l1 as [|[q1 e1] l1 IH]; intros Hk fuel p nx Hc Hm Hf;
    (destruct fuel as [|fuel]; [simpl in Hf; lia|]); simpl in Hc.
  - destruct Hc as (-> & Hq & nx' & Hm' & Hc).
    simpl. rewrite (load_eq _ _ _ Hm), Ok_bind. simpl.
    assert (compare h k k = 0) as -> by by apply Hcmp. simpl.
    by rewrite (store_eq _ _ _ _ Hm), Ok_bind.
  - destruct Hc as (-> & Hq & nx' & Hm' & Hc).
    simpl. rewrite (load_eq _ _ _ Hm'), Ok_bind. simpl.
    unfold keys_of in Hk. simpl in Hk. apply not_elem_of_cons in Hk as [Hk1 Hk].
    destruct (Z.eqb_spec (compare h k (key e1)) 0) as [Heq|_].
    { apply (proj1 (Hcmp _ _)) in Heq. done. }
    assert (nx' ≠ 0) as Hnx.
    { eapply chain_nonnil_ptr; [done|]. by destruct l1. }
    destruct (Z.eqb_spec nx' 0); [done|]. simpl.
    eapply IH; [done|done|done|]. simpl in Hf. lia.
Qed.

Lemma put_chain_absent h k v l :
  (∀ a b, compare h a b = 0 ↔ a = b) → k ∉ keys_of l → l ≠ [] → NoDup l.*1 →
  cells h !! brk h = None → 0 < brk h → count h + 1 < 32768 →
  ∀ fuel p, chain (cells h) p l → (length l ≤ fuel)%nat →
  ∃ h', put_chain fuel h p k v = Ok (0, h') ∧ same_meta h h' ∧
        count h' = count h + 1 ∧ brk h' = brk h + 1 ∧
        chain (cells h') p (l ++ [(brk h, Entry k v)]) ∧
        (∀ x, x ∉ l.*1 → x ≠ brk h → cells h' !! x = cells h !! x) ∧
        (∀ x, is_Some (cells h' !! x) → is_Some (cells h !! x) ∨ x = brk h).
Proof.
  intros Hcmp Hk Hnil Hnd Hfresh Hbrk Hcnt.
  induction l as [|[q e] l IH]; [done|]. intros fuel p Hc Hf.
  apply NoDup_cons in Hnd as [Hnq Hnd].
  destruct fuel as [|fuel]; [simpl in Hf; lia|].
  simpl in Hc. destruct Hc as (-> & Hq & nx & Hm & Hc).
  unfold keys_of in Hk. simpl in Hk. apply not_elem_of_cons in Hk as [Hk1 Hk].
  simpl. rewrite (load_eq _ _ _ Hm), Ok_bind. simpl.
  destruct (Z.eqb_spec (compare h k (key e)) 0) as [Heq|_].
  { apply (proj1 (Hcmp _ _)) in Heq. done. }
  assert (q ≠ brk h) as Hqb by (intros ->; by rewrite Hfresh in Hm).
  destruct l as [|x l].
  - simpl in Hc. subst nx. simpl.
    unfold store at 1. simpl. rewrite lookup_insert_ne, Hm by done.
    rewrite Ok_bind. unfold __nodeassign, load. simpl.
    rewrite lookup_insert_ne, lookup_insert_eq by done. simpl.
    destruct (Z.ltb_spec (count h + 1) 32768); [|lia].
    unfold store. simpl. rewrite lookup_insert_ne, lookup_insert_eq by done.
    eexists. split; [reflexivity|]. simpl.
    split_and!; try done.
    + exists (brk h). rewrite lookup_insert_ne, lookup_insert_eq by done.
      split_and!; [done|done|lia|]. exists 0. by rewrite lookup_insert_eq.
    + intros y Hy Hyb. rewrite !lookup_insert_ne; [done|..]; set_solver.
    + intros y [n Hn]. destruct (decide (y = brk h)); [by right|left].
      rewrite lookup_insert_ne in Hn by done.
      destruct (decide (y = q)) as [->|]; [eauto|].
      rewrite !lookup_insert_ne in Hn by done. eauto.
  - assert (nx ≠ 0) as Hnx by (by eapply chain_nonnil_ptr).
    destruct (Z.eqb_spec nx 0); [done|]. simpl.
    destruct (IH Hk ltac:(done) Hnd fuel nx Hc) as (h' & Hput & Hmeta & Hc' & Hb' & Hch & Hfr & Hdom).
    { simpl in *. lia. }
    exists h'. split; [done|]. split; [done|]. split_and!; [done..| | |done].
    + exists nx. split; [|exact Hch].
      rewrite Hfr; done.
    + intros y Hy Hyb. apply Hfr; [|done]. set_solver.
Qed.

Lemma keys_split l k :
  k ∈ keys_of l →
  ∃ l1 q e l2, l = l1 ++ (q, e) :: l2 ∧ key e = k ∧ k ∉ keys_of l1.
Proof.
  induction l as [|[q e] l IH]; unfold keys_of; simpl.
  - intros H. by apply elem_of_nil in H.
  - intros H. destruct (decide (key e = k)) as [Heq|Hne].
    + exists [], q, e, l. split_and!; [done..|]. apply not_elem_of_nil.
    + apply elem_of_cons in H as [H|H]; [done|].
      destruct (IH H) as (l1 & q' & e' & l2 & -> & Hk & Hn).
      exists ((q, e) :: l1), q', e', l2. split_and!; [done..|].
      unfold keys_of. simpl. apply not_elem_of_cons. split; [done|]. exact Hn.
Qed.

Lemma kv_fst l : (kv l).*1 = keys_of l.
Proof. unfold kv, keys_of. rewrite <-list_fmap_compose. done. Qed.

Lemma ltm_absent l k :
  k ∉ keys_of l → (list_to_map (kv l) : gmap Z Z) !! k = None.
Proof. intros H. apply not_elem_of_list_to_map_1. by rewrite kv_fst. Qed.

Lemma ltm_app l1 l2 :
  (list_to_map (kv (l1 ++ l2)) : gmap Z Z) = list_to_map (kv l1) ∪ list_to_map (kv l2).
Proof. unfold kv. by rewrite fmap_app, list_to_map_app. Qed.

Lemma ltm_cons q e l :
  (list_to_map (kv ((q, e) :: l)) : gmap Z Z) = <[key e := val e]> (list_to_map (kv l)).
Proof. done. Qed.

Lemma ltm_nil : (list_to_map (kv []) : gmap Z Z) = ∅.
Proof. done. Qed.

Lemma ltm_present l1 q k v0 l2 :
  k ∉ keys_of l1 →
  (list_to_map (kv (l1 ++ (q, Entry k v0) :: l2)) : gmap Z Z) !! k = Some v0.
Proof.
  intros H. rewrite ltm_app, ltm_cons. simpl.
  rewrite lookup_union_r by by apply ltm_absent.
  by rewrite lookup_insert_eq.
Qed.

Lemma ltm_replace l1 q k v v0 l2 :
  k ∉ keys_of l1 →
  (list_to_map (kv (l1 ++ (q, Entry k v) :: l2)) : gmap Z Z) =
  <[k := v]> (list_to_map (kv (l1 ++ (q, Entry k v0) :: l2))).
Proof.
  intros H. rewrite !ltm_app, !ltm_cons. simpl.
  rewrite (insert_union_r _ _ k v) by by apply ltm_absent.
  by rewrite insert_insert_eq.
Qed.

Lemma ltm_append l q k v :
  k ∉ keys_of l →
  (list_to_map (kv (l ++ [(q, Entry k v)])) : gmap Z Z) =
  <[k := v]> (list_to_map (kv l)).
Proof.
  intros H. rewrite !ltm_app, !ltm_cons, ltm_nil. simpl.
  rewrite <-(insert_union_r _ _ k v) by by apply ltm_absent.
  by rewrite (right_id_L ∅ (∪)).
Qed.

Lemma ltm_remove l1 q k v0 l2 :
  k ∉ keys_of l1 → k ∉ keys_of l2 →
  (list_to_map (kv (l1 ++ l2)) : gmap Z Z) =
  delete k (list_to_map (kv (l1 ++ (q, Entry k v0) :: l2))).
Proof.
  intros H1 H2. rewrite !ltm_app, !ltm_cons. simpl.
  rewrite delete_union, delete_insert_eq.
  rewrite !delete_id by by apply ltm_absent. done.
Qed.

Lemma owned_update h bs (i : nat) l h' l' p :
  bs !! i = Some l → same_meta h h' →
  (∀ q, q ∈ l'.*1 → q ∈ l.*1 ∨ q = array h + Z.of_nat i ∨ brk h ≤ q) →
  0 ≤ Z.of_nat i < arraySize h →
  owned h' (<[i := l']> bs) p → owned h bs p ∨ brk h ≤ p.
Proof.
  intros Hi (HN & Ha & _) Haddr Hidx [Hp|Hp].
  - left. left. lia.
  - pose proof (lookup_lt_Some _ _ _ Hi) as Hlt.
    rewrite (join_insert_perm bs i l' Hlt), fmap_app, elem_of_app in Hp.
    destruct Hp as [Hp|Hp].
    + destruct (Haddr _ Hp) as [Hq|[->|Hq]]; [|left; left; lia|by right].
      left. right. rewrite (join_lookup_perm bs i l Hi), fmap_app, elem_of_app. by left.
    + left. right. rewrite (join_lookup_perm bs i l Hi), fmap_app, elem_of_app. by right.
Qed.

Lemma owned_bucket h bs (i : nat) l p :
  bs !! i = Some l → 0 ≤ Z.of_nat i < arraySize h →
  p ∈ l.*1 ∨ p = array h + Z.of_nat i → owned h bs p.
Proof.
  intros Hi Hidx [Hp| ->].
  - right. rewrite (join_lookup_perm bs i l Hi), fmap_app, elem_of_app. by left.
  - left. lia.
Qed.

Lemma slot_chain m a l : l ≠ [] → chain m a l → slot m a l.
Proof. by destruct l. Qed.

Ltac hsimpl :=
  cbn [count arraySize array hash compare cells brk
       with_cells with_count with_brk with_array with_arraySize] in *.

Lemma put_core_alloc h bs k v :
  rep h bs → k ≠ 0 → v ≠ 0 →
  (is_Some (to_map bs !! k) ∨ (count h + 1 < 32768 ∧ count h < arraySize h)) →
  ∃ h' bs', put_core h k v = Ok (default 0 (to_map bs !! k), h') ∧
     rep h' bs' ∧ to_map bs' = <[k := v]> (to_map bs) ∧ same_meta h h' ∧
     count h' = match to_map bs !! k with Some _ => count h | None => count h + 1 end ∧
     brk h ≤ brk h' ∧
     (∀ p, p < brk h → ¬ owned h bs p → cells h' !! p = cells h !! p) ∧
     (∀ p, owned h' bs' p → owned h bs p ∨ brk h ≤ p) ∧
     (∀ v0, to_map bs !! k = Some v0 →
        ∃ q nx, cells h !! q = Some (Node (Entry k v0) nx) ∧
                h' = with_cells (<[q := Node (Entry k v) nx]> (cells h)) h) ∧
     no_new_garbage h bs h' bs'.
Proof.
  intros Hrep Hk Hv Hroom.
  pose proof (rep_size_pos _ _ Hrep) as Hpos.
  pose proof (Z.mod_pos_bound (hash h k) (arraySize h) Hpos) as Hb.
  destruct (rep_probe h bs Hrep k) as [l Hl].
  set (i := Z.to_nat (hash h k `mod` arraySize h)) in *.
  assert (hash h k `mod` arraySize h = Z.of_nat i) as Hi by (unfold i; lia).
  pose proof (rep_slot _ _ Hrep _ _ Hl) as Hs.
  pose proof (rep_index h bs Hrep _ _ Hl) as Hidx.
  pose proof (to_map_bucket h bs Hrep i l k Hl Hi) as Hlook.
  pose proof (rep_cmp _ _ Hrep) as Hcmp.
  assert (0 < brk h) as Hbrk.
  { pose proof (rep_block_brk h bs Hrep). pose proof (rep_array _ _ Hrep). lia. }
  assert (cells h !! brk h = None) as Hfresh.
  { destruct (cells h !! brk h) eqn:E; [|done].
    pose proof (rep_brk _ _ Hrep _ (mk_is_Some _ _ E)). lia. }
  assert (∀ h' l',
    same_meta h h' → rep h' (<[i := l']> bs) →
    (list_to_map (kv l') : gmap Z Z) = <[k := v]> (list_to_map (kv l)) →
    to_map (<[i := l']> bs) = <[k := v]> (to_map bs)) as Hmap.
  { intros h' l' Hmeta Hrep' Heq.
    eapply (to_map_update h bs Hrep i l h' l' (λ m, <[k := v]> m) k); eauto.
    - intros k'. by rewrite Heq.
    - intros m1 m2 _. by rewrite !lookup_insert_eq.
    - intros k' m Hne. by rewrite lookup_insert_ne. }
  unfold put_core, __doProbe.
  destruct (Z.eqb_spec (arraySize h) 0) as [|_]; [lia|]. rewrite Ok_bind, Hi.
  destruct l as [|[q0 e0] l0].
  - (* the slot is empty *)
    destruct Hs as [v' Hroot].
    rewrite Hlook in *. simpl in Hroom |- *. rewrite lookup_empty in *.
    destruct Hroom as [[? ?]|[Hc1 Hc2]]; [done|].
    rewrite (load_eq _ _ _ Hroot), Ok_bind. simpl.
    unfold __nodeassign. rewrite (load_eq _ _ _ Hroot), Ok_bind. simpl.
    destruct (Z.ltb_spec (count h + 1) 32768) as [_|]; [|lia].
    unfold store. simpl. rewrite Hroot, Ok_bind.
    set (h' := with_cells _ _).
    set (l' := [(array h + Z.of_nat i, Entry k v)]).
    assert (rep h' (<[i := l']> bs)) as Hrep'.
    { eapply (rep_update h bs Hrep i [] h' l'); subst h' l'; simpl; try done.
      - split_and!; [done|by pose proof (rep_array _ _ Hrep); lia|].
        exists 0. by rewrite lookup_insert_eq.
      - intros p _ Hp _. by rewrite lookup_insert_ne.
      - intros p [nd Hn]. destruct (decide (p = array h + Z.of_nat i)) as [->|].
        + apply (rep_brk _ _ Hrep). eauto.
        + rewrite lookup_insert_ne in Hn by done. apply (rep_brk _ _ Hrep). eauto.
      - intros p Hp. apply list_elem_of_singleton in Hp. auto.
      - apply NoDup_singleton.
      - intros p e Hin. apply list_elem_of_singleton in Hin. injection Hin as -> ->.
        simpl. by rewrite Hi.
      - apply NoDup_singleton.
      - lia.
      - lia. }
    exists h', (<[i := l']> bs). split_and!; try done.
    + eapply Hmap; eauto. done.
    + intros p Hp Hno. subst h'. simpl. rewrite lookup_insert_ne; [done|].
      intros <-. apply Hno. eapply owned_bucket; eauto.
    + intros p. eapply owned_update; eauto; [done|].
      subst l'. intros q Hq. apply list_elem_of_singleton in Hq. auto.
    + apply (no_new_garbage_update h bs i [] h' l' Hl); [done| |].
      * intros q Hq. by apply elem_of_nil in Hq.
      * intros q [nd Hq]. subst h' l'. hsimpl.
        destruct (decide (q = array h + Z.of_nat i)) as [->|]; [right; by left|].
        rewrite lookup_insert_ne in Hq by done. eauto.
  - (* the slot has an entry *)
    change (chain (cells h) (array h + Z.of_nat i) ((q0, e0) :: l0)) in Hs.
    pose proof Hs as (Hq0 & Hroot0 & nx0 & Hroot & _).
    rewrite (load_eq _ _ _ Hroot), Ok_bind. simpl.
    destruct (rep_keys _ _ Hrep i _ q0 e0 Hl ltac:(left)) as (Hke & _).
    remember ((q0, e0) :: l0) as l eqn:El.
    assert (l ≠ []) as Hlne by by rewrite El.
    destruct (Z.eqb_spec (key e0) 0) as [|_]; [done|].
    pose proof (rep_fuel h bs Hrep _ _ Hl) as Hfuel.
    assert (NoDup l.*1) as Hndl.
    { pose proof (rep_nodup _ _ Hrep) as Hnd.
      rewrite (join_lookup_perm bs i l Hl), fmap_app in Hnd.
      by apply NoDup_app in Hnd as (? & _). }
    assert (∀ p, p ∈ l.*1 → 0 < p < brk h) as Hlb.
    { intros p Hp. apply (rep_addr_bound h bs Hrep).
      rewrite (join_lookup_perm bs i l Hl), fmap_app, elem_of_app. by left. }
    destruct (decide (k ∈ keys_of l)) as [Hin|Hnin].
    + (* the key is there: its value is replaced *)
      destruct (keys_split l k Hin) as (l1 & q & [k0 v0] & l2 & Hsplit & Hk0 & Hn1).
      simpl in Hk0. subst k0.
      assert ((q, Entry k v0) ∈ l) as Hql by (rewrite Hsplit; set_solver).
      destruct (chain_alloc _ _ _ _ _ Hs Hql) as (Hqne & nx & Hmq).
      rewrite Hsplit in Hs.
      rewrite (put_chain_present h k v l1 q v0 l2 Hcmp Hn1 _ _ nx Hs Hmq).
      2:{ rewrite Hsplit, length_app in Hfuel. simpl in Hfuel. lia. }
      rewrite Hlook, Hsplit, ltm_present by done. simpl.
      set (h' := with_cells _ _).
      set (l' := l1 ++ (q, Entry k v) :: l2).
      assert (l'.*1 = l.*1) as Haddr.
      { subst l'. rewrite Hsplit, !fmap_app. done. }
      assert (rep h' (<[i := l']> bs)) as Hrep'.
      { eapply (rep_update h bs Hrep i l h' l'); subst h'; hsimpl; try done.
        - apply slot_chain; [subst l'; by destruct l1|].
          eapply chain_update in Hs; [exact Hs| by rewrite <-Hsplit | done].
        - intros p Hp _ _. rewrite lookup_insert_ne; [done|]. intros <-.
          apply Hp. apply list_elem_of_fmap. by exists (q, Entry k v0).
        - intros p [nd Hn]. destruct (decide (p = q)) as [->|].
          + apply (rep_brk _ _ Hrep). eauto.
          + rewrite lookup_insert_ne in Hn by done. apply (rep_brk _ _ Hrep). eauto.
        - intros p Hp. left. by rewrite <-Haddr.
        - by rewrite Haddr.
        - intros p e He. subst l'. rewrite elem_of_app, elem_of_cons in He.
          destruct He as [He|[[= -> ->]|He]].
          + apply (rep_keys _ _ Hrep i l p e Hl). rewrite Hsplit. set_solver.
          + simpl. by rewrite Hi.
          + apply (rep_keys _ _ Hrep i l p e Hl). rewrite Hsplit. set_solver.
        - pose proof (rep_keys_nodup _ _ Hrep i l Hl) as Hnd.
          subst l'. rewrite Hsplit in Hnd. unfold keys_of in *.
          by rewrite fmap_app in *.
        - subst l'. rewrite Hsplit, !length_app. simpl. lia.
        - apply (rep_count_max _ _ Hrep).
        - apply (rep_load _ _ Hrep). }
      exists h', (<[i := l']> bs). split_and!; try done.
      * eapply Hmap; eauto; [done|]. subst l'. rewrite Hsplit. by apply ltm_replace.
      * intros p Hp Hno. subst h'. hsimpl. rewrite lookup_insert_ne; [done|].
        intros <-. apply Hno. eapply owned_bucket; eauto. left.
        apply list_elem_of_fmap. by exists (q, Entry k v0).
      * intros p. eapply owned_update; eauto; [done|]. intros x Hx. left. by rewrite <-Haddr.
      * intros ? [= <-]. by exists q, nx.
      * apply (no_new_garbage_update h bs i l h' l' Hl); [done| |].
        -- intros x Hx. left. by rewrite Haddr.
        -- intros x [nd Hx]. subst h'. hsimpl.
           destruct (decide (x = q)) as [->|]; [eauto|].
           rewrite lookup_insert_ne in Hx by done. eauto.
    + (* the key is new: a node is appended *)
      rewrite Hlook, ltm_absent in * by done. simpl.
      destruct Hroom as [[? ?]|[Hc1 Hc2]]; [done|].
      destruct (put_chain_absent h k v l Hcmp Hnin Hlne Hndl Hfresh Hbrk Hc1
                  (chain_fuel h) _ Hs ltac:(lia))
        as (h' & -> & Hmeta & Hcnt & Hbrk' & Hch & Hfr & Hdom).
      set (l' := l ++ [(brk h, Entry k v)]) in *.
      assert (rep h' (<[i := l']> bs)) as Hrep'.
      { eapply (rep_update h bs Hrep i l h' l'); try done.
        - apply slot_chain; [|done]. subst l'. by destruct l.
        - intros p Hp _ Hpb. apply Hfr; [done|lia].
        - intros p Hp. destruct (Hdom p Hp) as [Hp'| ->]; [|lia].
          pose proof (rep_brk _ _ Hrep _ Hp'). lia.
        - intros p Hp. subst l'. rewrite fmap_app, elem_of_app in Hp.
          destruct Hp as [Hp|Hp]; [by left|]. simpl in Hp.
          apply list_elem_of_singleton in Hp. right. right. lia.
        - subst l'. rewrite fmap_app. apply NoDup_app. split_and!; [done| |apply NoDup_singleton].
          intros p Hp Hp'. simpl in Hp'. apply list_elem_of_singleton in Hp'.
          pose proof (Hlb p Hp). lia.
        - intros p e He. subst l'. rewrite elem_of_app in He.
          destruct He as [He|He].
          + by apply (rep_keys _ _ Hrep i l p e Hl).
          + apply list_elem_of_singleton in He. injection He as -> ->. simpl.
            by rewrite Hi.
        - subst l'. unfold keys_of in *. rewrite fmap_app. apply NoDup_app.
          split_and!; [by apply (rep_keys_nodup _ _ Hrep i l Hl)| |apply NoDup_singleton].
          intros x Hx Hx'. simpl in Hx'. apply list_elem_of_singleton in Hx'. by subst x.
        - subst l'. rewrite length_app. simpl. lia.
        - lia.
        - lia. }
      exists h', (<[i := l']> bs). split_and!; try done.
      * apply (Hmap h' l' Hmeta Hrep'). subst l'. by apply ltm_append.
      * lia.
      * intros p Hp Hno. apply Hfr; [|lia]. intros Hpl. apply Hno.
        eapply owned_bucket; eauto.
      * intros p. eapply owned_update; eauto. intros x Hx. subst l'.
        rewrite fmap_app, elem_of_app in Hx. destruct Hx as [Hx|Hx]; [by left|].
        simpl in Hx. apply list_elem_of_singleton in Hx. right. right. lia.
      * apply (no_new_garbage_update h bs i l h' l' Hl); [done| |].
        -- intros x Hx. left. subst l'. rewrite fmap_app, elem_of_app. by left.
        -- intros x Hx. destruct (Hdom x Hx) as [?| ->]; [by left|right].
           subst l'. rewrite fmap_app, elem_of_app. right. by left.
Qed.

Lemma put_core_spec h bs k v :
  rep h bs → k ≠ 0 → v ≠ 0 →
  (is_Some (to_map bs !! k) ∨ (count h + 1 < 32768 ∧ count h < arraySize h)) →
  ∃ h' bs', put_core h k v = Ok (default 0 (to_map bs !! k), h') ∧
     rep h' bs' ∧ to_map bs' = <[k := v]> (to_map bs) ∧ same_meta h h' ∧
     count h' = match to_map bs !! k with Some _ => count h | None => count h + 1 end ∧
     brk h ≤ brk h' ∧
     (∀ p, p < brk h → ¬ owned h bs p → cells h' !! p = cells h !! p) ∧
     (∀ p, owned h' bs' p → owned h bs p ∨ brk h ≤ p) ∧
     (∀ v0, to_map bs !! k = Some v0 →
        ∃ q nx, cells h !! q = Some (Node (Entry k v0) nx) ∧
                h' = with_cells (<[q := Node (Entry k v) nx]> (cells h)) h).
Proof.
  intros Hrep Hk Hv Hroom.
  destruct (put_core_alloc h bs k v Hrep Hk Hv Hroom)
    as (h' & bs' & H1 & H2 & H3 & H4 & H5 & H6 & H7 & H8 & H9 & _).
  by exists h', bs'.
Qed.

(** ** Remove *)

Lemma keys_of_app l1 l2 : keys_of (l1 ++ l2) = keys_of l1 ++ keys_of l2.
Proof. unfold keys_of. by rewrite fmap_app. Qed.

Lemma keys_of_cons q e l : keys_of ((q, e) :: l) = key e :: keys_of l.
Proof. done. Qed.

Lemma drop_key_absent k l : k ∉ keys_of l → drop_key k l = l.
Proof.
  induction l as [|[q e] l IH]; [done|]. rewrite keys_of_cons, not_elem_of_cons.
  intros [Hne Hk]. simpl. destruct (Z.eqb_spec (key e) k); [congruence|]. by rewrite IH.
Qed.

Lemma drop_key_split k l1 q e l2 :
  k ∉ keys_of l1 → key e = k → drop_key k (l1 ++ (q, e) :: l2) = l1 ++ l2.
Proof.
  induction l1 as [|[q1 e1] l1 IH].
  - intros _ He. simpl. by rewrite He, Z.eqb_refl.
  - rewrite keys_of_cons, not_elem_of_cons. intros [Hne Hk] He. simpl.
    destruct (Z.eqb_spec (key e1) k); [congruence|]. by rewrite IH.
Qed.

Lemma bucket_remove_absent k l : k ∉ keys_of l → bucket_remove k l = l.
Proof.
  destruct l as [|[q e] l]; [done|]. rewrite keys_of_cons, not_elem_of_cons.
  intros [Hne Hk]. simpl. destruct (Z.eqb_spec (key e) k); [congruence|].
  by rewrite drop_key_absent.
Qed.

Lemma remove_chain_absent h k l :
  (∀ a b, compare h a b = 0 ↔ a = b) → k ∉ keys_of l → l ≠ [] →
  ∀ fuel n par, chain (cells h) n l → (length l ≤ fuel)%nat →
  remove_chain fuel h k n par = Ok (Entry 0 0, h).
Proof.
  intros Hcmp Hk Hnil. induction l as [|[q e] l IH]; [done|].
  intros fuel n par Hc Hf.
  destruct fuel as [|fuel]; [simpl in Hf; lia|].
  simpl in Hc. destruct Hc as (-> & Hq & nx & Hm & Hc).
  unfold keys_of in Hk. simpl in Hk. apply not_elem_of_cons in Hk as [Hk1 Hk].
  simpl. rewrite (load_eq _ _ _ Hm), Ok_bind. simpl.
  destruct (Z.eqb_spec (compare h k (key e)) 0) as [Heq|_].
  { apply (proj1 (Hcmp _ _)) in Heq. done. }
  simpl. destruct l as [|x l].
  - simpl in Hc. by subst nx.
  - assert (nx ≠ 0) as Hnx by (by eapply chain_nonnil_ptr).
    destruct (Z.eqb_spec nx 0) as [|_]; [done|].
    apply IH; [done|done|done|simpl in *; lia].
Qed.

Lemma remove_chain_tail h k l1 q e l2 :
  (∀ a b, compare h a b = 0 ↔ a = b) → k ∉ keys_of l1 → key e = k →
  ∀ fuel par ep n,
    chain (cells h) par ((par, ep) :: l1 ++ (q, e) :: l2) →
    NoDup (par :: (l1 ++ (q, e) :: l2).*1) →
    cells h !! par = Some (Node ep n) →
    (length l1 < fuel)%nat →
    ∃ h', remove_chain fuel h k n par = Ok (e, h') ∧ same_meta h h' ∧
      brk h' = brk h ∧ count h' = count h - 1 ∧
      chain (cells h') par ((par, ep) :: l1 ++ l2) ∧
      (∀ x, x ∉ par :: (l1 ++ (q, e) :: l2).*1 → cells h' !! x = cells h !! x) ∧
      (∀ x, is_Some (cells h' !! x) → is_Some (cells h !! x)) ∧
      cells h' !! q = None.
Proof.
  intros Hcmp Hk Hke. induction l1 as [|[q1 e1] l1 IH];
    intros fuel par ep n Hc Hnd Hpar Hf;
    (destruct fuel as [|fuel]; [simpl in Hf; lia|]).
  - simpl in Hc. destruct Hc as (_ & Hp0 & n' & Hpar' & -> & Hq & nxq & Hm & Hc).
    rewrite Hpar in Hpar'. injection Hpar' as ->.
    apply NoDup_cons in Hnd as [Hnp Hnd]. simpl in Hnp, Hnd.
    apply NoDup_cons in Hnd as [Hnq Hnd].
    apply not_elem_of_cons in Hnp as [Hpq Hnp].
    simpl. rewrite (load_eq _ _ _ Hm), Ok_bind. simpl.
    assert (compare h k (key e) = 0) as -> by (by apply Hcmp). simpl.
    destruct (Z.eqb_spec par 0) as [|_]; [done|].
    rewrite (load_eq _ _ _ Hpar), Ok_bind. simpl.
    rewrite (store_eq _ _ _ _ Hpar), Ok_bind.
    unfold free. hsimpl. rewrite lookup_insert_ne, Hm by done. rewrite Ok_bind.
    eexists. split; [reflexivity|]. hsimpl.
    split; [done|]. split; [done|]. split; [done|]. split; [|split; [|split]].
    + simpl. split_and!; [done..|]. exists nxq. split.
      * by rewrite lookup_delete_ne, lookup_insert_eq.
      * eapply chain_frame; [done|]. intros x Hx.
        rewrite lookup_delete_ne, lookup_insert_ne; [done|..]; by intros ->.
    + intros x Hx. simpl in Hx.
      apply not_elem_of_cons in Hx as [? Hx]. apply not_elem_of_cons in Hx as [? Hx].
      rewrite lookup_delete_ne, lookup_insert_ne; [done|..]; congruence.
    + intros x [nd Hx]. destruct (decide (x = q)) as [->|].
      { by rewrite lookup_delete_eq in Hx. }
      rewrite lookup_delete_ne in Hx by done.
      destruct (decide (x = par)) as [->|]; [eauto|].
      rewrite lookup_insert_ne in Hx by done. eauto.
    + by rewrite lookup_delete_eq.
  - change (chain (cells h) par ((par, ep) :: (q1, e1) :: l1 ++ (q, e) :: l2)) in Hc.
    simpl in Hc. destruct Hc as (_ & Hp0 & n' & Hpar' & -> & Hq1 & nx1 & Hm1 & Hc).
    rewrite Hpar in Hpar'. injection Hpar' as <-.
    unfold keys_of in Hk. simpl in Hk. apply not_elem_of_cons in Hk as [Hk1 Hk].
    apply NoDup_cons in Hnd as [Hnp Hnd].
    simpl. rewrite (load_eq _ _ _ Hm1), Ok_bind. simpl.
    destruct (Z.eqb_spec (compare h k (key e1)) 0) as [Heq|_].
    { apply (proj1 (Hcmp _ _)) in Heq. done. }
    simpl. assert (nx1 ≠ 0) as Hnx.
    { eapply chain_nonnil_ptr; [done|]. by destruct l1. }
    destruct (Z.eqb_spec nx1 0) as [|_]; [done|].
    destruct (IH Hk fuel n e1 nx1)
      as (h' & Hrm & Hmeta & Hb & Hcnt & Hch & Hfr & Hdom & Hgone).
    { simpl. split_and!; [done..|]. eauto. }
    { exact Hnd. }
    { done. }
    { simpl in Hf. lia. }
    exists h'. do 4 (split; [done|]). split; [|split; [|done]].
    + change (chain (cells h') par ((par, ep) :: (n, e1) :: l1 ++ l2)).
      cbn [chain]. split_and!; [done..|]. exists n. split; [|exact Hch].
      rewrite Hfr; [done|]. simpl in Hnp. exact Hnp.
    + intros x Hx. apply Hfr. by apply not_elem_of_cons in Hx as [_ Hx].
Qed.

Lemma rep_bucket_nodup h bs (i : nat) l :
  rep h bs → bs !! i = Some l → NoDup l.*1.
Proof.
  intros Hrep Hl. pose proof (rep_nodup _ _ Hrep) as Hnd.
  rewrite (join_lookup_perm bs i l Hl), fmap_app in Hnd.
  by apply NoDup_app in Hnd as (? & _).
Qed.

Lemma rep_bucket_bound h bs (i : nat) l p :
  rep h bs → bs !! i = Some l → p ∈ l.*1 → 0 < p < brk h.
Proof.
  intros Hrep Hl Hp. apply (rep_addr_bound h bs Hrep).
  rewrite (join_lookup_perm bs i l Hl), fmap_app, elem_of_app. by left.
Qed.

Lemma hashmap_remove_entry_alloc h bs k :
  rep h bs →
  ∃ h' bs',
    hashmap_remove_entry h k =
      Ok (match to_map bs !! k with Some v => Entry k v | None => Entry 0 0 end, h') ∧
    rep h' bs' ∧ to_map bs' = delete k (to_map bs) ∧ same_meta h h' ∧
    brk h' = brk h ∧
    count h' = match to_map bs !! k with Some _ => count h - 1 | None => count h end ∧
    (to_map bs !! k = None → h' = h) ∧
    no_new_garbage h bs h' bs' ∧
    bs' = <[Z.to_nat (hash h k `mod` arraySize h) :=
              bucket_remove k (default [] (bs !! Z.to_nat (hash h k `mod` arraySize h)))]> bs.
Proof.
  intros Hrep.
  pose proof (rep_size_pos _ _ Hrep) as Hpos.
  pose proof (Z.mod_pos_bound (hash h k) (arraySize h) Hpos) as Hb.
  destruct (rep_probe h bs Hrep k) as [l Hl].
  set (i := Z.to_nat (hash h k `mod` arraySize h)) in *.
  assert (hash h k `mod` arraySize h = Z.of_nat i) as Hi by (unfold i; lia).
  pose proof (rep_slot _ _ Hrep _ _ Hl) as Hs.
  pose proof (rep_index h bs Hrep _ _ Hl) as Hidx.
  pose proof (to_map_bucket h bs Hrep i l k Hl Hi) as Hlook.
  pose proof (rep_cmp _ _ Hrep) as Hcmp.
  pose proof (rep_bucket_nodup h bs i l Hrep Hl) as Hndl.
  pose proof (rep_keys_nodup _ _ Hrep i l Hl) as Hndk.
  pose proof (rep_fuel h bs Hrep _ _ Hl) as Hfuel.
  assert (∀ h' l',
    same_meta h h' → rep h' (<[i := l']> bs) →
    (list_to_map (kv l') : gmap Z Z) = delete k (list_to_map (kv l)) →
    to_map (<[i := l']> bs) = delete k (to_map bs)) as Hmap.
  { intros h' l' Hmeta Hrep' Heq.
    eapply (to_map_update h bs Hrep i l h' l' (λ m, delete k m) k); eauto.
    - intros k'. by rewrite Heq.
    - intros m1 m2 _. by rewrite !lookup_delete_eq.
    - intros k' m Hne. by rewrite lookup_delete_ne. }
  assert (∀ h', same_meta h h' → brk h' = brk h →
            (∀ x, is_Some (cells h' !! x) → is_Some (cells h !! x)) →
            ∀ p, is_Some (cells h' !! p) → 0 < p < brk h') as Hbound.
  { intros h' _ Hb' Hdom p Hp. rewrite Hb'. apply (rep_brk _ _ Hrep). auto. }
  assert (same_notfound : to_map bs !! k = None →
    ∃ h' bs', Ok (Entry 0 0, h) =
      Ok (match to_map bs !! k with Some v => Entry k v | None => Entry 0 0 end, h') ∧
    rep h' bs' ∧ to_map bs' = delete k (to_map bs) ∧ same_meta h h' ∧
    brk h' = brk h ∧
    count h' = match to_map bs !! k with Some _ => count h - 1 | None => count h end ∧
    (to_map bs !! k = None → h' = h) ∧
    no_new_garbage h bs h' bs' ∧
    bs' = <[i := bucket_remove k (default [] (bs !! i))]> bs).
  { intros Hnone. exists h, bs. rewrite Hnone.
    split_and!; try done; [by rewrite delete_id|apply no_new_garbage_refl|].
    rewrite Hl. simpl. rewrite bucket_remove_absent, list_insert_id; [done..|].
    rewrite Hlook in Hnone. apply not_elem_of_list_to_map_2 in Hnone.
    by rewrite kv_fst in Hnone. }
  unfold hashmap_remove_entry, __doProbe.
  destruct (Z.eqb_spec (arraySize h) 0) as [|_]; [lia|]. rewrite Ok_bind, Hi.
  destruct l as [|[a e0] t].
  { destruct Hs as [v' Hroot]. rewrite (load_eq _ _ _ Hroot), Ok_bind. simpl.
    apply same_notfound. rewrite Hlook. apply lookup_empty. }
  change (chain (cells h) (array h + Z.of_nat i) ((a, e0) :: t)) in Hs.
  pose proof Hs as (Ha & Ha0 & nx0 & Hroot & Ht). subst a.
  rewrite (load_eq _ _ _ Hroot), Ok_bind. simpl.
  destruct (rep_keys _ _ Hrep i _ _ e0 Hl ltac:(left)) as (Hke & _).
  destruct (Z.eqb_spec (key e0) 0) as [|_]; [done|].
  destruct (decide (k ∈ keys_of ((array h + Z.of_nat i, e0) :: t))) as [Hin|Hnin].
  2:{ rewrite (remove_chain_absent h k _ Hcmp Hnin ltac:(done) _ _ 0 Hs) by lia.
      apply same_notfound. rewrite Hlook. by apply ltm_absent. }
  destruct (keys_split _ k Hin) as (l1 & q & [k0 v0] & l2 & Hsplit & Hk0 & Hn1).
  simpl in Hk0. subst k0.
  assert (k ∉ keys_of l2) as Hn2.
  { rewrite Hsplit, keys_of_app, keys_of_cons in Hndk.
    apply NoDup_app in Hndk as (_ & _ & Hndk). by apply NoDup_cons in Hndk as [? _]. }
  rewrite Hlook, Hsplit, ltm_present by done.
  rewrite chain_fuel_eq in *.
  destruct l1 as [|[a' e1] l1].
  - (* the array slot holds the key *)
    simpl in Hsplit. injection Hsplit as <- -> ->.
    cbn [remove_chain]. rewrite (load_eq _ _ _ Hroot), Ok_bind. cbn [ety key val next].
    assert (compare h k k = 0) as -> by (by apply Hcmp). cbn [Z.eqb negb].
    destruct l2 as [|[p1 e1] t'].
    + (* no chain: the slot becomes empty *)
      simpl in Ht. subst nx0. cbn [Z.eqb negb].
      rewrite (store_eq _ _ _ _ Hroot), Ok_bind.
      eexists _, (<[i := []]> bs). split; [reflexivity|].
      match goal with |- rep ?x _ ∧ _ => set (h' := x) end.
      assert (same_meta h h') as Hmeta by done.
      assert (rep h' (<[i := []]> bs)) as Hrep'.
      { eapply (rep_update h bs Hrep i _ h' []); subst h'; hsimpl; try done.
        - exists v0. by rewrite lookup_insert_eq.
        - intros p _ Hp _. by rewrite lookup_insert_ne.
        - intros p [nd Hn]. destruct (decide (p = array h + Z.of_nat i)) as [->|].
          + apply (rep_brk _ _ Hrep). eauto.
          + rewrite lookup_insert_ne in Hn by done. apply (rep_brk _ _ Hrep). eauto.
        - intros p Hp. by apply elem_of_nil in Hp.
        - apply NoDup_nil_2.
        - intros p e Hp. by apply elem_of_nil in Hp.
        - apply NoDup_nil_2.
        - simpl. lia.
        - pose proof (rep_count_max _ _ Hrep). lia.
        - pose proof (rep_load _ _ Hrep). lia. }
      split_and!; try done.
      * apply (Hmap h' [] Hmeta Hrep').
        exact (ltm_remove [] (array h + Z.of_nat i) k v0 [] Hn1 Hn2).
      * apply (no_new_garbage_update h bs i _ h' [] Hl); [done| |].
        -- intros q Hq. simpl in Hq. apply list_elem_of_singleton in Hq as ->.
           right. left. lia.
        -- intros q [nd Hq]. left. subst h'. hsimpl.
           destruct (decide (q = array h + Z.of_nat i)) as [->|]; [eauto|].
           rewrite lookup_insert_ne in Hq by done. eauto.
      * rewrite Hl. simpl. by rewrite Z.eqb_refl.
    + (* the first chain node moves into the slot *)
      simpl in Ht. destruct Ht as (-> & Hp1 & nx1 & Hm1 & Ht').
      assert ((p1 =? 0) = false) as -> by lia. cbn [negb].
      rewrite (load_eq _ _ _ Hm1), Ok_bind.
      rewrite (store_eq _ _ _ _ Hroot), Ok_bind. cbn [ety next].
      simpl in Hndl. apply NoDup_cons in Hndl as [Hna Hndl].
      apply NoDup_cons in Hndl as [Hnp1 Hndl].
      apply not_elem_of_cons in Hna as [Hane Hna].
      unfold free. hsimpl. rewrite lookup_insert_ne, Hm1 by done. rewrite Ok_bind.
      eexists _, (<[i := (array h + Z.of_nat i, e1) :: t']> bs). split; [reflexivity|].
      match goal with |- rep ?x _ ∧ _ => set (h' := x) end.
      assert (same_meta h h') as Hmeta by done.
      assert (rep h' (<[i := (array h + Z.of_nat i, e1) :: t']> bs)) as Hrep'.
      { eapply (rep_update h bs Hrep i _ h' ((array h + Z.of_nat i, e1) :: t')); subst h'; hsimpl; try done.
        - apply slot_chain; [done|]. simpl. split_and!; [done..|].
          exists nx1. split; [by rewrite lookup_delete_ne, lookup_insert_eq|].
          eapply chain_frame; [done|]. intros x Hx.
          rewrite lookup_delete_ne, lookup_insert_ne; [done|..]; intros E; by subst x.
        - intros p Hp Hpa _. simpl in Hp.
          apply not_elem_of_cons in Hp as [_ Hp]. apply not_elem_of_cons in Hp as [? _].
          rewrite lookup_delete_ne, lookup_insert_ne; [done|..]; congruence.
        - intros p [nd Hn]. apply (rep_brk _ _ Hrep).
          destruct (decide (p = p1)) as [->|]; [by rewrite lookup_delete_eq in Hn|].
          rewrite lookup_delete_ne in Hn by done.
          destruct (decide (p = array h + Z.of_nat i)) as [->|]; [eauto|].
          rewrite lookup_insert_ne in Hn by done. eauto.
        - intros p Hp. left. simpl in Hp |- *.
          apply elem_of_cons in Hp as [->|Hp]; [by left|]. by do 2 right.
        - simpl. apply NoDup_cons. split; [|done]. done.
        - intros p e He. apply elem_of_cons in He as [[= -> ->]|He].
          + destruct (rep_keys _ _ Hrep i _ p1 e1 Hl) as (?&?&?); [|done].
            right. by left.
          + apply (rep_keys _ _ Hrep i _ p e Hl). by do 2 right.
        - rewrite keys_of_cons in Hndk. by apply NoDup_cons in Hndk as [_ ?].
        - simpl. lia.
        - pose proof (rep_count_max _ _ Hrep). lia.
        - pose proof (rep_load _ _ Hrep). lia. }
      split_and!; try done.
      * apply (Hmap h' _ Hmeta Hrep').
        exact (ltm_remove [] (array h + Z.of_nat i) k v0 ((p1, e1) :: t') Hn1 Hn2).
      * apply (no_new_garbage_update h bs i _ h' ((array h + Z.of_nat i, e1) :: t') Hl);
          [done| |].
        -- intros q Hq. simpl in Hq |- *.
           apply elem_of_cons in Hq as [->|Hq]; [left; by left|].
           apply elem_of_cons in Hq as [->|Hq]; [|left; by right].
           right. right. subst h'. hsimpl. by rewrite lookup_delete_eq.
        -- intros q [nd Hq]. left. subst h'. hsimpl.
           destruct (decide (q = p1)) as [->|]; [by rewrite lookup_delete_eq in Hq|].
           rewrite lookup_delete_ne in Hq by done.
           destruct (decide (q = array h + Z.of_nat i)) as [->|]; [eauto|].
           rewrite lookup_insert_ne in Hq by done. eauto.
      * rewrite Hl. simpl. by rewrite Z.eqb_refl.
  - (* the key is further down the chain *)
    simpl in Hsplit. injection Hsplit as <- -> ->.
    cbn [remove_chain]. rewrite (load_eq _ _ _ Hroot), Ok_bind. cbn [ety key val next].
    rewrite keys_of_cons in Hn1. apply not_elem_of_cons in Hn1 as [Hk1 Hn1].
    destruct (Z.eqb_spec (compare h k (key e1)) 0) as [Heq|_].
    { apply (proj1 (Hcmp _ _)) in Heq. done. }
    cbn [negb].
    assert (nx0 ≠ 0) as Hnx0.
    { eapply chain_nonnil_ptr; [done|]. by destruct l1. }
    assert ((nx0 =? 0) = false) as -> by lia.
    destruct (remove_chain_tail h k l1 q (Entry k v0) l2 Hcmp Hn1 eq_refl
                (size (cells h)) (array h + Z.of_nat i) e1 nx0)
      as (h' & -> & Hmeta & Hb' & Hcnt & Hch & Hfr & Hdom & Hgone).
    { exact Hs. }
    { exact Hndl. }
    { done. }
    { simpl in Hfuel. rewrite length_app in Hfuel. simpl in Hfuel. lia. }
    exists h', (<[i := (array h + Z.of_nat i, e1) :: l1 ++ l2]> bs). split; [done|].
    assert (rep h' (<[i := (array h + Z.of_nat i, e1) :: l1 ++ l2]> bs)) as Hrep'.
    { eapply (rep_update h bs Hrep i _ h' ((array h + Z.of_nat i, e1) :: l1 ++ l2)); try done.
      - intros x Hx _ _. apply Hfr. exact Hx.
      - by apply Hbound.
      - intros p Hp. left. simpl in Hp |- *. rewrite !fmap_app in *.
        rewrite elem_of_cons, elem_of_app in Hp.
        rewrite elem_of_cons, elem_of_app. simpl. rewrite elem_of_cons. naive_solver.
      - simpl in Hndl |- *. rewrite !fmap_app in *. simpl in Hndl.
        apply NoDup_cons in Hndl as [Hna Hndl]. apply NoDup_cons.
        rewrite not_elem_of_app, not_elem_of_cons in Hna.
        split; [rewrite not_elem_of_app; naive_solver|].
        apply NoDup_app in Hndl as (? & Hd & Hndl).
        apply NoDup_cons in Hndl as [? ?]. apply NoDup_app. split_and!; [done| |done].
        intros x Hx Hx2. apply (Hd x Hx). by right.
      - intros p e He. apply (rep_keys _ _ Hrep i _ p e Hl).
        rewrite elem_of_cons, elem_of_app in He.
        rewrite elem_of_cons, elem_of_app, elem_of_cons. naive_solver.
      - rewrite keys_of_cons, keys_of_app in *. rewrite keys_of_cons in Hndk.
        apply NoDup_cons in Hndk as [Hna Hndk]. apply NoDup_cons.
        rewrite not_elem_of_app, not_elem_of_cons in Hna.
        split; [rewrite not_elem_of_app; naive_solver|].
        apply NoDup_app in Hndk as (? & Hd & Hndk).
        apply NoDup_cons in Hndk as [? ?]. apply NoDup_app. split_and!; [done| |done].
        intros x Hx Hx2. apply (Hd x Hx). by right.
      - simpl. rewrite !length_app. simpl. lia.
      - pose proof (rep_count_max _ _ Hrep). lia.
      - pose proof (rep_load _ _ Hrep). lia. }
    split_and!; try done.
    + apply (Hmap h' _ Hmeta Hrep').
      apply (ltm_remove ((array h + Z.of_nat i, e1) :: l1) q k v0 l2); [|done].
      rewrite keys_of_cons. by apply not_elem_of_cons.
    + apply (no_new_garbage_update h bs i _ h' ((array h + Z.of_nat i, e1) :: l1 ++ l2) Hl);
        [done| |].
      * intros x Hx. simpl in Hx |- *. rewrite !fmap_app in *. simpl in Hx.
        rewrite elem_of_cons, elem_of_app, elem_of_cons in Hx.
        rewrite elem_of_cons, elem_of_app.
        destruct Hx as [?|[?|[->|?]]]; [by left; left|by left; right; left| |by left; right; right].
        by right; right.
      * intros x Hx. left. by apply Hdom.
    + rewrite Hl. simpl.
      destruct (Z.eqb_spec (key e1) k) as [|_]; [done|].
      by rewrite (drop_key_split k l1 q (Entry k v0) l2 Hn1 eq_refl).
Qed.

Lemma hashmap_remove_entry_spec h bs k :
  rep h bs →
  ∃ h' bs',
    hashmap_remove_entry h k =
      Ok (match to_map bs !! k with Some v => Entry k v | None => Entry 0 0 end, h') ∧
    rep h' bs' ∧ to_map bs' = delete k (to_map bs) ∧ same_meta h h' ∧
    brk h' = brk h ∧
    count h' = match to_map bs !! k with Some _ => count h - 1 | None => count h end ∧
    (to_map bs !! k = None → h' = h).
Proof.
  intros Hrep.
  destruct (hashmap_remove_entry_alloc h bs k Hrep)
    as (h' & bs' & H1 & H2 & H3 & H4 & H5 & H6 & H7 & _).
  by exists h', bs'.
Qed.

(** ** Clear *)

Lemma node_empty_spec h l :
  NoDup l.*1 →
  ∀ fuel p, chain (cells h) p l → (length l ≤ fuel)%nat →
  ∃ h', __node_empty fuel h p = Ok h' ∧ same_meta h h' ∧ brk h' = brk h ∧
        count h' = count h - Z.of_nat (length l) ∧
        (∀ x, x ∉ l.*1 → cells h' !! x = cells h !! x) ∧
        (∀ x, x ∈ l.*1 → cells h' !! x = None).
Proof.
  induction l as [|[q e] l IH]; intros Hnd fuel p Hc Hf.
  - simpl in Hc. subst p. exists h. split.
    { by destruct fuel. }
    split; [done|]. split; [done|]. split; [simpl; lia|]. split; [done|].
    intros x Hx. by apply elem_of_nil in Hx.
  - destruct fuel as [|fuel]; [simpl in Hf; lia|].
    simpl in Hc. destruct Hc as (-> & Hq & nx & Hm & Hc).
    simpl in Hnd. apply NoDup_cons in Hnd as [Hnq Hnd].
    destruct (IH Hnd fuel nx Hc) as (h1 & Hne & Hmeta & Hb & Hcnt & Hfr & Hgone).
    { simpl in Hf. lia. }
    cbn [__node_empty]. destruct (Z.eqb_spec q 0) as [|_]; [done|].
    rewrite (load_eq _ _ _ Hm), Ok_bind. cbn [next]. rewrite Hne, Ok_bind.
    assert (cells h1 !! q = Some (Node e nx)) as Hm1 by (by rewrite Hfr).
    rewrite (free_eq _ _ _ Hm1), Ok_bind.
    eexists. split; [reflexivity|]. hsimpl.
    split; [done|]. split; [done|]. split; [simpl; lia|]. split.
    + intros x Hx. simpl in Hx. apply not_elem_of_cons in Hx as [Hxq Hx].
      rewrite lookup_delete_ne by done. by apply Hfr.
    + intros x Hx. simpl in Hx. destruct (decide (x = q)) as [->|Hne'].
      * by rewrite lookup_delete_eq.
      * rewrite lookup_delete_ne by done. apply Hgone.
        apply elem_of_cons in Hx as [?|?]; done.
Qed.

Lemma clear_slots_spec n :
  ∀ h bs (ii : nat), rep h bs → (ii + n)%nat = length bs →
    (∀ j l, (j < ii)%nat → bs !! j = Some l → l = []) →
    ∃ h' bs', clear_slots n h (Z.of_nat ii) = Ok h' ∧ rep h' bs' ∧
      same_meta h h' ∧ brk h' = brk h ∧ (∀ j l, bs' !! j = Some l → l = []) ∧
      no_new_garbage h bs h' bs'.
Proof.
  induction n as [|n IH]; intros h bs ii Hrep Hlen Hdone.
  { exists h, bs. split_and!; try done; [|apply no_new_garbage_refl].
    intros j l Hj. eapply Hdone; [|done]. apply lookup_lt_Some in Hj. lia. }
  destruct (lookup_lt_is_Some_2 bs ii) as [l Hl]; [lia|].
  pose proof (rep_slot _ _ Hrep _ _ Hl) as Hs.
  cbn [clear_slots].
  destruct l as [|[a e] t].
  - destruct Hs as [v Hroot]. rewrite (load_eq _ _ _ Hroot), Ok_bind. cbn [ety key].
    cbn [Z.eqb].
    replace (Z.of_nat ii + 1) with (Z.of_nat (S ii)) by lia.
    apply (IH h bs (S ii)); [done|lia|]. intros j l Hj Hjl.
    destruct (decide (j = ii)) as [->|]; [congruence|]. eapply Hdone; [|done]. lia.
  - change (chain (cells h) (array h + Z.of_nat ii) ((a, e) :: t)) in Hs.
    pose proof Hs as (Ha & Ha0 & nx & Hroot & Ht). subst a.
    set (a := array h + Z.of_nat ii) in *.
    destruct (rep_keys _ _ Hrep ii _ _ e Hl ltac:(left)) as (Hke & _).
    pose proof (rep_bucket_nodup h bs ii _ Hrep Hl) as Hndl.
    simpl in Hndl. apply NoDup_cons in Hndl as [Hna Hndt].
    pose proof (rep_fuel h bs Hrep _ _ Hl) as Hfuel.
    rewrite (load_eq _ _ _ Hroot), Ok_bind. cbn [ety key val next].
    destruct (Z.eqb_spec (key e) 0) as [|_]; [done|].
    rewrite (store_eq _ _ _ _ Hroot), Ok_bind.
    set (h1 := with_cells _ h). change (array h1 + Z.of_nat ii) with a.
    assert (cells h1 !! a = Some (Node (Entry 0 (val e)) nx)) as Hroot1.
    { subst h1. hsimpl. by rewrite lookup_insert_eq. }
    rewrite (load_eq _ _ _ Hroot1), Ok_bind. cbn [next].
    destruct (node_empty_spec h1 t Hndt (chain_fuel h1) nx)
      as (h2 & -> & Hmeta2 & Hb2 & Hcnt2 & Hfr2 & Hgone2).
    { eapply chain_frame; [done|]. intros x Hx. subst h1. hsimpl.
      rewrite lookup_insert_ne; [done|]. by intros <-. }
    { rewrite chain_fuel_eq in *. subst h1. hsimpl.
      rewrite map_size_insert_Some by eauto. simpl in Hfuel. lia. }
    rewrite Ok_bind. destruct Hmeta2 as (HN2 & Ha2 & Hh2 & Hc2).
    rewrite Ha2. subst h1. hsimpl. change (array h + Z.of_nat ii) with a.
    assert (cells h2 !! a = Some (Node (Entry 0 (val e)) nx)) as Hroot2.
    { rewrite Hfr2 by done. hsimpl. by rewrite lookup_insert_eq. }
    rewrite (load_eq _ _ _ Hroot2), Ok_bind. cbn [ety].
    rewrite (store_eq _ _ _ _ Hroot2), Ok_bind. hsimpl.
    pose proof (rep_count _ _ Hrep) as Hcount.
    rewrite (join_lookup_perm bs ii _ Hl), length_app in Hcount. simpl in Hcount.
    destruct (Z.leb_spec 0 (count h2 - 1)) as [_|]; [|lia].
    replace (Z.of_nat ii + 1) with (Z.of_nat (S ii)) by lia.
    match goal with |- ∃ _ _, clear_slots _ ?x _ = _ ∧ _ => set (h4 := x) end.
    assert (same_meta h h4) as Hmeta4 by done.
    assert (rep h4 (<[ii := []]> bs)) as Hrep4.
    { eapply (rep_update h bs Hrep ii _ h4 []); subst h4; hsimpl; try done.
      - exists (val e). by rewrite lookup_insert_eq.
      - intros p Hp Hpa _. simpl in Hp. apply not_elem_of_cons in Hp as [_ Hp].
        rewrite lookup_insert_ne by done. rewrite Hfr2 by done. hsimpl.
        by rewrite lookup_insert_ne.
      - intros p [nd Hn]. rewrite Hb2. hsimpl. apply (rep_brk _ _ Hrep).
        destruct (decide (p = a)) as [->|]; [eauto|].
        rewrite lookup_insert_ne in Hn by done.
        destruct (decide (p ∈ t.*1)) as [Hin|Hnin].
        + by rewrite Hgone2 in Hn.
        + rewrite Hfr2 in Hn by done. hsimpl.
          rewrite lookup_insert_ne in Hn by done. eauto.
      - intros p Hp. by apply elem_of_nil in Hp.
      - apply NoDup_nil_2.
      - intros p e' Hp. by apply elem_of_nil in Hp.
      - apply NoDup_nil_2.
      - simpl. lia.
      - pose proof (rep_count_max _ _ Hrep). lia.
      - pose proof (rep_load _ _ Hrep). lia. }
    destruct (IH h4 (<[ii := []]> bs) (S ii) Hrep4)
      as (h' & bs' & Hcl & Hrep' & Hmeta' & Hb' & Hall & Hg').
    { rewrite length_insert. lia. }
    { intros j l Hj Hjl. destruct (decide (j = ii)) as [->|].
      - rewrite list_lookup_insert_eq in Hjl; [congruence|]. by eapply lookup_lt_Some.
      - rewrite list_lookup_insert_ne in Hjl by done. eapply Hdone; [|done]. lia. }
    exists h', bs'. split_and!; try done.
    + destruct Hmeta' as (?&?&?&?). subst h4. hsimpl. split_and!; congruence.
    + rewrite Hb'. subst h4. hsimpl. done.
    + eapply no_new_garbage_trans; [|exact Hg'].
      pose proof (rep_index h bs Hrep _ _ Hl) as Hidx.
      apply (no_new_garbage_update h bs ii _ h4 [] Hl); [done| |].
      * intros q Hq. simpl in Hq. right.
        apply elem_of_cons in Hq as [->|Hq]; [left; subst a; lia|right].
        subst h4. hsimpl. rewrite lookup_insert_ne by (by intros <-). by apply Hgone2.
      * intros q [nd Hn]. left. subst h4. hsimpl.
        destruct (decide (q = a)) as [->|]; [eauto|].
        rewrite lookup_insert_ne in Hn by done.
        destruct (decide (q ∈ t.*1)) as [Hin|Hnin].
        -- by rewrite Hgone2 in Hn.
        -- rewrite Hfr2 in Hn by done. hsimpl.
           rewrite lookup_insert_ne in Hn by done. eauto.
Qed.

Lemma rep_all_empty h bs :
  rep h bs → (∀ j l, bs !! j = Some l → l = []) → count h = 0 ∧ to_map bs = ∅.
Proof.
  intros Hrep Hall.
  assert (mjoin bs = []) as Hnil.
  { apply join_nil_2, Forall_lookup. intros j l Hj. eapply Hall; eauto. }
  split.
  - rewrite (rep_count _ _ Hrep), Hnil. done.
  - unfold to_map. by rewrite Hnil.
Qed.

Lemma hashmap_clear_alloc h bs :
  rep h bs →
  ∃ h' bs', hashmap_clear h = Ok h' ∧ rep h' bs' ∧ same_meta h h' ∧
            count h' = 0 ∧ to_map bs' = ∅ ∧ no_new_garbage h bs h' bs'.
Proof.
  intros Hrep. unfold hashmap_clear, hashmap_count.
  destruct (clear_slots_spec (Z.to_nat (arraySize h)) h bs 0 Hrep)
    as (h' & bs' & Hcl & Hrep' & Hmeta & _ & Hall & Hg).
  { pose proof (rep_size _ _ Hrep). lia. }
  { intros j l Hj. lia. }
  change (Z.of_nat 0) with 0 in Hcl. rewrite Hcl, Ok_bind.
  destruct (rep_all_empty h' bs' Hrep' Hall) as [Hc Hm].
  rewrite Hc. simpl. exists h', bs'. done.
Qed.

Lemma hashmap_clear_spec h bs :
  rep h bs →
  ∃ h' bs', hashmap_clear h = Ok h' ∧ rep h' bs' ∧ same_meta h h' ∧
            count h' = 0 ∧ to_map bs' = ∅.
Proof.
  intros Hrep.
  destruct (hashmap_clear_alloc h bs Hrep) as (h' & bs' & H1 & H2 & H3 & H4 & H5 & _).
  by exists h', bs'.
Qed.

(** ** The iterator on a map that is not modified *)

Lemma chain_after m l p e post nx :
  ∀ z, chain m z (l ++ (p, e) :: post) → m !! p = Some (Node e nx) →
  chain m nx post.
Proof.
  induction l as [|[q1 e1] l IH]; simpl; intros z.
  - intros (Hz & _ & nx' & Hm & Hc) Hmp. subst z. rewrite Hmp in Hm.
    by injection Hm as <-.
  - intros (_ & _ & nx' & _ & Hc) Hmp. eauto.
Qed.

Section Iterate.
Context (h : hashmap_t) (bs : list (list (Z * hash_entry_t))).
Hypothesis Hrep : rep h bs.

Lemma skip_empty_spec n : ∀ c : nat,
    (c + n)%nat = length bs →
    ∃ c' : nat, skip_empty n h (Z.of_nat c) = Ok (Z.of_nat c') ∧
      (c ≤ c' ≤ length bs)%nat ∧
      (∀ j, (c ≤ j < c')%nat → bs !! j = Some []) ∧
      ((c' < length bs)%nat → ∃ x t, bs !! c' = Some (x :: t)).
Proof.
  pose proof (rep_size _ _ Hrep) as HN.
  induction n as [|n IH]; intros c Hc.
  { exists c. split_and!; [done|lia|lia|intros; lia|lia]. }
  cbn [skip_empty].
  destruct (Z.ltb_spec (Z.of_nat c) (arraySize h)) as [_|]; [|lia].
  destruct (lookup_lt_is_Some_2 bs c) as [l Hl]; [lia|].
  pose proof (rep_slot _ _ Hrep _ _ Hl) as Hs.
  destruct l as [|[a e] t].
  - destruct Hs as [v Hroot]. rewrite (load_eq _ _ _ Hroot), Ok_bind. cbn.
    replace (Z.of_nat c + 1) with (Z.of_nat (S c)) by lia.
    destruct (IH (S c)) as (c' & Hsk & Hb & Hempty & Hfull); [lia|].
    exists c'. split_and!; [done|lia|lia| |done].
    intros j Hj. destruct (decide (j = c)) as [->|]; [done|]. apply Hempty. lia.
  - destruct Hs as (_ & _ & nx & Hroot & _).
    rewrite (load_eq _ _ _ Hroot), Ok_bind. cbn [ety key].
    destruct (rep_keys _ _ Hrep c _ _ e Hl ltac:(left)) as (Hke & _).
    destruct (Z.eqb_spec (key e) 0) as [|_]; [done|]. cbn [negb].
    exists c. split_and!; [done|lia|lia|intros; lia|eauto].
Qed.

Lemma scan_spec (c : nat) :
    (c ≤ length bs)%nat →
    ∃ c' : nat, scan h (Z.of_nat c) = Ok (Z.of_nat c') ∧
      (c ≤ c' ≤ length bs)%nat ∧
      (∀ j, (c ≤ j < c')%nat → bs !! j = Some []) ∧
      ((c' < length bs)%nat → ∃ x t, bs !! c' = Some (x :: t)).
Proof.
  intros Hc. unfold scan. apply skip_empty_spec.
  pose proof (rep_size _ _ Hrep). lia.
Qed.

Lemma drop_skip_empty (c c' : nat) :
    (c ≤ c')%nat → (∀ j, (c ≤ j < c')%nat → bs !! j = Some []) →
    mjoin (drop c bs) = mjoin (drop c' bs).
Proof.
  intros Hle Hempty. induction Hle as [|c' Hle IH]; [done|].
  rewrite IH by (intros; apply Hempty; lia).
  rewrite (drop_S bs [] c') by (apply Hempty; lia). done.
Qed.

  (** One call of [hashmap_iterator_next]. *)
Lemma next_spec it rest :
    iter_at bs it rest →
    ∃ k it' rest', hashmap_iterator_next h it = Ok (k, it') ∧
      iter_at bs it' rest' ∧
      ((k = 0 ∧ rest = [] ∧ rest' = []) ∨ (k ≠ 0 ∧ rest = k :: rest')).
Proof.
  pose proof (rep_size _ _ Hrep) as HN.
  intros [c Hc|c pre p e post Hl Hpre]; unfold hashmap_iterator_next; cbn [cur cur_linked].
  - cbn [Z.eqb negb].
    destruct (scan_spec c Hc) as (c' & -> & Hb & Hempty & Hfull). rewrite Ok_bind.
    rewrite (drop_skip_empty c c') by (lia || done).
    destruct (decide (c' = length bs)) as [->|Hne].
    + assert ((arraySize h =? Z.of_nat (length bs)) = true) as -> by lia.
      exists 0, (Iter (Z.of_nat (length bs)) 0), []. split; [done|]. split.
      * replace [] with (keys_of (mjoin (drop (length bs) bs))).
        { by constructor. }
        by rewrite drop_all.
      * left. by rewrite drop_all.
    + assert ((arraySize h =? Z.of_nat c') = false) as -> by lia.
      destruct Hfull as ([a e] & t & Hl); [lia|].
      pose proof (rep_slot _ _ Hrep _ _ Hl) as Hs.
      destruct (rep_keys _ _ Hrep c' _ _ e Hl ltac:(left)) as (Hke & _).
      destruct Hs as (_ & _ & nx & Hroot & Ht).
      rewrite (load_eq _ _ _ Hroot), Ok_bind. cbn [ety key next].
      rewrite (drop_S bs _ c' Hl). cbn [mjoin list_join].
      destruct t as [|[p1 e1] t].
      * simpl in Ht. subst nx. cbn [Z.eqb negb].
        exists (key e), (Iter (Z.of_nat c' + 1) 0), (keys_of (mjoin (drop (S c') bs))).
        split; [done|]. split; [|by right].
        replace (Z.of_nat c' + 1) with (Z.of_nat (S c')) by lia. constructor. lia.
      * simpl in Ht. destruct Ht as (<- & Hp1 & _).
        assert ((nx =? 0) = false) as -> by lia. cbn [negb].
        exists (key e), (Iter (Z.of_nat c') nx),
          (keys_of ((nx, e1) :: t) ++ keys_of (mjoin (drop (S c') bs))).
        split; [done|]. split.
        { by apply (at_node bs c' [(a, e)] nx e1 t). }
        right. split; [done|]. by rewrite keys_of_app.
  - pose proof (rep_slot _ _ Hrep _ _ Hl) as Hs.
    destruct pre as [|[a e0] pre]; [done|].
    change (chain (cells h) (array h + Z.of_nat c) ((a, e0) :: pre ++ (p, e) :: post)) in Hs.
    pose proof Hs as (_ & _ & nx0 & Hroot & Ht).
    assert ((p, e) ∈ (a, e0) :: pre ++ (p, e) :: post) as Hin by set_solver.
    destruct (chain_alloc _ _ _ _ _ Hs Hin) as (Hp & nxp & Hmp).
    destruct (rep_keys _ _ Hrep c _ _ e Hl Hin) as (Hke & _).
    assert ((p =? 0) = false) as -> by lia. cbn [negb].
    rewrite (load_eq _ _ _ Hroot), Ok_bind. cbn [next].
    assert (nx0 ≠ 0) as Hnx0.
    { eapply chain_nonnil_ptr; [done|]. by destruct pre. }
    assert ((nx0 =? 0) = false) as -> by lia.
    rewrite (load_eq _ _ _ Hmp), Ok_bind. cbn [ety key next].
    pose proof (chain_after _ ((a, e0) :: pre) p e post nxp _ Hs Hmp) as Hpost.
    destruct post as [|[p2 e2] post].
    + simpl in Hpost. subst nxp. cbn [Z.eqb].
      exists (key e), (Iter (Z.of_nat c + 1) 0), (keys_of (mjoin (drop (S c) bs))).
      split; [done|]. split; [|by right].
      replace (Z.of_nat c + 1) with (Z.of_nat (S c)) by lia. constructor.
      apply lookup_lt_Some in Hl. lia.
    + simpl in Hpost. destruct Hpost as (<- & Hp2 & _).
      assert ((nxp =? 0) = false) as -> by lia.
      exists (key e), (Iter (Z.of_nat c) nxp),
        (keys_of ((nxp, e2) :: post) ++ keys_of (mjoin (drop (S c) bs))).
      split; [done|]. split; [|by right].
      apply (at_node bs c (((a, e0) :: pre) ++ [(p, e)]) nxp e2 post); [|done].
      by rewrite <-app_assoc.
Qed.

  (** One call of [hashmap_iterator_peek]. *)
Lemma peek_spec it rest :
    iter_at bs it rest →
    ∃ it', hashmap_iterator_peek h it = Ok (hd 0 rest, it') ∧ iter_at bs it' rest ∧
      (cur_linked it ≠ 0 → it' = it) ∧
      (cur_linked it = 0 → cur_linked it' = 0 ∧ ∃ c c' : nat,
         cur it = Z.of_nat c ∧ cur it' = Z.of_nat c' ∧ (c ≤ c' ≤ length bs)%nat ∧
         (∀ j, (c ≤ j < c')%nat → bs !! j = Some []) ∧
         ((c' < length bs)%nat → ∃ x t, bs !! c' = Some (x :: t))).
Proof.
  pose proof (rep_size _ _ Hrep) as HN.
  intros [c Hc|c pre p e post Hl Hpre]; unfold hashmap_iterator_peek; cbn [cur cur_linked].
  - cbn [Z.eqb].
    destruct (scan_spec c Hc) as (c' & -> & Hb & Hempty & Hfull). rewrite Ok_bind.
    rewrite (drop_skip_empty c c') by (lia || done).
    assert (∀ k, Ok (k, Iter (Z.of_nat c') 0) = Ok (hd 0 (keys_of (mjoin (drop c' bs))), Iter (Z.of_nat c') 0) →
      ∃ it', Ok (k, Iter (Z.of_nat c') 0) = Ok (hd 0 (keys_of (mjoin (drop c' bs))), it') ∧
        iter_at bs it' (keys_of (mjoin (drop c' bs))) ∧
        (0 ≠ 0 → it' = Iter (Z.of_nat c) 0) ∧
        (0 = 0 → cur_linked it' = 0 ∧ ∃ c0 c'0 : nat,
           Z.of_nat c = Z.of_nat c0 ∧ cur it' = Z.of_nat c'0 ∧ (c0 ≤ c'0 ≤ length bs)%nat ∧
           (∀ j, (c0 ≤ j < c'0)%nat → bs !! j = Some []) ∧
           ((c'0 < length bs)%nat → ∃ x t, bs !! c'0 = Some (x :: t)))) as Hfin.
    { intros k Hk. exists (Iter (Z.of_nat c') 0). split; [done|]. split.
      { constructor. lia. }
      split; [done|]. intros _. split; [done|]. exists c, c'. done. }
    destruct (decide (c' = length bs)) as [->|Hne].
    + destruct (Z.ltb_spec (Z.of_nat (length bs)) (arraySize h)) as [|_]; [lia|].
      apply Hfin. by rewrite drop_all.
    + destruct (Z.ltb_spec (Z.of_nat c') (arraySize h)) as [_|]; [|lia].
      destruct Hfull as ([a e] & t & Hl); [lia|].
      pose proof (rep_slot _ _ Hrep _ _ Hl) as Hs.
      destruct Hs as (_ & _ & nx & Hroot & Ht).
      rewrite (load_eq _ _ _ Hroot), Ok_bind. cbn [ety key next].
      apply Hfin. by rewrite (drop_S bs _ c' Hl).
  - pose proof (rep_slot _ _ Hrep _ _ Hl) as Hs.
    destruct pre as [|[a e0] pre]; [done|].
    change (chain (cells h) (array h + Z.of_nat c) ((a, e0) :: pre ++ (p, e) :: post)) in Hs.
    assert ((p, e) ∈ (a, e0) :: pre ++ (p, e) :: post) as Hin by set_solver.
    destruct (chain_alloc _ _ _ _ _ Hs Hin) as (Hp & nxp & Hmp).
    assert ((p =? 0) = false) as -> by lia.
    rewrite (load_eq _ _ _ Hmp), Ok_bind. cbn [ety key].
    exists (Iter (Z.of_nat c) p). split; [done|]. split.
    { by apply (at_node bs c ((a, e0) :: pre) p e post). }
    split; [done|]. intros ?. lia.
Qed.

Lemma drain_spec fuel : ∀ it rest,
    iter_at bs it rest → (length rest < fuel)%nat → drain fuel h it = Ok rest.
Proof.
  induction fuel as [|fuel IH]; intros it rest Hat Hf; [lia|].
  destruct (next_spec it rest Hat) as (k & it' & rest' & Hnext & Hat' & Hk).
  cbn [drain]. rewrite Hnext, Ok_bind.
  destruct Hk as [(-> & -> & ->)|(Hk & ->)].
  - done.
  - destruct (Z.eqb_spec k 0) as [|_]; [done|].
    rewrite (IH it' rest' Hat'), Ok_bind; [done|]. simpl in Hf. lia.
Qed.

Lemma drain_all fuel :
    (length (mjoin bs) < fuel)%nat →
    drain fuel h (hashmap_iterator h) = Ok (keys_of (mjoin bs)).
Proof.
  intros Hf. apply (drain_spec fuel (Iter (Z.of_nat 0) 0)).
  - apply (at_slot bs 0). lia.
  - unfold keys_of. by rewrite length_fmap.
Qed.
End Iterate.

(** ** A fresh table *)

Lemma lookup_zero_fill n : ∀ p (m : gmap Z hash_node_t) q,
  zero_fill n p m !! q =
    if decide (p ≤ q < p + Z.of_nat n) then Some zero_node else m !! q.
Proof.
  induction n as [|n IH]; intros p m q; cbn [zero_fill].
  - case_decide; [lia|done].
  - destruct (decide (p = q)) as [->|Hne].
    + rewrite lookup_insert_eq. case_decide; [done|lia].
    + rewrite lookup_insert_ne by done. rewrite IH.
      repeat case_decide; try done; lia.
Qed.

Lemma join_replicate_nil {A} n : mjoin (replicate n ([] : list A)) = [].
Proof. induction n; simpl; done. Qed.

Lemma fresh_table_rep n b hashf cmp (m : gmap Z hash_node_t) :
  0 < n → 0 < b → (∀ p, is_Some (m !! p) → 0 < p < b) →
  (∀ x y, cmp x y = 0 ↔ x = y) →
  rep (Hashmap 0 n b hashf cmp (zero_fill (Z.to_nat n) b m) (b + Z.max 1 n))
      (replicate (Z.to_nat n) []).
Proof.
  intros Hn Hb Hm Hcmp. split; hsimpl.
  - rewrite length_replicate. lia.
  - done.
  - done.
  - intros i l Hl. apply lookup_replicate in Hl as [-> Hi].
    exists 0. rewrite lookup_zero_fill. case_decide; [done|lia].
  - rewrite join_replicate_nil. apply NoDup_nil_2.
  - intros i l p e Hl Hin. apply lookup_replicate in Hl as [-> Hi].
    by apply elem_of_nil in Hin.
  - intros p [nd Hp]. rewrite lookup_zero_fill in Hp. case_decide; [lia|].
    pose proof (Hm p (mk_is_Some _ _ Hp)). lia.
  - intros i l p e Hl Hin. apply lookup_replicate in Hl as [-> Hi].
    by apply elem_of_nil in Hin.
  - intros i l Hl. apply lookup_replicate in Hl as [-> Hi]. apply NoDup_nil_2.
  - by rewrite join_replicate_nil.
  - lia.
  - lia.
  - done.
Qed.

Lemma hashmap_new_rep hashf cmp n :
  0 < n → (∀ x y, cmp x y = 0 ↔ x = y) →
  rep (hashmap_new hashf cmp n) (replicate (Z.to_nat n) []).
Proof.
  intros Hn Hcmp.
  apply (fresh_table_rep n 1 hashf cmp ∅); [done|done| |done].
  intros p [nd Hp]. by rewrite lookup_empty in Hp.
Qed.

Lemma to_map_replicate_nil n : to_map (replicate n []) = ∅.
Proof. unfold to_map. by rewrite join_replicate_nil. Qed.

(** ** Cells outside of the map *)

Lemma owned_addr h bs (i : nat) l p :
  bs !! i = Some l → p ∈ l.*1 → owned h bs p.
Proof.
  intros Hl Hp. right. rewrite (join_lookup_perm bs i l Hl), fmap_app, elem_of_app.
  by left.
Qed.

Lemma rep_outside h bs h' :
  rep h bs → same_meta h h' → count h' = count h → brk h ≤ brk h' →
  (∀ p, owned h bs p → cells h' !! p = cells h !! p) →
  (∀ p, is_Some (cells h' !! p) → 0 < p < brk h') →
  rep h' bs.
Proof.
  intros Hrep (HN & Ha & Hh & Hc) Hcnt Hbrk Hsame Hbound.
  split; rewrite ?HN, ?Ha, ?Hh, ?Hc, ?Hcnt; try apply Hrep.
  - intros i l Hl. pose proof (rep_index h bs Hrep _ _ Hl).
    eapply slot_frame; [by apply (rep_slot _ _ Hrep)|..].
    + apply Hsame. left. lia.
    + intros q Hq. apply Hsame. by eapply owned_addr.
  - done.
Qed.

Lemma rep_free_outside h bs p :
  rep h bs → ¬ owned h bs p →
  rep (with_cells (delete p (cells h)) h) bs.
Proof.
  intros Hrep Hp. eapply rep_outside; [done|done|done|done|..]; hsimpl.
  - intros q Hq. rewrite lookup_delete_ne; [done|]. by intros ->.
  - intros q [nd Hq]. apply (rep_brk _ _ Hrep).
    destruct (decide (q = p)) as [->|]; [by rewrite lookup_delete_eq in Hq|].
    rewrite lookup_delete_ne in Hq by done. eauto.
Qed.

Lemma nodup_alloc_size (m : gmap Z hash_node_t) (l : list Z) :
  NoDup l → (∀ p, p ∈ l → is_Some (m !! p)) → (length l ≤ size m)%nat.
Proof.
  intros Hnd Hall.
  rewrite <-(size_list_to_set (C:=gset Z) l) by done.
  rewrite <-(size_dom (D:=gset Z) m).
  apply subseteq_size. intros p Hp. apply elem_of_list_to_set in Hp.
  apply elem_of_dom. auto.
Qed.

(** ** Keys are distinct across the buckets *)

Lemma NoDup_join_indexed {A B} (g : A → B) (f : B → nat) (bs : list (list A)) :
  ∀ off,
  (∀ j l x, bs !! j = Some l → x ∈ l → f (g x) = (off + j)%nat) →
  (∀ j l, bs !! j = Some l → NoDup (g <$> l)) →
  NoDup (g <$> mjoin bs).
Proof.
  induction bs as [|b bs IH]; intros off Hidx Hnd; [apply NoDup_nil_2|].
  cbn [mjoin list_join]. rewrite fmap_app. apply NoDup_app. split_and!.
  - apply (Hnd 0%nat). done.
  - intros y Hy Hy'.
    apply list_elem_of_fmap in Hy as (x & -> & Hx).
    apply list_elem_of_fmap in Hy' as (x' & Heq & Hx').
    apply elem_of_join_lookup in Hx' as (j & l & Hj & Hxl).
    pose proof (Hidx 0%nat b x eq_refl Hx).
    pose proof (Hidx (S j) l x' Hj Hxl). rewrite Heq in *. lia.
  - apply (IH (S off)).
    + intros j l x Hj Hx. rewrite (Hidx (S j) l x Hj Hx). lia.
    + intros j l Hj. apply (Hnd (S j)). done.
Qed.

Lemma rep_keys_nodup_all h bs : rep h bs → NoDup (keys_of (mjoin bs)).
Proof.
  intros Hrep. unfold keys_of.
  apply (NoDup_join_indexed _ (λ k, Z.to_nat (hash h k `mod` arraySize h)) _ 0).
  - intros j l [p e] Hj Hin.
    destruct (rep_keys _ _ Hrep j l p e Hj Hin) as (_ & _ & Hk). simpl. lia.
  - intros j l Hj. apply (rep_keys_nodup _ _ Hrep j l Hj).
Qed.

Lemma rep_keys_in h bs p e :
  rep h bs → (p, e) ∈ mjoin bs → key e ≠ 0 ∧ val e ≠ 0.
Proof.
  intros Hrep Hin. apply elem_of_join_lookup in Hin as (j & l & Hj & Hin).
  destruct (rep_keys _ _ Hrep j l p e Hj Hin) as (? & ? & _). done.
Qed.


Lemma to_map_dom h bs k :
  rep h bs → k ∈ keys_of (mjoin bs) ↔ is_Some (to_map bs !! k).
Proof.
  intros Hrep. unfold to_map. rewrite <-kv_fst. split.
  - intros Hin. destruct (to_map bs !! k) eqn:E; unfold to_map in E; rewrite E; [eauto|].
    by apply not_elem_of_list_to_map in E.
  - intros [v Hv]. apply elem_of_list_to_map_2 in Hv.
    apply list_elem_of_fmap. by exists (k, v).
Qed.

(** ** Growth *)

Lemma rehash_inv_weaken h0 nmin done (keep keep' : Z → Prop) hc :
  rehash_inv h0 nmin done keep hc → (∀ q, keep' q → keep q) →
  rehash_inv h0 nmin done keep' hc.
Proof. intros [] Hk. split; auto. Qed.

Lemma rehash_alloc_weaken h0 nmin done (keep keep' : Z → Prop) hc :
  rehash_alloc h0 nmin done keep hc → (∀ q, keep' q ↔ keep q) →
  rehash_alloc h0 nmin done keep' hc.
Proof.
  intros [Hinv Htight Hlive] Hk. split; [|done|].
  - eapply rehash_inv_weaken; [done|]. intros q. apply Hk.
  - intros p Hp Ha. apply Hk. by apply Hlive.
Qed.

Lemma rehash_alloc_intro h0 nmin done (keep : Z → Prop) hc :
  (∃ bsc, rep hc bsc ∧ to_map bsc = list_to_map (kv done) ∧
          (∀ p, owned hc bsc p → brk h0 ≤ p) ∧
          (∀ p, brk h0 ≤ p → is_Some (cells hc !! p) → owned hc bsc p)) →
  hash hc = hash h0 → compare hc = compare h0 →
  count hc = Z.of_nat (length done) → nmin ≤ arraySize hc →
  (2 * (count h0 - 1) < nmin → arraySize hc = nmin) → brk h0 ≤ brk hc →
  (∀ p, keep p → cells hc !! p = cells h0 !! p) →
  (∀ p, p < brk h0 → is_Some (cells hc !! p) → keep p) →
  rehash_alloc h0 nmin done keep hc.
Proof.
  intros (bsc & Hrep & Hmap & Hown & Htight) ? ? ? ? ? ? ? ?.
  split; [split; eauto| |done].
  intros bsc' p Hrep' Hp Ha. rewrite (rep_unique hc bsc' bsc Hrep' Hrep). by apply Htight.
Qed.

Lemma ra_keep h0 nmin done (keep : Z → Prop) hc :
  rehash_alloc h0 nmin done keep hc → ∀ p, keep p → cells hc !! p = cells h0 !! p.
Proof. intros [Hinv _ _]. apply (ri_keep _ _ _ _ _ Hinv). Qed.

Section Rehash.
Context (put : hashmap_t → Z → Z → result (Z * hashmap_t)) (P : hashmap_t → Prop).
Hypothesis Hput : put_ok_alloc P put.
Context (h0 : hashmap_t) (bs0 : list (list (Z * hash_entry_t))) (nmin : Z).
Hypothesis Hrep0 : rep h0 bs0.
Hypothesis HP : ∀ hc, count hc < count h0 → nmin ≤ arraySize hc →
    (2 * (count h0 - 1) < nmin → arraySize hc = nmin) → P hc.
Hypothesis Hnmin : 0 < nmin.

Lemma rehash_put done (keep : Z → Prop) hc p e :
    rehash_alloc h0 nmin done keep hc → (∀ q, keep q → q < brk h0) →
    (p, e) ∈ mjoin bs0 → key e ∉ keys_of done →
    (length done < length (mjoin bs0))%nat →
    ∃ h', put hc (key e) (val e) = Ok (0, h') ∧
          rehash_alloc h0 nmin (done ++ [(p, e)]) keep h'.
Proof.
  intros [[(bsc & Hrepc & Hmap & Hown) Hh Hc Hcnt Hsz Hex Hbrk Hkeep] Htight' Hlive]
    Hkb Hin Hnew Hlen.
  pose proof (λ p, Htight' bsc p Hrepc) as Htight.
  apply elem_of_join_lookup in Hin as (j & l & Hj & Hin).
  destruct (rep_keys _ _ Hrep0 j l p e Hj Hin) as (Hk & Hv & _).
  pose proof (rep_count _ _ Hrep0) as Hc0.
  pose proof (rep_count_max _ _ Hrep0) as Hmax0.
  assert (to_map bsc !! key e = None) as Hnone.
  { rewrite Hmap. by apply ltm_absent. }
  destruct (Hput hc bsc (key e) (val e) Hrepc) as
    (h' & bs' & Hp & Hrep' & Hmap' & Hh' & Hc' & Hsz' & Hex' & Hcnt' & Hbrk' & Hfr & Hown'
       & Hg');
    [apply HP; [lia|done|done]|done|done|right; lia|].
  rewrite Hnone in Hp, Hcnt'. exists h'. split; [done|]. apply rehash_alloc_intro.
  - exists bs'. split; [done|]. split; [|split].
    + rewrite Hmap', Hmap. symmetry. destruct e as [k v]. by apply ltm_append.
    + intros q Hq. destruct (Hown' q Hq) as [Hq'|Hq']; [by apply Hown|lia].
    + intros q Hq Ha. destruct (Hg' q Ha) as [?|[Ha' Hno]]; [done|].
      exfalso. apply Hno. by apply Htight.
  - congruence.
  - congruence.
  - rewrite length_app. simpl. lia.
  - lia.
  - intros Hlt. rewrite Hex'; [by apply Hex|].
    rewrite (Hex Hlt). unfold below_spaceratio.
    destruct (Z.ltb_spec 0 nmin); [|lia]. lia.
  - lia.
  - intros q Hq. rewrite Hfr; [by apply Hkeep|pose proof (Hkb q Hq); lia|].
    intros Ho. pose proof (Hown q Ho). pose proof (Hkb q Hq). lia.
  - intros q Hq Ha. destruct (Hg' q Ha) as [Ho|[Ha' _]]; [|by apply Hlive].
    destruct (Hown' q Ho) as [Ho'|?]; [|lia]. pose proof (Hown q Ho'). lia.
Qed.

Lemma rehash_free done (keep keep' : Z → Prop) hc p :
    rehash_alloc h0 nmin done keep hc → (∀ q, keep q → q < brk h0) →
    keep p → is_Some (cells h0 !! p) → (∀ q, keep' q ↔ keep q ∧ q ≠ p) →
    ∃ h', free hc p = Ok h' ∧ rehash_alloc h0 nmin done keep' h'.
Proof.
  intros [[(bsc & Hrepc & Hmap & Hown) Hh Hc Hcnt Hsz Hex Hbrk Hkeep] Htight' Hlive]
    Hkb Hp [nd Hnd] Hk'.
  pose proof (λ p, Htight' bsc p Hrepc) as Htight.
  assert (cells hc !! p = Some nd) as Hm by (by rewrite Hkeep).
  rewrite (free_eq _ _ _ Hm). eexists. split; [done|].
  assert (¬ owned hc bsc p) as Hno.
  { intros Ho. pose proof (Hown p Ho). pose proof (Hkb p Hp). lia. }
  apply rehash_alloc_intro; hsimpl; try done.
  - exists bsc. split; [by apply rep_free_outside|]. split; [done|]. split; [done|].
    intros q Hq Ha. apply Htight; [done|].
    destruct (decide (q = p)) as [->|Hne]; [by rewrite lookup_delete_eq in Ha|].
    by rewrite lookup_delete_ne in Ha.
  - intros q Hq. destruct (proj1 (Hk' q) Hq) as [Hq1 Hq2].
    rewrite lookup_delete_ne by done. by apply Hkeep.
  - intros q Hq Ha. apply Hk'.
    destruct (decide (q = p)) as [->|Hne].
    { rewrite lookup_delete_eq in Ha. by destruct Ha. }
    rewrite lookup_delete_ne in Ha by done. split; [by apply Hlive|done].
Qed.

Lemma rehash_chain_spec rest : ∀ fuel hc done (keep : Z → Prop) node,
    rehash_alloc h0 nmin done keep hc → (∀ q, keep q → q < brk h0) →
    chain (cells h0) node rest →
    (∀ x, x ∈ rest → x ∈ mjoin bs0) → (∀ q, q ∈ rest.*1 → keep q) →
    NoDup rest.*1 → NoDup (keys_of (done ++ rest)) →
    (length rest ≤ fuel)%nat →
    (length done + length rest ≤ length (mjoin bs0))%nat →
    ∃ h', rehash_chain put fuel hc node = Ok h' ∧
          rehash_alloc h0 nmin (done ++ rest) (λ q, keep q ∧ q ∉ rest.*1) h'.
Proof.
  induction rest as [|[q e] rest IH];
    intros fuel hc done keep node Hinv Hkb Hc Hsub Hkeep Hnd Hndk Hf Hlen.
  { simpl in Hc. subst node. exists hc. split; [by destruct fuel|].
    rewrite app_nil_r. eapply rehash_alloc_weaken; [done|].
    intros q. split; [by intros [? _]|]. intros ?. split; [done|]. apply not_elem_of_nil. }
  destruct fuel as [|fuel]; [simpl in Hf; lia|].
  simpl in Hc. destruct Hc as (-> & Hq & nx & Hm & Hc).
  simpl in Hnd. apply NoDup_cons in Hnd as [Hnq Hnd].
  cbn [rehash_chain]. destruct (Z.eqb_spec q 0) as [|_]; [done|].
  assert (keep q) as Hkq by (apply Hkeep; simpl; left).
  assert (cells hc !! q = Some (Node e nx)) as Hmc.
  { rewrite (ra_keep _ _ _ _ _ Hinv) by done. done. }
  rewrite (load_eq _ _ _ Hmc), Ok_bind. cbn [ety next].
  destruct (rehash_put done keep hc q e Hinv Hkb) as (h1 & -> & Hinv1).
  { apply Hsub. left. }
  { rewrite keys_of_app, keys_of_cons in Hndk.
    apply NoDup_app in Hndk as (_ & Hd & _). intros Hin. apply (Hd _ Hin). left. }
  { simpl in Hlen. lia. }
  rewrite Ok_bind.
  assert (cells h1 !! q = Some (Node e nx)) as Hm1.
  { rewrite (ra_keep _ _ _ _ _ Hinv1) by done. done. }
  rewrite (load_eq _ _ _ Hm1), Ok_bind. cbn [ety].
  destruct (rep_keys_in h0 bs0 q e Hrep0) as (Hke & _); [apply Hsub; left|].
  destruct (Z.eqb_spec (key e) 0) as [|_]; [done|].
  destruct (rehash_free (done ++ [(q, e)]) keep (λ x, keep x ∧ x ≠ q) h1 q Hinv1 Hkb Hkq)
    as (h2 & -> & Hinv2); [eauto|intros ?; reflexivity|].
  rewrite Ok_bind.
  destruct (IH fuel h2 (done ++ [(q, e)]) (λ x, keep x ∧ x ≠ q) nx Hinv2)
    as (h' & Hre & Hinv').
  { intros x [Hx _]. by apply Hkb. }
  { done. }
  { intros x Hx. apply Hsub. by right. }
  { intros x Hx. split; [apply Hkeep; simpl; by right|]. intros ->. done. }
  { done. }
  { by rewrite <-app_assoc. }
  { simpl in Hf. lia. }
  { rewrite length_app. simpl in *. lia. }
  exists h'. split; [done|]. rewrite <-app_assoc in Hinv'.
  eapply rehash_alloc_weaken; [exact Hinv'|]. intros x. simpl.
  rewrite not_elem_of_cons. tauto.
Qed.
End Rehash.

Section RehashSlots.
Context (put : hashmap_t → Z → Z → result (Z * hashmap_t)) (P : hashmap_t → Prop).
Hypothesis Hput : put_ok_alloc P put.
Context (h0 : hashmap_t) (bs0 : list (list (Z * hash_entry_t))) (nmin : Z).
Hypothesis Hrep0 : rep h0 bs0.
Hypothesis HP : ∀ hc, count hc < count h0 → nmin ≤ arraySize hc →
    (2 * (count h0 - 1) < nmin → arraySize hc = nmin) → P hc.
Hypothesis Hnmin : 0 < nmin.

Lemma keep_from_bound ii q : keep_from h0 bs0 ii q → q < brk h0.
Proof. by intros [? _]. Qed.

Lemma keep_from_mono ii ii' q :
    (ii ≤ ii')%nat → keep_from h0 bs0 ii' q → keep_from h0 bs0 ii q.
Proof.
  intros Hle [Hb [H|[H|(j & l & Hj & Hl & Hq)]]]; split; auto.
  right. right. exists j, l. split_and!; [lia|done..].
Qed.

Lemma keep_block ii (j : nat) l :
    bs0 !! j = Some l → keep_from h0 bs0 ii (array h0 + Z.of_nat j).
Proof.
  intros Hj. pose proof (rep_index h0 bs0 Hrep0 _ _ Hj).
  pose proof (rep_block_brk h0 bs0 Hrep0). split; [lia|]. right. left. lia.
Qed.

Lemma keep_tail ii (j : nat) l q :
    (ii ≤ j)%nat → bs0 !! j = Some l → q ∈ (tail l).*1 → keep_from h0 bs0 ii q.
Proof.
  intros Hle Hj Hq. split.
  - apply (rep_bucket_bound h0 bs0 j l q Hrep0 Hj).
    destruct l; [done|]. simpl in *. by right.
  - right. right. eauto.
Qed.

Lemma keep_not_tail ii l q :
    bs0 !! ii = Some l → keep_from h0 bs0 (S ii) q → q ∉ (tail l).*1.
Proof.
  intros Hl [Hb Hq] Hin.
  destruct l as [|[a e0] t]; [by apply elem_of_nil in Hin|]. simpl in Hin.
  assert (q ∈ ((a, e0) :: t).*1) as Hql by (simpl; by right).
  destruct Hq as [Hq|[Hq|(j & lj & Hj & Hlj & Hq)]].
  - apply Hq. by eapply owned_addr.
  - apply list_elem_of_fmap in Hin as ([q' e] & Heq & Hqe). simpl in Heq. subst q'.
    assert ((q, e) ∈ (a, e0) :: t) as Hqe' by by right.
    pose proof (rep_block _ _ Hrep0 ii _ q e Hl Hqe' Hq) as Hqa.
    pose proof (rep_bucket_nodup h0 bs0 ii _ Hrep0 Hl) as Hnd.
    pose proof (rep_slot _ _ Hrep0 _ _ Hl) as (Ha & _).
    simpl in Hnd. apply NoDup_cons in Hnd as [Hna _]. apply Hna.
    apply list_elem_of_fmap. exists (q, e). split; [simpl; congruence|done].
  - eapply (rep_disjoint h0 bs0 Hrep0 ii j _ lj q); [done|done|lia|done|].
    destruct lj; [done|]. simpl in *. by right.
Qed.

Lemma keep_from_S ii l q :
    bs0 !! ii = Some l →
    keep_from h0 bs0 (S ii) q ↔ keep_from h0 bs0 ii q ∧ q ∉ (tail l).*1.
Proof.
  intros Hl. split.
  - intros Hq. split; [eapply keep_from_mono; [|done]; lia|by eapply keep_not_tail].
  - intros [[Hb [H|[H|(j & lj & Hj & Hlj & Hq)]]] Hnt]; split; auto.
    right. right. exists j, lj. split_and!; [|done..].
    destruct (decide (j = ii)) as [->|]; [|lia].
    rewrite Hl in Hlj. injection Hlj as <-. done.
Qed.

Lemma keep_from_0 q : q < brk h0 → keep_from h0 bs0 0 q.
Proof.
  intros Hq. split; [done|].
  destruct (owned_dec h0 bs0 q) as [[Ho|Ho]|Hno]; [by right; left| |by left].
  apply list_elem_of_fmap in Ho as ([q' e] & -> & Hin).
  apply elem_of_join_lookup in Hin as (j & l & Hj & Hin).
  pose proof (rep_slot _ _ Hrep0 _ _ Hj) as Hs.
  destruct l as [|[a e0] t]; [by apply elem_of_nil in Hin|].
  destruct Hs as (Ha & _). pose proof (rep_index h0 bs0 Hrep0 _ _ Hj) as Hidx.
  apply elem_of_cons in Hin as [[= -> ->]|Hin].
  - right. left. simpl. lia.
  - right. right. exists j, ((a, e0) :: t). split_and!; [lia|done|].
    simpl. apply list_elem_of_fmap. by exists (q', e).
Qed.

Lemma rehash_slots_spec n : ∀ (ii : nat) hc,
    (ii + n)%nat = length bs0 →
    rehash_alloc h0 nmin (mjoin (take ii bs0)) (keep_from h0 bs0 ii) hc →
    ∃ h', rehash_slots put n hc (array h0) (Z.of_nat ii) = Ok h' ∧
          rehash_alloc h0 nmin (mjoin bs0) (keep_from h0 bs0 (length bs0)) h'.
Proof.
  induction n as [|n IH]; intros ii hc Hlen Hinv.
  { exists hc. split; [done|]. assert (ii = length bs0) as -> by lia.
    by rewrite take_ge in Hinv by lia. }
  destruct (lookup_lt_is_Some_2 bs0 ii) as [l Hl]; [lia|].
  pose proof (rep_slot _ _ Hrep0 _ _ Hl) as Hs.
  pose proof (keep_block ii ii l Hl) as Hka.
  cbn [rehash_slots].
  assert (mjoin (take (S ii) bs0) = mjoin (take ii bs0) ++ l) as Htake.
  { rewrite (take_S_r _ _ _ Hl), join_app. cbn [mjoin list_join]. by rewrite app_nil_r. }
  assert (mjoin bs0 = mjoin (take (S ii) bs0) ++ mjoin (drop (S ii) bs0)) as Hall.
  { by rewrite <-join_app, take_drop. }
  replace (Z.of_nat ii + 1) with (Z.of_nat (S ii)) by lia.
  destruct l as [|[a e] t].
  - destruct Hs as [v Hroot].
    assert (cells hc !! (array h0 + Z.of_nat ii) = Some (Node (Entry 0 v) 0)) as Hm.
    { by rewrite (ra_keep _ _ _ _ _ Hinv). }
    rewrite (load_eq _ _ _ Hm), Ok_bind. cbn [ety key Z.eqb].
    apply IH; [lia|]. rewrite Htake, app_nil_r.
    eapply rehash_alloc_weaken; [done|]. intros q. rewrite (keep_from_S ii [] q Hl).
    split; [by intros [? _]|]. intros ?. split; [done|]. apply not_elem_of_nil.
  - change (chain (cells h0) (array h0 + Z.of_nat ii) ((a, e) :: t)) in Hs.
    destruct Hs as (Ha & _ & nx & Hroot & Ht). subst a.
    set (a := array h0 + Z.of_nat ii) in *.
    set (done := mjoin (take ii bs0)) in *.
    pose proof (rep_keys_nodup_all h0 bs0 Hrep0) as Hndk.
    rewrite Hall, keys_of_app in Hndk. apply NoDup_app in Hndk as (Hndk & _ & _).
    rewrite Htake in Hndk.
    pose proof (rep_bucket_nodup h0 bs0 ii _ Hrep0 Hl) as Hndl.
    simpl in Hndl. apply NoDup_cons in Hndl as [Hna Hndt].
    assert (∀ x, x ∈ (a, e) :: t → x ∈ mjoin bs0) as Hsub.
    { intros x Hx. apply elem_of_join_lookup. eauto. }
    assert (length (mjoin bs0) = length done + S (length t) +
              length (mjoin (drop (S ii) bs0)))%nat as Hlens.
    { rewrite Hall, Htake, !length_app. simpl. lia. }
    assert (cells hc !! a = Some (Node e nx)) as Hm.
    { by rewrite (ra_keep _ _ _ _ _ Hinv). }
    rewrite (load_eq _ _ _ Hm), Ok_bind. cbn [ety].
    destruct (rep_keys_in h0 bs0 a e Hrep0) as (Hke & _); [apply Hsub; left|].
    destruct (Z.eqb_spec (key e) 0) as [|_]; [done|].
    destruct (rehash_put put P Hput h0 bs0 nmin Hrep0 HP Hnmin done _ hc a e Hinv)
      as (h1 & -> & Hinv1).
    { apply keep_from_bound. }
    { apply Hsub. left. }
    { rewrite keys_of_app, keys_of_cons in Hndk.
      apply NoDup_app in Hndk as (_ & Hd & _). intros Hin. apply (Hd _ Hin). left. }
    { lia. }
    rewrite Ok_bind.
    assert (cells h1 !! a = Some (Node e nx)) as Hm1.
    { by rewrite (ra_keep _ _ _ _ _ Hinv1). }
    rewrite (load_eq _ _ _ Hm1), Ok_bind. cbn [next].
    destruct (rehash_chain_spec put P Hput h0 bs0 nmin Hrep0 HP Hnmin t
                (chain_fuel h1) h1 (done ++ [(a, e)]) _ nx Hinv1)
      as (h2 & -> & Hinv2).
    { apply keep_from_bound. }
    { done. }
    { intros x Hx. apply Hsub. by right. }
    { intros q Hq. by apply (keep_tail ii ii _ q (le_n _) Hl). }
    { done. }
    { by rewrite <-app_assoc. }
    { rewrite chain_fuel_eq. apply Nat.le_le_succ_r.
      rewrite <-(length_fmap fst). apply nodup_alloc_size; [done|].
      intros q Hq. rewrite (ra_keep _ _ _ _ _ Hinv1).
      - apply list_elem_of_fmap in Hq as ([q' e'] & -> & Hqe).
        destruct (chain_alloc _ _ _ _ _ Ht Hqe) as (_ & nx' & Hnx'). simpl. eauto.
      - by apply (keep_tail ii ii _ q (le_n _) Hl). }
    { rewrite length_app. simpl. lia. }
    rewrite Ok_bind. apply IH; [lia|].
    rewrite Htake, <-app_assoc in *. simpl in Hinv2.
    eapply rehash_alloc_weaken; [exact Hinv2|]. intros q.
    by rewrite (keep_from_S ii _ q Hl).
Qed.

Lemma rehash_free_block done n : ∀ (ii : nat) hc (keep : Z → Prop),
    rehash_alloc h0 nmin done keep hc → (∀ q, keep q → q < brk h0) →
    (∀ j : nat, (ii ≤ j < ii + n)%nat →
       keep (array h0 + Z.of_nat j) ∧ is_Some (cells h0 !! (array h0 + Z.of_nat j))) →
    ∃ h', free_block n hc (array h0 + Z.of_nat ii) = Ok h' ∧
      rehash_alloc h0 nmin done
        (λ q, keep q ∧ ¬ (array h0 + Z.of_nat ii ≤ q < array h0 + Z.of_nat ii + Z.of_nat n)) h'.
Proof.
  induction n as [|n IH]; intros ii hc keep Hinv Hkb Hblock.
  { exists hc. split; [done|]. eapply rehash_alloc_weaken; [done|].
    intros q. split; [by intros [? _]|]. intros ?. split; [done|lia]. }
  cbn [free_block].
  destruct (Hblock ii) as [Hk Ha]; [lia|].
  destruct (rehash_free h0 nmin done keep
              (λ q, keep q ∧ q ≠ array h0 + Z.of_nat ii) hc _ Hinv Hkb Hk Ha)
    as (h1 & -> & Hinv1); [intros ?; reflexivity|].
  rewrite Ok_bind.
  replace (array h0 + Z.of_nat ii + 1) with (array h0 + Z.of_nat (S ii)) by lia.
  destruct (IH (S ii) h1 _ Hinv1) as (h' & -> & Hinv').
  { intros q [Hq _]. by apply Hkb. }
  { intros j Hj. destruct (Hblock j) as [? ?]; [lia|]. split; [|done]. split; [done|lia]. }
  exists h'. split; [done|]. eapply rehash_alloc_weaken; [exact Hinv'|].
  intros q. split.
  - intros [Hq Hnq]. split; [split; [done|lia]|lia].
  - intros [[Hq Hne] Hnq]. split; [done|lia].
Qed.

Lemma increase_capacity_with_spec factor :
    1 ≤ factor → nmin = arraySize h0 * factor → nmin < 2 ^ 32 →
    ∃ h' bs', increase_capacity_with put h0 factor = Ok h' ∧ rep h' bs' ∧
      to_map bs' = to_map bs0 ∧ count h' = count h0 ∧
      hash h' = hash h0 ∧ compare h' = compare h0 ∧
      nmin ≤ arraySize h' ∧ (2 * (count h0 - 1) < nmin → arraySize h' = nmin) ∧
      brk h0 ≤ brk h' ∧
      (∀ p, p < brk h0 → ¬ owned h0 bs0 p → cells h' !! p = cells h0 !! p) ∧
      (∀ p, owned h' bs' p → brk h0 ≤ p) ∧
      no_new_garbage h0 bs0 h' bs'.
Proof.
  intros Hf Hn Hfit.
  pose proof (rep_size _ _ Hrep0) as HN.
  pose proof (rep_size_pos _ _ Hrep0) as HNpos.
  pose proof (rep_block_brk h0 bs0 Hrep0) as Hbb.
  pose proof (rep_array _ _ Hrep0) as Harr.
  unfold increase_capacity_with, __allocnodes. hsimpl. rewrite <-Hn.
  replace (to_uint nmin) with nmin by (unfold to_uint; rewrite Z.mod_small; lia).
  set (h3 := with_count 0 _).
  assert (rehash_alloc h0 nmin (mjoin (take 0 bs0)) (keep_from h0 bs0 0) h3) as Hinv3.
  { subst h3. hsimpl. apply rehash_alloc_intro; hsimpl; try done.
    - exists (replicate (Z.to_nat nmin) []). split_and!.
      + unfold with_count, with_array, with_brk, with_cells, with_arraySize. hsimpl.
        apply fresh_table_rep; [done|lia|apply (rep_brk _ _ Hrep0)|apply (rep_cmp _ _ Hrep0)].
      + by rewrite to_map_replicate_nil.
      + intros p [Hp|Hp]; hsimpl; [lia|].
        rewrite join_replicate_nil in Hp. by apply elem_of_nil in Hp.
      + intros p Hp Ha. left. hsimpl. rewrite lookup_zero_fill in Ha.
        case_decide; [lia|]. pose proof (rep_brk _ _ Hrep0 _ Ha). lia.
    - lia.
    - intros q [Hq _]. rewrite lookup_zero_fill. case_decide; [lia|done].
    - intros q Hq _. by apply keep_from_0. }
  destruct (rehash_slots_spec (Z.to_nat (arraySize h0)) 0 h3) as (h4 & Hrs & Hinv4).
  { lia. }
  { done. }
  change (Z.of_nat 0) with 0 in Hrs. rewrite Hrs, Ok_bind.
  destruct (rehash_free_block (mjoin bs0) (Z.to_nat (arraySize h0)) 0 h4 _ Hinv4)
    as (h5 & Hfb & Hinv5).
  { apply keep_from_bound. }
  { intros j Hj. destruct (lookup_lt_is_Some_2 bs0 j) as [l Hl]; [lia|].
    split; [by eapply keep_block|]. apply (rep_block_alloc h0 bs0 Hrep0). lia. }
  change (Z.of_nat 0) with 0 in Hfb. rewrite Z.add_0_r in Hfb. rewrite Hfb.
  destruct Hinv5 as [[(bs5 & Hrep5 & Hmap5 & Hown5) Hh5 Hc5 Hcnt5 Hsz5 Hex5 Hbrk5 Hkeep5]
                       Htight5' Hlive5].
  pose proof (λ p, Htight5' bs5 p Hrep5) as Htight5.
  exists h5, bs5. split_and!; try done.
  - rewrite Hcnt5. symmetry. apply (rep_count _ _ Hrep0).
  - intros p Hp Hno. apply Hkeep5. split.
    + split; [done|]. by left.
    + intros Hb. apply Hno. left. lia.
  - intros p Ha. destruct (decide (brk h0 ≤ p)) as [Hge|Hlt]; [left; by apply Htight5|].
    right. pose proof (Hlive5 p ltac:(lia) Ha) as Hk.
    rewrite (Hkeep5 p Hk) in Ha. split; [done|].
    destruct Hk as [[_ [Hno|[Harr'|(j & l & Hj & Hl & _)]]] Hnarr]; [done|lia|].
    apply lookup_lt_Some in Hl. lia.
Qed.
End RehashSlots.

(** ** Put with growth *)

Lemma put_with_core put h k v :
  k ≠ 0 → v ≠ 0 →
  put_with put h k v = h1 ← ensurecapacity_with put h; put_core h1 k v.
Proof.
  intros Hk Hv. unfold put_with.
  destruct (Z.eqb_spec k 0) as [|_]; [done|].
  destruct (Z.eqb_spec v 0) as [|_]; [done|]. done.
Qed.

Lemma below_spaceratio_lt c n :
  0 < n → below_spaceratio c n = true ↔ 2 * c < n.
Proof.
  intros Hn. unfold below_spaceratio.
  destruct (Z.ltb_spec 0 n) as [_|]; [|lia]. apply Z.ltb_lt.
Qed.

Lemma rep_count_nonneg h bs : rep h bs → 0 ≤ count h.
Proof. intros Hrep. rewrite (rep_count _ _ Hrep). lia. Qed.

(** The array that [__ensurecapacity] doubles is short: the count is
    below 32768 and the load is not below the ratio. *)
Lemma doubling_fits h bs :
  rep h bs → below_spaceratio (count h) (arraySize h) = false →
  arraySize h * 2 < 2 ^ 17.
Proof.
  intros Hrep Hbelow.
  pose proof (rep_size_pos _ _ Hrep) as Hpos.
  pose proof (rep_count_max _ _ Hrep) as Hmax.
  destruct (decide (2 * count h < arraySize h)) as [Hlt|Hge].
  - apply (below_spaceratio_lt _ _ Hpos) in Hlt. congruence.
  - lia.
Qed.

(** While the load is below the ratio, [hashmap_put] does not grow the
    map, whatever it would call to grow it. *)
Lemma put_with_below put :
  put_ok_alloc (λ h, below_spaceratio (count h) (arraySize h) = true) (put_with put).
Proof.
  intros h bs k v Hrep Hbelow Hk Hv Hroom.
  rewrite put_with_core by done. unfold ensurecapacity_with. rewrite Hbelow, Ok_bind.
  pose proof (rep_size_pos _ _ Hrep) as Hpos.
  pose proof (rep_count_nonneg _ _ Hrep) as Hc0.
  apply below_spaceratio_lt in Hbelow; [|done].
  destruct (put_core_alloc h bs k v Hrep Hk Hv) as
    (h' & bs' & Hp & Hrep' & Hmap & (HN & Ha & Hh & Hc) & Hcnt & Hbrk & Hfr & Hown & _
       & Hg).
  { destruct Hroom as [?|?]; [by left|right; lia]. }
  exists h', bs'. split_and!; try done; lia.
Qed.

(** One level of growth below the call. *)
Lemma put_with_grow put :
  put_ok_alloc (λ h, below_spaceratio (count h) (arraySize h) = true) put →
  put_ok_alloc (λ _, True) (put_with put).
Proof.
  intros Hput h bs k v Hrep _ Hk Hv Hroom.
  destruct (decide (below_spaceratio (count h) (arraySize h) = true)) as [Hbelow|Hbelow].
  { by apply put_with_below. }
  apply not_true_is_false in Hbelow.
  rewrite put_with_core by done. unfold ensurecapacity_with. rewrite Hbelow.
  pose proof (rep_size_pos _ _ Hrep) as Hpos.
  pose proof (rep_count_nonneg _ _ Hrep) as Hc0.
  pose proof (rep_load _ _ Hrep) as Hload.
  pose proof (rep_count_max _ _ Hrep) as Hmax.
  assert (∀ hc, count hc < count h → arraySize h * 2 ≤ arraySize hc →
            (2 * (count h - 1) < arraySize h * 2 → arraySize hc = arraySize h * 2) →
            below_spaceratio (count hc) (arraySize hc) = true) as HP.
  { intros hc Hlt Hsz Hex. apply below_spaceratio_lt; [lia|]. rewrite Hex; lia. }
  assert (arraySize h * 2 < 2 ^ 32) as Hfit
    by (pose proof (doubling_fits h bs Hrep Hbelow); lia).
  destruct (increase_capacity_with_spec put _ Hput h bs (arraySize h * 2) Hrep HP
              ltac:(lia) 2 ltac:(lia) eq_refl Hfit)
    as (h1 & bs1 & -> & Hrep1 & Hmap1 & Hcnt1 & Hh1 & Hc1 & Hsz1 & Hex1 & Hbrk1 & Hfr1 & Hown1
          & Hg1).
  rewrite Ok_bind. rewrite Hex1 in * by lia.
  destruct (put_core_alloc h1 bs1 k v Hrep1 Hk Hv) as
    (h' & bs' & Hp & Hrep' & Hmap & (HN & Ha & Hh & Hc) & Hcnt & Hbrk & Hfr & Hown & _
       & Hg).
  { rewrite Hmap1. destruct Hroom as [?|?]; [by left|right; lia]. }
  rewrite Hmap1 in *. exists h', bs'. split_and!; try done; try congruence; try lia.
  - by rewrite Hcnt, Hcnt1.
  - intros p Hp1 Hno. rewrite Hfr; [by apply Hfr1|lia|].
    intros Ho. pose proof (Hown1 p Ho). lia.
  - intros p Ho. right. destruct (Hown p Ho) as [Ho1|?]; [|lia]. by apply Hown1.
  - by eapply no_new_garbage_trans.
Qed.

(** Two levels of recursion are all [hashmap_put] needs. *)
Lemma hashmap_put_ok_alloc d : put_ok_alloc (λ _, True) (hashmap_put (S (S d))).
Proof.
  change (hashmap_put (S (S d))) with (put_with (put_with (hashmap_put d))).
  apply put_with_grow, put_with_below.
Qed.

Lemma put_ok_alloc_ok P put : put_ok_alloc P put → put_ok P put.
Proof.
  intros Hput h bs k v Hrep HP Hk Hv Hroom.
  destruct (Hput h bs k v Hrep HP Hk Hv Hroom)
    as (h' & bs' & H1 & H2 & H3 & H4 & H5 & H6 & H7 & H8 & H9 & H10 & H11 & _).
  by exists h', bs'.
Qed.

Lemma hashmap_put_ok d : put_ok (λ _, True) (hashmap_put (S (S d))).
Proof. apply put_ok_alloc_ok, hashmap_put_ok_alloc. Qed.

Lemma hashmap_put_spec d h bs k v :
  (2 ≤ d)%nat → rep h bs → k ≠ 0 → v ≠ 0 →
  (is_Some (to_map bs !! k) ∨ count h + 1 < 32768) →
  ∃ h' bs', hashmap_put d h k v = Ok (default 0 (to_map bs !! k), h') ∧
    rep h' bs' ∧ to_map bs' = <[k := v]> (to_map bs) ∧
    hash h' = hash h ∧ compare h' = compare h ∧
    arraySize h' =
      (if below_spaceratio (count h) (arraySize h) then arraySize h
       else 2 * arraySize h) ∧
    count h' = match to_map bs !! k with Some _ => count h | None => count h + 1 end.
Proof.
  intros Hd Hrep Hk Hv Hroom.
  destruct d as [|[|d]]; [lia|lia|].
  destruct (decide (below_spaceratio (count h) (arraySize h) = true)) as [Hbelow|Hbelow].
  - destruct (hashmap_put_ok d h bs k v Hrep I Hk Hv Hroom) as
      (h' & bs' & Hp & Hrep' & Hmap & Hh & Hc & Hsz & Hex & Hcnt & _).
    exists h', bs'. rewrite Hbelow. split_and!; try done. by apply Hex.
  - apply not_true_is_false in Hbelow.
    (* the map grows once, and the load is then below the ratio *)
    change (hashmap_put (S (S d))) with (put_with (put_with (hashmap_put d))).
    rewrite put_with_core by done. unfold ensurecapacity_with. rewrite Hbelow.
    pose proof (rep_size_pos _ _ Hrep) as Hpos.
    pose proof (rep_count_nonneg _ _ Hrep) as Hc0.
    pose proof (rep_load _ _ Hrep) as Hload.
    pose proof (rep_count_max _ _ Hrep) as Hmax.
    assert (∀ hc, count hc < count h → arraySize h * 2 ≤ arraySize hc →
              (2 * (count h - 1) < arraySize h * 2 → arraySize hc = arraySize h * 2) →
              below_spaceratio (count hc) (arraySize hc) = true) as HP.
    { intros hc Hlt Hsz Hex. apply below_spaceratio_lt; [lia|]. rewrite Hex; lia. }
    assert (arraySize h * 2 < 2 ^ 32) as Hfit
      by (pose proof (doubling_fits h bs Hrep Hbelow); lia).
    destruct (increase_capacity_with_spec _ _ (put_with_below (hashmap_put d))
                h bs (arraySize h * 2) Hrep HP ltac:(lia) 2 ltac:(lia) eq_refl Hfit)
      as (h1 & bs1 & -> & Hrep1 & Hmap1 & Hcnt1 & Hh1 & Hc1 & Hsz1 & Hex1 & Hbrk1 & _).
    rewrite Ok_bind. rewrite Hex1 in * by lia.
    destruct (put_core_spec h1 bs1 k v Hrep1 Hk Hv) as
      (h' & bs' & Hp & Hrep' & Hmap & (HN & Ha & Hh & Hc) & Hcnt & _).
    { rewrite Hmap1. destruct Hroom as [?|?]; [by left|right; lia]. }
    rewrite Hmap1 in *. exists h', bs'. split_and!; try done; try congruence; try lia.
    by rewrite Hcnt, Hcnt1.
Qed.

Lemma hashmap_increase_capacity_spec d h bs factor :
  (2 ≤ d)%nat → rep h bs → 1 ≤ factor → arraySize h * factor < 2 ^ 32 →
  ∃ h' bs', hashmap_increase_capacity d h factor = Ok h' ∧ rep h' bs' ∧
    to_map bs' = to_map bs ∧ count h' = count h ∧
    hash h' = hash h ∧ compare h' = compare h ∧
    arraySize h * factor ≤ arraySize h'.
Proof.
  intros Hd Hrep Hf Hfit. destruct d as [|[|d]]; [lia|lia|].
  pose proof (rep_size_pos _ _ Hrep) as Hpos.
  destruct (increase_capacity_with_spec _ _ (hashmap_put_ok_alloc d)
              h bs (arraySize h * factor) Hrep ltac:(done) ltac:(lia) factor Hf eq_refl Hfit)
    as (h1 & bs1 & Hg & Hrep1 & Hmap1 & Hcnt1 & Hh1 & Hc1 & Hsz1 & _).
  exists h1, bs1. done.
Qed.

Lemma ensurecapacity_spec d h bs :
  (2 ≤ d)%nat → rep h bs →
  ∃ h' bs', __ensurecapacity d h = Ok h' ∧ rep h' bs' ∧
    to_map bs' = to_map bs ∧ count h' = count h ∧
    hash h' = hash h ∧ compare h' = compare h ∧
    arraySize h ≤ arraySize h'.
Proof.
  intros Hd Hrep. unfold __ensurecapacity, ensurecapacity_with.
  destruct (below_spaceratio (count h) (arraySize h)) eqn:Hbelow.
  - exists h, bs. done.
  - pose proof (doubling_fits h bs Hrep Hbelow) as Hfit.
    destruct (hashmap_increase_capacity_spec d h bs 2 Hd Hrep)
      as (h' & bs' & Hg & Hrep' & ? & ? & ? & ? & ?); [lia|lia|].
    pose proof (rep_size_pos _ _ Hrep).
    exists h', bs'. split_and!; try done. lia.
Qed.

(** ** Well-formed maps, seen through the interface *)


Lemma to_map_val h bs k v : rep h bs → to_map bs !! k = Some v → v ≠ 0.
Proof.
  intros Hrep Hv. unfold to_map in Hv. apply elem_of_list_to_map_2 in Hv.
  unfold kv in Hv. apply list_elem_of_fmap in Hv as ([p e] & [= -> ->] & Hin).
  by destruct (rep_keys_in h bs p e Hrep Hin).
Qed.

Lemma get_present h bs k v :
  rep h bs → v ≠ 0 → hashmap_get h k = Ok v ↔ to_map bs !! k = Some v.
Proof.
  intros Hrep Hv. rewrite (hashmap_get_spec h bs k Hrep). split.
  - destruct (to_map bs !! k); simpl; congruence.
  - by intros ->.
Qed.


Lemma put_all_spec d es : ∀ h bs,
  (2 ≤ d)%nat → rep h bs →
  NoDup (key <$> es) →
  (∀ e, e ∈ es → key e ≠ 0 ∧ val e ≠ 0 ∧ to_map bs !! key e = None) →
  count h + Z.of_nat (length es) < 32768 →
  ∃ h' bs', put_all d h es = Ok h' ∧ rep h' bs' ∧
    hash h' = hash h ∧ compare h' = compare h ∧
    count h' = count h + Z.of_nat (length es) ∧
    (∀ k, is_Some (to_map bs' !! k) ↔ k ∈ key <$> es ∨ is_Some (to_map bs !! k)) ∧
    (∀ e, e ∈ es → to_map bs' !! key e = Some (val e)) ∧
    (∀ k, k ∉ key <$> es → to_map bs' !! k = to_map bs !! k).
Proof.
  induction es as [|e es IH]; intros h bs Hd Hrep Hnd Hes Hcnt.
  { exists h, bs. simpl. split_and!; try done; [lia| |].
    - intros k. split; [auto|]. intros [Hk|?]; [|done]. by apply elem_of_nil in Hk.
    - intros e He. by apply elem_of_nil in He. }
  rewrite fmap_cons in Hnd. apply NoDup_cons in Hnd as [Hne Hnd].
  destruct (Hes e) as (Hk & Hv & Hnone); [by left|].
  destruct (hashmap_put_spec d h bs (key e) (val e) Hd Hrep Hk Hv) as
    (h1 & bs1 & Hp & Hrep1 & Hmap1 & Hh1 & Hc1 & _ & Hcnt1).
  { right. simpl in Hcnt. lia. }
  rewrite Hnone in Hp, Hcnt1. simpl in Hp.
  destruct (IH h1 bs1 Hd Hrep1 Hnd) as
    (h' & bs' & Hpa & Hrep' & Hh' & Hc' & Hcnt' & Hdom & Hval & Hoth).
  { intros e' He'. destruct (Hes e') as (? & ? & ?); [by right|].
    split_and!; [done..|]. rewrite Hmap1, lookup_insert_ne; [done|].
    intros Heq. apply Hne. rewrite Heq. apply list_elem_of_fmap. eauto. }
  { simpl in Hcnt. lia. }
  exists h', bs'. cbn [put_all]. unfold hashmap_put_entry. rewrite Hp, !Ok_bind.
  split_and!; try done; try congruence.
  - simpl. lia.
  - intros k. rewrite Hdom, Hmap1, fmap_cons, elem_of_cons.
    destruct (decide (k = key e)) as [->|Hne'].
    + rewrite lookup_insert_eq. split; [auto|eauto].
    + rewrite lookup_insert_ne by done. naive_solver.
  - intros e' He'. apply elem_of_cons in He' as [->|He']; [|by apply Hval].
    rewrite Hoth by done. rewrite Hmap1. by rewrite lookup_insert_eq.
  - intros k Hk'. rewrite fmap_cons in Hk'. apply not_elem_of_cons in Hk' as [? ?].
    rewrite Hoth by done. rewrite Hmap1. by rewrite lookup_insert_ne.
Qed.

Lemma keys_perm h bs h' bs' :
  rep h bs → rep h' bs' → to_map bs' = to_map bs →
  keys_of (mjoin bs') ≡ₚ keys_of (mjoin bs).
Proof.
  intros Hrep Hrep' Hmap. apply NoDup_Permutation.
  - by apply (rep_keys_nodup_all h').
  - by apply (rep_keys_nodup_all h).
  - intros k. rewrite (to_map_dom h' bs' k Hrep'), (to_map_dom h bs k Hrep).
    by rewrite Hmap.
Qed.

Lemma sub_cmp : ∀ x y : Z, x - y = 0 ↔ x = y.
Proof. intros. lia. Qed.

Lemma put_all_new_wf d hashf cmp n es h :
  (2 ≤ d)%nat → (∀ x y, cmp x y = 0 ↔ x = y) → 0 < n →
  NoDup (key <$> es) → (∀ e, e ∈ es → key e ≠ 0 ∧ val e ≠ 0) →
  Z.of_nat (length es) < 32768 →
  put_all d (hashmap_new hashf cmp n) es = Ok h → wf h.
Proof.
  intros Hd Hcmp Hn Hnd Hes Hlen Hput.
  destruct (put_all_spec d es _ _ Hd (hashmap_new_rep hashf cmp n Hn Hcmp) Hnd)
    as (h' & bs' & Hp & Hrep' & _).
  - intros e He. destruct (Hes e He). split_and!; [done..|].
    by rewrite to_map_replicate_nil, lookup_empty.
  - change (count (hashmap_new hashf cmp n)) with 0. lia.
  - rewrite Hput in Hp. injection Hp as ->. by exists bs'.
Qed.

Ltac entries_ok :=
  match goal with
  | |- NoDup _ => repeat (apply NoDup_cons; split; [set_solver|]); apply NoDup_nil_2
  | |- ∀ e, e ∈ _ → _ =>
      let e := fresh in let He := fresh in
      intros e He; repeat (apply elem_of_cons in He as [->|He]; [done|]);
      by apply elem_of_nil in He
  end.

Ltac sample_wf n es :=
  eapply (put_all_new_wf 2 (λ k, k) Z.sub n es);
    [lia | apply sub_cmp | lia | entries_ok | entries_ok | simpl; lia
    | vm_compute; reflexivity].

Lemma chain_of_three_wf : wf chain_of_three.
Proof. sample_wf 8 [Entry 1 101; Entry 9 102; Entry 17 103]. Qed.

Lemma chain_of_two_wf : wf chain_of_two.
Proof. sample_wf 8 [Entry 1 101; Entry 9 102]. Qed.

Lemma two_of_four_wf : wf two_of_four.
Proof. sample_wf 4 [Entry 1 101; Entry 5 102]. Qed.

(** ** The ceiling on the count *)

Lemma put_chain_full h k v l :
  (∀ a b, compare h a b = 0 ↔ a = b) → k ∉ keys_of l → l ≠ [] → NoDup l.*1 →
  cells h !! brk h = None → 32768 ≤ count h + 1 →
  ∀ fuel p, chain (cells h) p l → (length l ≤ fuel)%nat →
  put_chain fuel h p k v = Fault AssertFailed.
Proof.
  intros Hcmp Hk Hnil Hnd Hfresh Hcnt.
  induction l as [|[q e] l IH]; [done|]. intros fuel p Hc Hf.
  apply NoDup_cons in Hnd as [Hnq Hnd].
  destruct fuel as [|fuel]; [simpl in Hf; lia|].
  simpl in Hc. destruct Hc as (-> & Hq & nx & Hm & Hc).
  rewrite keys_of_cons in Hk. apply not_elem_of_cons in Hk as [Hk1 Hk].
  simpl. rewrite (load_eq _ _ _ Hm), Ok_bind. simpl.
  destruct (Z.eqb_spec (compare h k (key e)) 0) as [Heq|_].
  { apply (proj1 (Hcmp _ _)) in Heq. done. }
  assert (q ≠ brk h) as Hqb by (intros ->; by rewrite Hfresh in Hm).
  destruct l as [|x l].
  - simpl in Hc. subst nx. simpl.
    unfold store at 1. simpl. rewrite lookup_insert_ne, Hm by done.
    rewrite Ok_bind. unfold __nodeassign, load. simpl.
    rewrite lookup_insert_ne, lookup_insert_eq by done. simpl.
    destruct (Z.ltb_spec (count h + 1) 32768); [lia|done].
  - assert (nx ≠ 0) as Hnx by (by eapply chain_nonnil_ptr).
    destruct (Z.eqb_spec nx 0); [done|]. simpl.
    apply IH; [done|done|done|done|simpl in *; lia].
Qed.

Lemma put_core_full h bs k v :
  rep h bs → k ≠ 0 → v ≠ 0 → to_map bs !! k = None → 32768 ≤ count h + 1 →
  put_core h k v = Fault AssertFailed.
Proof.
  intros Hrep Hk Hv Hnone Hfull.
  pose proof (rep_size_pos _ _ Hrep) as Hpos.
  pose proof (Z.mod_pos_bound (hash h k) (arraySize h) Hpos) as Hb.
  destruct (rep_probe h bs Hrep k) as [l Hl].
  set (i := Z.to_nat (hash h k `mod` arraySize h)) in *.
  assert (hash h k `mod` arraySize h = Z.of_nat i) as Hi by (unfold i; lia).
  pose proof (rep_slot _ _ Hrep _ _ Hl) as Hs.
  rewrite (to_map_bucket h bs Hrep i l k Hl Hi) in Hnone.
  unfold put_core, __doProbe.
  destruct (Z.eqb_spec (arraySize h) 0) as [|_]; [lia|]. rewrite Ok_bind, Hi.
  destruct l as [|[q0 e0] l0].
  - destruct Hs as [v' Hroot].
    rewrite (load_eq _ _ _ Hroot), Ok_bind. simpl.
    unfold __nodeassign. rewrite (load_eq _ _ _ Hroot), Ok_bind. simpl.
    destruct (Z.ltb_spec (count h + 1) 32768) as [Hlt|_]; [|done].
    clear -Hlt Hfull. lia.
  - change (chain (cells h) (array h + Z.of_nat i) ((q0, e0) :: l0)) in Hs.
    pose proof Hs as (_ & _ & nx0 & Hroot & _).
    rewrite (load_eq _ _ _ Hroot), Ok_bind. simpl.
    destruct (rep_keys _ _ Hrep i _ q0 e0 Hl ltac:(left)) as (Hke & _).
    destruct (Z.eqb_spec (key e0) 0) as [|_]; [done|].
    apply (put_chain_full h k v ((q0, e0) :: l0)).
    + apply (rep_cmp _ _ Hrep).
    + intros Hin. destruct (keys_split _ k Hin) as (l1 & q & [k0 v0] & l2 & Heq & Hk0 & Hn1).
      simpl in Hk0. subst k0. rewrite Heq, ltm_present in Hnone by done. done.
    + done.
    + by apply (rep_bucket_nodup h bs i).
    + destruct (cells h !! brk h) eqn:E; [|done].
      pose proof (rep_brk _ _ Hrep _ (mk_is_Some _ _ E)). lia.
    + done.
    + exact Hs.
    + pose proof (rep_fuel h bs Hrep _ _ Hl) as Hfuel. simpl in Hfuel |- *. lia.
Qed.

(** At 32767 entries [hashmap_put] of a new key stops on the assertion of
    [__nodeassign], with or without a growth before it. *)
Lemma hashmap_put_full d h bs k v :
  (2 ≤ d)%nat → rep h bs → k ≠ 0 → v ≠ 0 →
  to_map bs !! k = None → 32768 ≤ count h + 1 →
  hashmap_put d h k v = Fault AssertFailed.
Proof.
  intros Hd Hrep Hk Hv Hnone Hfull. destruct d as [|[|d]]; [lia|lia|].
  change (hashmap_put (S (S d))) with (put_with (put_with (hashmap_put d))).
  rewrite put_with_core by done. unfold ensurecapacity_with.
  destruct (below_spaceratio (count h) (arraySize h)) eqn:Hbelow.
  { rewrite Ok_bind. by apply (put_core_full h bs). }
  pose proof (rep_size_pos _ _ Hrep) as Hpos.
  pose proof (rep_load _ _ Hrep) as Hload.
  assert (∀ hc, count hc < count h → arraySize h * 2 ≤ arraySize hc →
            (2 * (count h - 1) < arraySize h * 2 → arraySize hc = arraySize h * 2) →
            below_spaceratio (count hc) (arraySize hc) = true) as HP.
  { intros hc Hlt Hsz Hex. apply below_spaceratio_lt; [lia|]. rewrite Hex; lia. }
  assert (arraySize h * 2 < 2 ^ 32) as Hfit
    by (pose proof (doubling_fits h bs Hrep Hbelow); lia).
  destruct (increase_capacity_with_spec _ _ (put_with_below (hashmap_put d))
              h bs (arraySize h * 2) Hrep HP ltac:(lia) 2 ltac:(lia) eq_refl Hfit)
    as (h1 & bs1 & -> & Hrep1 & Hmap1 & Hcnt1 & _).
  rewrite Ok_bind. apply (put_core_full h1 bs1); [done|done|done| |lia].
  by rewrite Hmap1.
Qed.

(** ** Well-formedness is kept by every operation *)



(** * The claims *)

(** C1 (the code departs from the claim).  Three keys share a slot; the
    first [Next] returns the key of the array node and leaves the cursor
    on the first chain node; removing that key moves the first chain
    node's entry into the array and frees the node; the slot still has a
    chain, so the next [Next] takes the cursor for valid and reads the
    freed node. *)
Theorem next_after_removing_current_reads_freed_node :
  wf chain_of_three ∧
  ∃ it h1,
    hashmap_iterator_next chain_of_three (hashmap_iterator chain_of_three) = Ok (1, it) ∧
    hashmap_remove chain_of_three 1 = Ok (101, h1) ∧
    hashmap_iterator_next h1 it = Fault InvalidAccess.
Proof.
  split; [apply chain_of_three_wf|].
  eexists _, _. split; [vm_compute; reflexivity|].
  split; vm_compute; reflexivity.
Qed.

(** C2 (the code departs from the claim).  Two keys share a slot; after
    the first [Next] returned key 1, key 9, not yet visited, is removed:
    the rest of the iteration returns key 1 a second time.  With three
    keys in the slot, removing the visited key 1 makes the rest of the
    iteration read a freed node. *)
Theorem removing_unvisited_key_repeats_visited_key :
  (wf chain_of_two ∧
   ∃ it h1,
     hashmap_iterator_next chain_of_two (hashmap_iterator chain_of_two) = Ok (1, it) ∧
     hashmap_remove chain_of_two 9 = Ok (102, h1) ∧
     drain 8 h1 it = Ok [1]) ∧
  (wf chain_of_three ∧
   ∃ it h1,
     hashmap_iterator_next chain_of_three (hashmap_iterator chain_of_three) = Ok (1, it) ∧
     hashmap_remove chain_of_three 1 = Ok (101, h1) ∧
     drain 8 h1 it = Fault InvalidAccess).
Proof.
  split.
  - split; [apply chain_of_two_wf|].
    eexists _, _. split; [vm_compute; reflexivity|].
    split; vm_compute; reflexivity.
  - split; [apply chain_of_three_wf|].
    eexists _, _. split; [vm_compute; reflexivity|].
    split; vm_compute; reflexivity.
Qed.

(** C3, as stated, fails: with hash [k ↦ k] and keys 1, 2, 3 in a map of
    initial size 4, the array already has 8 slots after the third [Put]
    (the load before it is 2/4, which is not below 0.5), and the fourth
    [Put] does not grow it. *)
Lemma third_put_already_grows :
  ∃ h3 h4,
    put_all 2 (hashmap_new (λ k, k) Z.sub 4) [Entry 1 101; Entry 2 102; Entry 3 103]
      = Ok h3 ∧
    hashmap_size h3 = 8 ∧ hashmap_size h3 ≠ 4 ∧
    hashmap_put 2 h3 4 104 = Ok (0, h4) ∧ hashmap_size h4 = hashmap_size h3.
Proof.
  eexists _, _. split; [vm_compute; reflexivity|].
  split; [vm_compute; reflexivity|].
  split; [vm_compute; discriminate|].
  split; vm_compute; reflexivity.
Qed.

(** C3, amended.  With an initial array size of 4 and four distinct
    non-null keys with non-null values: the array still has 4 slots
    after the first and the second [Put]; the third [Put] finds the load
    at 2/4 and grows the array to 8 slots before it inserts; the fourth
    [Put] leaves the size at 8; and [Get] returns the value of every key
    put so far, after the third and after the fourth [Put]. *)
Theorem growth_at_half_load d hashf cmp k1 k2 k3 k4 v1 v2 v3 v4 :
  (2 ≤ d)%nat → (∀ x y, cmp x y = 0 ↔ x = y) →
  NoDup [k1; k2; k3; k4] →
  Forall (λ x, x ≠ 0) [k1; k2; k3; k4; v1; v2; v3; v4] →
  ∃ h1 h2 h3 h4,
    hashmap_put d (hashmap_new hashf cmp 4) k1 v1 = Ok (0, h1) ∧ hashmap_size h1 = 4 ∧
    hashmap_put d h1 k2 v2 = Ok (0, h2) ∧ hashmap_size h2 = 4 ∧
    hashmap_put d h2 k3 v3 = Ok (0, h3) ∧ hashmap_size h3 = 8 ∧
    hashmap_put d h3 k4 v4 = Ok (0, h4) ∧ hashmap_size h4 = 8 ∧
    hashmap_get h3 k1 = Ok v1 ∧ hashmap_get h3 k2 = Ok v2 ∧
    hashmap_get h3 k3 = Ok v3 ∧
    hashmap_get h4 k1 = Ok v1 ∧ hashmap_get h4 k2 = Ok v2 ∧
    hashmap_get h4 k3 = Ok v3 ∧ hashmap_get h4 k4 = Ok v4.
Proof.
  intros Hd Hcmp Hnd Hnz.
  repeat (apply Forall_cons in Hnz as [? Hnz]).
  apply NoDup_cons in Hnd as [Hn1 Hnd]. apply NoDup_cons in Hnd as [Hn2 Hnd].
  apply NoDup_cons in Hnd as [Hn3 _].
  apply not_elem_of_cons in Hn1 as [? Hn1]. apply not_elem_of_cons in Hn1 as [? Hn1].
  apply not_elem_of_cons in Hn1 as [? _].
  apply not_elem_of_cons in Hn2 as [? Hn2]. apply not_elem_of_cons in Hn2 as [? _].
  apply not_elem_of_cons in Hn3 as [? _].
  pose proof (hashmap_new_rep hashf cmp 4 ltac:(lia) Hcmp) as Hrep0.
  set (h0 := hashmap_new hashf cmp 4) in *.
  set (bs0 := replicate (Z.to_nat 4) []) in *.
  assert (to_map bs0 = ∅) as Hm0 by apply to_map_replicate_nil.
  assert (count h0 = 0 ∧ arraySize h0 = 4) as [Hc0 Hs0] by done.
  destruct (hashmap_put_spec d h0 bs0 k1 v1 Hd Hrep0) as
    (h1 & bs1 & Hp1 & Hrep1 & Hm1 & _ & _ & Hs1 & Hc1); [done|done|right; lia|].
  rewrite Hm0, lookup_empty, Hc0, Hs0 in *. cbn in Hp1, Hs1, Hc1.
  destruct (hashmap_put_spec d h1 bs1 k2 v2 Hd Hrep1) as
    (h2 & bs2 & Hp2 & Hrep2 & Hm2 & _ & _ & Hs2 & Hc2); [done|done|right; lia|].
  rewrite Hm1, lookup_insert_ne, lookup_empty, Hc1, Hs1 in * by done.
  cbn in Hp2, Hs2, Hc2.
  destruct (hashmap_put_spec d h2 bs2 k3 v3 Hd Hrep2) as
    (h3 & bs3 & Hp3 & Hrep3 & Hm3 & _ & _ & Hs3 & Hc3); [done|done|right; lia|].
  rewrite Hm2, !lookup_insert_ne, lookup_empty, Hc2, Hs2 in * by done.
  cbn in Hp3, Hs3, Hc3.
  destruct (hashmap_put_spec d h3 bs3 k4 v4 Hd Hrep3) as
    (h4 & bs4 & Hp4 & Hrep4 & Hm4 & _ & _ & Hs4 & Hc4); [done|done|right; lia|].
  rewrite Hm3, !lookup_insert_ne, lookup_empty, Hc3, Hs3 in * by done.
  cbn in Hp4, Hs4, Hc4.
  exists h1, h2, h3, h4. unfold hashmap_size.
  rewrite (hashmap_get_spec h3 bs3) by done.
  rewrite !(hashmap_get_spec h3 bs3), !(hashmap_get_spec h4 bs4) by done.
  rewrite Hm4, Hm3.
  split_and!; try done.
  all: repeat (rewrite lookup_insert_eq || rewrite lookup_insert_ne by done); done.
Qed.

Lemma growth_at_half_load_witness :
  ∃ h1 h2 h3 h4,
    hashmap_put 2 (hashmap_new (λ k, k) Z.sub 4) 1 101 = Ok (0, h1) ∧ hashmap_size h1 = 4 ∧
    hashmap_put 2 h1 2 102 = Ok (0, h2) ∧ hashmap_size h2 = 4 ∧
    hashmap_put 2 h2 3 103 = Ok (0, h3) ∧ hashmap_size h3 = 8 ∧
    hashmap_put 2 h3 4 104 = Ok (0, h4) ∧ hashmap_size h4 = 8 ∧
    hashmap_get h3 1 = Ok 101 ∧ hashmap_get h3 2 = Ok 102 ∧
    hashmap_get h3 3 = Ok 103 ∧
    hashmap_get h4 1 = Ok 101 ∧ hashmap_get h4 2 = Ok 102 ∧
    hashmap_get h4 3 = Ok 103 ∧ hashmap_get h4 4 = Ok 104.
Proof.
  apply (growth_at_half_load 2 (λ k, k) Z.sub 1 2 3 4 101 102 103 104).
  - lia.
  - intros x y. lia.
  - repeat (apply NoDup_cons; split; [set_solver|]). apply NoDup_nil_2.
  - repeat (apply Forall_cons; split; [done|]). apply Forall_nil_2.
Defined.



Lemma same_content_of h bs h' bs' fuel :
  rep h bs → rep h' bs' → to_map bs' = to_map bs → count h' = count h →
  (Z.to_nat (count h) < fuel)%nat →
  same_content fuel h h'.
Proof.
  intros Hrep Hrep' Hmap Hcnt Hfuel.
  assert (∀ k, hashmap_get h' k = hashmap_get h k) as Hget.
  { intros k. by rewrite (hashmap_get_spec h bs), (hashmap_get_spec h' bs'), Hmap. }
  split; [by exists bs'|]. split; [done|]. split; [done|]. split.
  { intros k. unfold hashmap_contains_key. by rewrite Hget. }
  exists (keys_of (mjoin bs)), (keys_of (mjoin bs')). split_and!.
  - apply (drain_all h bs Hrep). pose proof (rep_count _ _ Hrep). lia.
  - apply (drain_all h' bs' Hrep'). pose proof (rep_count _ _ Hrep'). lia.
  - by apply (keys_perm h bs h' bs').
Qed.

(** C5, as stated, fails: the new size is computed in [unsigned int].
    Growing the map of size 4 that holds keys 1 and 5 by the factor
    2^30 makes the product 2^32, which is 0 in that type: the new array
    has no slot, and the first entry that is put into it is divided by
    the size 0 in [__doProbe].  On an empty map of size 4 the same call
    returns, with a map of size 0 in which the next [Put] divides by
    zero.  ([calloc] of 0 nodes is taken to return a pointer, so that
    [assert(h->array)] passes.) *)
Lemma grow_by_two_to_the_thirty :
  wf two_of_four ∧
  hashmap_increase_capacity 2 two_of_four (2 ^ 30) = Fault DivByZero ∧
  ∃ h', hashmap_increase_capacity 2 (hashmap_new (λ k, k) Z.sub 4) (2 ^ 30) = Ok h' ∧
        hashmap_size h' = 0 ∧ hashmap_put 2 h' 1 101 = Fault DivByZero.
Proof.
  split; [apply two_of_four_wf|].
  split; [vm_compute; reflexivity|].
  eexists. split; [vm_compute; reflexivity|].
  split; vm_compute; reflexivity.
Qed.

(** C5, amended.  Growing a well-formed map, by a call
    of [hashmap_increase_capacity] with a factor of at least one that
    keeps the array size below 2^31, or by the check that [hashmap_put]
    makes, returns a well-formed map with the same count, the same value
    (or none) for every key, and the same set of keys under iteration. *)
Theorem grow_preserves_content d h factor fuel :
  (2 ≤ d)%nat → wf h → 1 ≤ factor → hashmap_size h * factor < 2 ^ 31 →
  (Z.to_nat (hashmap_count h) < fuel)%nat →
  (∃ h', hashmap_increase_capacity d h factor = Ok h' ∧ same_content fuel h h') ∧
  (∃ h', __ensurecapacity d h = Ok h' ∧ same_content fuel h h').
Proof.
  intros Hd [bs Hrep] Hf Hfit Hfuel. unfold hashmap_size in Hfit. split.
  - destruct (hashmap_increase_capacity_spec d h bs factor Hd Hrep Hf)
      as (h' & bs' & Hg & Hrep' & Hmap & Hcnt & _); [lia|].
    exists h'. split; [done|]. by apply (same_content_of h bs h' bs').
  - destruct (ensurecapacity_spec d h bs Hd Hrep)
      as (h' & bs' & Hg & Hrep' & Hmap & Hcnt & _).
    exists h'. split; [done|]. by apply (same_content_of h bs h' bs').
Qed.

Lemma grow_preserves_content_witness :
  (∃ h', hashmap_increase_capacity 2 two_of_four 3 = Ok h' ∧
         same_content 3 two_of_four h') ∧
  (∃ h', __ensurecapacity 2 two_of_four = Ok h' ∧ same_content 3 two_of_four h').
Proof.
  apply (grow_preserves_content 2 two_of_four 3 3).
  - lia.
  - apply two_of_four_wf.
  - lia.
  - vm_compute. reflexivity.
  - vm_compute. lia.
Defined.

Lemma contains_key_present h bs k :
  rep h bs → hashmap_contains_key h k = Ok 1 ↔ is_Some (to_map bs !! k).
Proof.
  intros Hrep. unfold hashmap_contains_key.
  rewrite (hashmap_get_spec h bs k Hrep), Ok_bind.
  destruct (to_map bs !! k) as [v|] eqn:E; simpl.
  - pose proof (to_map_val h bs k v Hrep E).
    destruct (Z.eqb_spec v 0); [done|]. split; eauto.
  - split; [done|]. by intros [? ?].
Qed.

(** C6.  On a well-formed map, [Put] of a non-null key with a non-null
    value returns, and [Get] of that key then returns that value.  (The
    map holds fewer than 32767 entries or already has the key:
    [__nodeassign] asserts that the count stays below 32768.) *)
Theorem get_after_put d h k v :
  (2 ≤ d)%nat → wf h → k ≠ 0 → v ≠ 0 →
  hashmap_count h < 32767 ∨ hashmap_contains_key h k = Ok 1 →
  ∃ prev h', hashmap_put d h k v = Ok (prev, h') ∧ wf h' ∧
             hashmap_get h' k = Ok v.
Proof.
  intros Hd [bs Hrep] Hk Hv Hroom.
  destruct (hashmap_put_spec d h bs k v Hd Hrep Hk Hv) as
    (h' & bs' & Hp & Hrep' & Hmap & _).
  { destruct Hroom as [?|Hc]; [right; unfold hashmap_count in *; lia|left].
    by apply (contains_key_present h bs k Hrep). }
  eexists _, h'. split; [done|]. split; [by exists bs'|].
  by rewrite (hashmap_get_spec h' bs' k Hrep'), Hmap, lookup_insert_eq.
Qed.

Lemma get_after_put_witness :
  ∃ prev h', hashmap_put 2 two_of_four 9 109 = Ok (prev, h') ∧ wf h' ∧
             hashmap_get h' 9 = Ok 109.
Proof.
  apply (get_after_put 2 two_of_four 9 109).
  - lia.
  - apply two_of_four_wf.
  - lia.
  - lia.
  - left. vm_compute. reflexivity.
Defined.

(** C7.  On a well-formed map [Get] tells whether the key is there.  If
    it is (a value that is not [NULL]), [hashmap_remove_entry] hands back
    the key and that value, [hashmap_remove] the value, and the count is
    one less.  If it is not, the map is left as it is, to the last cell,
    and the entry handed back has a [NULL] key and a [NULL] value. *)
Theorem remove_present_and_absent h k :
  wf h →
  ∃ v, hashmap_get h k = Ok v ∧
    if v =? 0 then
      hashmap_remove_entry h k = Ok (Entry 0 0, h) ∧
      hashmap_remove h k = Ok (0, h)
    else
      ∃ h', hashmap_remove_entry h k = Ok (Entry k v, h') ∧
            hashmap_remove h k = Ok (v, h') ∧
            hashmap_count h' = hashmap_count h - 1 ∧
            wf h' ∧ hashmap_get h' k = Ok 0.
Proof.
  intros [bs Hrep].
  destruct (hashmap_remove_entry_spec h bs k Hrep) as
    (h' & bs' & Hr & Hrep' & Hmap & _ & _ & Hcnt & Hsame).
  exists (default 0 (to_map bs !! k)). split; [by apply hashmap_get_spec|].
  unfold hashmap_remove. rewrite Hr, Ok_bind.
  destruct (to_map bs !! k) as [v|] eqn:E; simpl.
  - pose proof (to_map_val h bs k v Hrep E).
    destruct (Z.eqb_spec v 0) as [|_]; [done|].
    exists h'. split_and!; [done|done|done|by exists bs'|].
    by rewrite (hashmap_get_spec h' bs' k Hrep'), Hmap, lookup_delete_eq.
  - by rewrite (Hsame eq_refl).
Qed.

Lemma remove_present_and_absent_witness :
  (∃ v, hashmap_get two_of_four 1 = Ok v ∧
     if v =? 0 then
       hashmap_remove_entry two_of_four 1 = Ok (Entry 0 0, two_of_four) ∧
       hashmap_remove two_of_four 1 = Ok (0, two_of_four)
     else
       ∃ h', hashmap_remove_entry two_of_four 1 = Ok (Entry 1 v, h') ∧
             hashmap_remove two_of_four 1 = Ok (v, h') ∧
             hashmap_count h' = hashmap_count two_of_four - 1 ∧
             wf h' ∧ hashmap_get h' 1 = Ok 0) ∧
  hashmap_get two_of_four 1 = Ok 101.
Proof.
  split.
  - apply (remove_present_and_absent two_of_four 1). apply two_of_four_wf.
  - vm_compute. reflexivity.
Defined.

(** C8, as stated, fails: in the map of size 4 that holds keys 1 and 5,
    both in slot 1 (key 5 on the chain), [Put] of key 1 with a new value
    finds the load at 2/4 and grows the map first: the array has 8 slots
    afterwards, key 5 is the array node of slot 5, and slot 1 has no
    chain any more. *)
Lemma put_existing_key_may_rehash :
  ∃ p h',
    hashmap_size two_of_four = 4 ∧
    load two_of_four (array two_of_four + 1) = Ok (Node (Entry 1 101) p) ∧
    load two_of_four p = Ok (Node (Entry 5 102) 0) ∧
    hashmap_put 2 two_of_four 1 201 = Ok (101, h') ∧
    hashmap_size h' = 8 ∧
    load h' (array h' + 1) = Ok (Node (Entry 1 201) 0) ∧
    load h' (array h' + 5) = Ok (Node (Entry 5 102) 0) ∧
    ¬ in_place two_of_four h' 1 201.
Proof.
  eexists _, _. split; [vm_compute; reflexivity|].
  split; [vm_compute; reflexivity|].
  split; [vm_compute; reflexivity|].
  split; [vm_compute; reflexivity|].
  split; [vm_compute; reflexivity|].
  split; [vm_compute; reflexivity|].
  split; [vm_compute; reflexivity|].
  intros (q & v0 & nx & _ & Heq).
  apply (f_equal arraySize) in Heq. vm_compute in Heq. discriminate.
Qed.

(** C8, amended.  On a well-formed map that has the key, [Put] of that
    key with a new non-null value returns the previous value, leaves the
    count as it was, makes [Get] of the key return the new value and
    leaves the value of every other key as it was.  When the load before
    the call is below the ratio, the value is replaced in place: one
    node's value changes and nothing else in the map; otherwise the map
    first grows to twice its size. *)
Theorem put_existing_key d h k v0 v :
  (2 ≤ d)%nat → wf h → v0 ≠ 0 → hashmap_get h k = Ok v0 → v ≠ 0 →
  ∃ h', hashmap_put d h k v = Ok (v0, h') ∧ wf h' ∧
    hashmap_count h' = hashmap_count h ∧
    hashmap_get h' k = Ok v ∧
    (∀ k', k' ≠ k → hashmap_get h' k' = hashmap_get h k') ∧
    if below_spaceratio (count h) (arraySize h) then in_place h h' k v
    else hashmap_size h' = 2 * hashmap_size h.
Proof.
  intros Hd [bs Hrep] Hv0 Hget Hv.
  apply (get_present h bs k v0 Hrep Hv0) in Hget.
  assert (k ≠ 0) as Hk.
  { apply (rep_key_nonzero h bs Hrep). eauto. }
  assert (∀ h' bs', rep h' bs' → to_map bs' = <[k := v]> (to_map bs) →
     hashmap_get h' k = Ok v ∧
     (∀ k', k' ≠ k → hashmap_get h' k' = hashmap_get h k')) as Hgets.
  { intros h' bs' Hrep' Hmap. split.
    - by rewrite (hashmap_get_spec h' bs' k Hrep'), Hmap, lookup_insert_eq.
    - intros k' Hne.
      rewrite (hashmap_get_spec h' bs' k' Hrep'), (hashmap_get_spec h bs k' Hrep), Hmap.
      by rewrite lookup_insert_ne. }
  destruct (below_spaceratio (count h) (arraySize h)) eqn:Hbelow.
  - destruct d as [|d]; [lia|].
    change (hashmap_put (S d)) with (put_with (hashmap_put d)).
    rewrite put_with_core by done. unfold ensurecapacity_with. rewrite Hbelow, Ok_bind.
    destruct (put_core_spec h bs k v Hrep Hk Hv) as
      (h' & bs' & Hp & Hrep' & Hmap & _ & Hcnt & _ & _ & _ & Hin); [by left; eauto|].
    rewrite Hget in Hp, Hcnt. simpl in Hp.
    destruct (Hgets h' bs' Hrep' Hmap) as [? ?].
    exists h'. split_and!; [done|by exists bs'|done|done|done|].
    destruct (Hin v0 Hget) as (q & nx & Hq & ->). by exists q, v0, nx.
  - destruct (hashmap_put_spec d h bs k v Hd Hrep Hk Hv) as
      (h' & bs' & Hp & Hrep' & Hmap & _ & _ & Hsz & Hcnt); [by left; eauto|].
    rewrite Hget in Hp, Hcnt. rewrite Hbelow in Hsz. simpl in Hp.
    destruct (Hgets h' bs' Hrep' Hmap) as [? ?].
    exists h'. split_and!; [done|by exists bs'|done|done|done|done].
Qed.

Lemma put_existing_key_witness :
  ∃ h', hashmap_put 2 chain_of_two 9 202 = Ok (102, h') ∧ wf h' ∧
    hashmap_count h' = hashmap_count chain_of_two ∧
    hashmap_get h' 9 = Ok 202 ∧
    (∀ k', k' ≠ 9 → hashmap_get h' k' = hashmap_get chain_of_two k') ∧
    if below_spaceratio (count chain_of_two) (arraySize chain_of_two)
    then in_place chain_of_two h' 9 202
    else hashmap_size h' = 2 * hashmap_size chain_of_two.
Proof.
  apply (put_existing_key 2 chain_of_two 9 102 202).
  - lia.
  - apply chain_of_two_wf.
  - lia.
  - vm_compute. reflexivity.
  - lia.
Defined.

(** C9.  [Clear] on a well-formed map returns (its assertions hold),
    leaves a well-formed map whose count is 0, and [Get] finds no key in
    it, be it one that was there before or not. *)
Theorem clear_empties h :
  wf h →
  ∃ h', hashmap_clear h = Ok h' ∧ wf h' ∧ hashmap_count h' = 0 ∧
        ∀ k, hashmap_get h' k = Ok 0.
Proof.
  intros [bs Hrep].
  destruct (hashmap_clear_spec h bs Hrep) as (h' & bs' & Hc & Hrep' & _ & Hcnt & Hmap).
  exists h'. split_and!; [done|by exists bs'|done|].
  intros k. by rewrite (hashmap_get_spec h' bs' k Hrep'), Hmap, lookup_empty.
Qed.

Lemma clear_empties_witness :
  (∃ h', hashmap_clear chain_of_three = Ok h' ∧ wf h' ∧ hashmap_count h' = 0 ∧
         ∀ k, hashmap_get h' k = Ok 0) ∧
  hashmap_count chain_of_three = 3 ∧ hashmap_get chain_of_three 9 = Ok 102.
Proof.
  split.
  - apply (clear_empties chain_of_three). apply chain_of_three_wf.
  - split; vm_compute; reflexivity.
Defined.

Lemma slot_empty_of h bs (c : nat) :
  rep h bs → bs !! c = Some [] → slot_empty h (Z.of_nat c).
Proof.
  intros Hrep Hc. destruct (rep_slot _ _ Hrep _ _ Hc) as [v Hv].
  exists (Node (Entry 0 v) 0). by rewrite (load_eq _ _ _ Hv).
Qed.

(** C10 (the code departs from the claim).  Two keys share a slot; the
    first [Next] returns the key of the array node and leaves the cursor
    on the chain node; removing that key moves the chain node's entry
    into the array node and frees the chain node.  [Next] checks for
    this (the slot has no chain left) and returns the moved key from the
    array node; [Peek] has no such check and reads the freed node, and
    so do [HasNext] and [PeekValue], which call it. *)
Theorem peek_after_removing_current_reads_freed_node :
  wf chain_of_two ∧
  ∃ it h1,
    hashmap_iterator_next chain_of_two (hashmap_iterator chain_of_two) = Ok (1, it) ∧
    hashmap_remove chain_of_two 1 = Ok (101, h1) ∧
    hashmap_iterator_next h1 it = Ok (9, Iter 2 0) ∧
    hashmap_iterator_peek h1 it = Fault InvalidAccess ∧
    hashmap_iterator_has_next h1 it = Fault InvalidAccess ∧
    hashmap_iterator_peek_value h1 it = Fault InvalidAccess.
Proof.
  split; [apply chain_of_two_wf|].
  eexists _, _. split; [vm_compute; reflexivity|].
  split; [vm_compute; reflexivity|].
  split; [vm_compute; reflexivity|].
  split; [vm_compute; reflexivity|].
  split; vm_compute; reflexivity.
Qed.

(** * Further properties of the map *)

(** ** Put, Remove and Get together *)

Lemma get_absent h bs k :
  rep h bs → hashmap_get h k = Ok 0 ↔ to_map bs !! k = None.
Proof.
  intros Hrep. rewrite (hashmap_get_spec h bs k Hrep). split.
  - destruct (to_map bs !! k) as [v|] eqn:E; [|done]. simpl. intros [= ->].
    by pose proof (to_map_val h bs k 0 Hrep E).
  - by intros ->.
Qed.

(** X1.  [Put] of a key that the map does not hold returns [NULL], adds
    one to the count, makes [Get] of the key return the value and leaves
    the value of every other key as it was; the array keeps its size
    when the load before the call is below the ratio and has twice the
    size otherwise.  (The map holds fewer than 32767 entries: [__nodeassign]
    asserts that the count stays below 32768.) *)
Theorem put_new_key d h k v :
  (2 ≤ d)%nat → wf h → k ≠ 0 → v ≠ 0 →
  hashmap_get h k = Ok 0 → hashmap_count h < 32767 →
  ∃ h', hashmap_put d h k v = Ok (0, h') ∧ wf h' ∧
    hashmap_count h' = hashmap_count h + 1 ∧
    hashmap_get h' k = Ok v ∧
    (∀ k', k' ≠ k → hashmap_get h' k' = hashmap_get h k') ∧
    hashmap_size h' =
      if below_spaceratio (hashmap_count h) (hashmap_size h) then hashmap_size h
      else 2 * hashmap_size h.
Proof.
  intros Hd [bs Hrep] Hk Hv Hget Hroom. unfold hashmap_count, hashmap_size in *.
  apply (get_absent h bs k Hrep) in Hget.
  destruct (hashmap_put_spec d h bs k v Hd Hrep Hk Hv) as
    (h' & bs' & Hp & Hrep' & Hmap & _ & _ & Hsz & Hcnt); [right; lia|].
  rewrite Hget in Hp, Hcnt. simpl in Hp.
  exists h'. split_and!; [done|by exists bs'|done| | |done].
  - by rewrite (hashmap_get_spec h' bs' k Hrep'), Hmap, lookup_insert_eq.
  - intros k' Hne.
    rewrite (hashmap_get_spec h' bs' k' Hrep'), (hashmap_get_spec h bs k' Hrep), Hmap.
    by rewrite lookup_insert_ne.
Qed.

Lemma put_new_key_witness :
  ∃ h', hashmap_put 2 two_of_four 9 109 = Ok (0, h') ∧ wf h' ∧
    hashmap_count h' = hashmap_count two_of_four + 1 ∧
    hashmap_get h' 9 = Ok 109 ∧
    (∀ k', k' ≠ 9 → hashmap_get h' k' = hashmap_get two_of_four k') ∧
    hashmap_size h' =
      if below_spaceratio (hashmap_count two_of_four) (hashmap_size two_of_four)
      then hashmap_size two_of_four
      else 2 * hashmap_size two_of_four.
Proof.
  apply (put_new_key 2 two_of_four 9 109).
  - lia.
  - apply two_of_four_wf.
  - lia.
  - lia.
  - vm_compute. reflexivity.
  - vm_compute. reflexivity.
Defined.

(** X2.  [hashmap_remove_entry] changes nothing but the key it is given: the
    array keeps its size, the hash and comparison functions stay, and
    [Get] of every other key returns what it returned before. *)
Theorem remove_keeps_other_keys h k :
  wf h →
  ∃ e h', hashmap_remove_entry h k = Ok (e, h') ∧ wf h' ∧
    hashmap_size h' = hashmap_size h ∧ array h' = array h ∧
    hash h' = hash h ∧ compare h' = compare h ∧
    hashmap_get h' k = Ok 0 ∧
    ∀ k', k' ≠ k → hashmap_get h' k' = hashmap_get h k'.
Proof.
  intros [bs Hrep].
  destruct (hashmap_remove_entry_spec h bs k Hrep) as
    (h' & bs' & Hr & Hrep' & Hmap & (HN & Ha & Hh & Hc) & _).
  eexists _, h'. split; [exact Hr|]. split; [by exists bs'|].
  split_and!; [done..| |].
  - by rewrite (hashmap_get_spec h' bs' k Hrep'), Hmap, lookup_delete_eq.
  - intros k' Hne.
    rewrite (hashmap_get_spec h' bs' k' Hrep'), (hashmap_get_spec h bs k' Hrep), Hmap.
    by rewrite lookup_delete_ne.
Qed.

Lemma remove_keeps_other_keys_witness :
  ∃ e h', hashmap_remove_entry chain_of_three 9 = Ok (e, h') ∧ wf h' ∧
    hashmap_size h' = hashmap_size chain_of_three ∧ array h' = array chain_of_three ∧
    hash h' = hash chain_of_three ∧ compare h' = compare chain_of_three ∧
    hashmap_get h' 9 = Ok 0 ∧
    ∀ k', k' ≠ 9 → hashmap_get h' k' = hashmap_get chain_of_three k'.
Proof.
  apply (remove_keeps_other_keys chain_of_three 9). apply chain_of_three_wf.
Defined.

(** X3.  [Put] of a new key followed by [Remove] of that key: [Remove]
    returns the value that was put, and the map holds what it held
    before the two calls: the same count and the same answer of [Get]
    for every key.  (The array may have grown in between.) *)
Theorem put_then_remove d h k v :
  (2 ≤ d)%nat → wf h → k ≠ 0 → v ≠ 0 →
  hashmap_get h k = Ok 0 → hashmap_count h < 32767 →
  ∃ h1 h2, hashmap_put d h k v = Ok (0, h1) ∧
    hashmap_remove h1 k = Ok (v, h2) ∧ wf h2 ∧
    hashmap_count h2 = hashmap_count h ∧
    hashmap_size h2 = hashmap_size h1 ∧
    ∀ k', hashmap_get h2 k' = hashmap_get h k'.
Proof.
  intros Hd [bs Hrep] Hk Hv Hget Hroom. unfold hashmap_count, hashmap_size in *.
  apply (get_absent h bs k Hrep) in Hget.
  destruct (hashmap_put_spec d h bs k v Hd Hrep Hk Hv) as
    (h1 & bs1 & Hp & Hrep1 & Hmap1 & _ & _ & _ & Hcnt1); [right; lia|].
  rewrite Hget in Hp, Hcnt1. simpl in Hp.
  destruct (hashmap_remove_entry_spec h1 bs1 k Hrep1) as
    (h2 & bs2 & Hr & Hrep2 & Hmap2 & (HN & _) & _ & Hcnt2 & _).
  rewrite Hmap1, lookup_insert_eq in Hr, Hcnt2.
  rewrite Hmap1, delete_insert_eq, delete_id in Hmap2 by done.
  exists h1, h2. unfold hashmap_remove. rewrite Hr, Ok_bind. simpl.
  split_and!; [done|done|by exists bs2|lia|done|].
  intros k'.
  by rewrite (hashmap_get_spec h2 bs2 k' Hrep2), (hashmap_get_spec h bs k' Hrep), Hmap2.
Qed.

Lemma put_then_remove_witness :
  ∃ h1 h2, hashmap_put 2 two_of_four 9 109 = Ok (0, h1) ∧
    hashmap_remove h1 9 = Ok (109, h2) ∧ wf h2 ∧
    hashmap_count h2 = hashmap_count two_of_four ∧
    hashmap_size h2 = hashmap_size h1 ∧
    ∀ k', hashmap_get h2 k' = hashmap_get two_of_four k'.
Proof.
  apply (put_then_remove 2 two_of_four 9 109).
  - lia.
  - apply two_of_four_wf.
  - lia.
  - lia.
  - vm_compute. reflexivity.
  - vm_compute. reflexivity.
Defined.

(** X4.  [NULL] is no key and no value.  On a well-formed map [Get] and
    [Remove] of the [NULL] key find nothing and leave the map as it is,
    and [Put] with a [NULL] key or a [NULL] value returns [NULL] without
    touching the map: it does not even grow it, and it does not remove
    the key it is given. *)
Theorem null_is_never_stored d h k v :
  (1 ≤ d)%nat → wf h →
  hashmap_get h 0 = Ok 0 ∧ hashmap_contains_key h 0 = Ok 0 ∧
  hashmap_remove_entry h 0 = Ok (Entry 0 0, h) ∧
  hashmap_remove h 0 = Ok (0, h) ∧
  hashmap_put d h 0 v = Ok (0, h) ∧ hashmap_put d h k 0 = Ok (0, h).
Proof.
  intros Hd [bs Hrep].
  assert (to_map bs !! 0 = None) as Hnone.
  { destruct (to_map bs !! 0) eqn:E; [|done].
    by pose proof (rep_key_nonzero h bs Hrep 0 (mk_is_Some _ _ E)). }
  assert (hashmap_get h 0 = Ok 0) as Hg by by apply (get_absent h bs 0 Hrep).
  destruct (hashmap_remove_entry_spec h bs 0 Hrep) as (h' & bs' & Hr & _ & _ & _ & _ & _ & Hsame).
  rewrite Hnone in Hr. rewrite (Hsame Hnone) in Hr.
  unfold hashmap_contains_key, hashmap_remove. rewrite Hg, Hr, !Ok_bind. simpl.
  destruct d as [|d]; [lia|]. cbn [hashmap_put]. unfold put_with. simpl.
  rewrite orb_true_r. done.
Qed.

Lemma null_is_never_stored_witness :
  hashmap_get two_of_four 0 = Ok 0 ∧ hashmap_contains_key two_of_four 0 = Ok 0 ∧
  hashmap_remove_entry two_of_four 0 = Ok (Entry 0 0, two_of_four) ∧
  hashmap_remove two_of_four 0 = Ok (0, two_of_four) ∧
  hashmap_put 1 two_of_four 0 7 = Ok (0, two_of_four) ∧
  hashmap_put 1 two_of_four 1 0 = Ok (0, two_of_four).
Proof.
  apply (null_is_never_stored 1 two_of_four 1 7).
  - lia.
  - apply two_of_four_wf.
Defined.

(** ** Iteration over a map that is not modified *)

Lemma keys_of_elem l k : k ∈ keys_of l ↔ ∃ p v, (p, Entry k v) ∈ l.
Proof.
  unfold keys_of. rewrite list_elem_of_fmap. split.
  - intros ([p [k' v]] & -> & Hin). by exists p, v.
  - intros (p & v & Hin). by exists (p, Entry k v).
Qed.

Lemma elem_of_join_drop {A} (bs : list (list A)) c x :
  x ∈ mjoin (drop c bs) → x ∈ mjoin bs.
Proof.
  rewrite <-(take_drop c bs) at 2. rewrite join_app, elem_of_app. by right.
Qed.

(** The keys a cursor has still to return are keys of the map. *)
Lemma iter_at_keys bs it rest k :
  iter_at bs it rest → k ∈ rest → k ∈ keys_of (mjoin bs).
Proof.
  intros [c Hc|c pre p e post Hl Hpre] Hk.
  - apply keys_of_elem in Hk as (q & v & Hin). apply keys_of_elem.
    exists q, v. by eapply elem_of_join_drop.
  - rewrite <-keys_of_app in Hk. apply keys_of_elem in Hk as (q & v & Hin).
    apply keys_of_elem. exists q, v. apply elem_of_app in Hin as [Hin|Hin].
    + apply elem_of_join_lookup. exists c, (pre ++ (p, e) :: post). split; [done|].
      apply elem_of_app. by right.
    + by eapply elem_of_join_drop.
Qed.

Lemma get_of_key h bs k :
  rep h bs → k ∈ keys_of (mjoin bs) → ∃ v, hashmap_get h k = Ok v ∧ v ≠ 0.
Proof.
  intros Hrep Hk. apply (to_map_dom h bs k Hrep) in Hk as [v Hv].
  exists v. split; [|by apply (to_map_val h bs k v Hrep)].
  by rewrite (hashmap_get_spec h bs k Hrep), Hv.
Qed.

Lemma contains_key_iff h bs k :
  rep h bs → hashmap_contains_key h k = Ok 1 ↔ k ∈ keys_of (mjoin bs).
Proof.
  intros Hrep. rewrite (to_map_dom h bs k Hrep). unfold hashmap_contains_key.
  rewrite (hashmap_get_spec h bs k Hrep), Ok_bind.
  destruct (to_map bs !! k) as [v|] eqn:E; simpl.
  - pose proof (to_map_val h bs k v Hrep E).
    destruct (Z.eqb_spec v 0); [done|]. split; eauto.
  - split; [done|]. by intros [? ?].
Qed.

(** In the concatenation of the buckets the entries come in the order
    of their buckets. *)
Lemma join_sorted {A} (f : A → nat) (bs : list (list A)) :
  (∀ i l x, bs !! i = Some l → x ∈ l → f x = i) →
  ∀ a b xa xb, (a ≤ b)%nat → mjoin bs !! a = Some xa → mjoin bs !! b = Some xb →
    (f xa ≤ f xb)%nat.
Proof.
  induction bs as [|l bs IH] using rev_ind; intros Hf a b xa xb Hab Ha Hb.
  { done. }
  rewrite join_app in Ha, Hb. simpl in Ha, Hb. rewrite app_nil_r in Ha, Hb.
  assert (∀ x, x ∈ l → f x = length bs) as Hlast.
  { intros x Hx. apply (Hf (length bs) l); [|done].
    by rewrite lookup_app_r, Nat.sub_diag. }
  assert (∀ x, x ∈ mjoin bs → (f x < length bs)%nat) as Hfirst.
  { intros x Hx. apply elem_of_join_lookup in Hx as (i & li & Hi & Hx).
    rewrite (Hf i li x); [by apply lookup_lt_Some in Hi|by apply lookup_app_l_Some|done]. }
  apply lookup_app_Some in Ha as [Ha|[Hla Ha]], Hb as [Hb|[Hlb Hb]].
  - eapply (IH ltac:(intros i li x Hi; apply Hf; by apply lookup_app_l_Some)); eauto.
  - apply list_elem_of_lookup_2 in Ha, Hb.
    rewrite (Hlast _ Hb). pose proof (Hfirst _ Ha). lia.
  - apply lookup_lt_Some in Hb. lia.
  - apply list_elem_of_lookup_2 in Ha, Hb. by rewrite (Hlast _ Ha), (Hlast _ Hb).
Qed.

(** X5.  Iterating over a well-formed map (the caller's loop on [Next], from
    a fresh iterator, with no change of the map in between) returns as
    many keys as [Count] says, each of them once, and they are the keys
    for which [ContainsKey] answers 1. *)
Theorem iteration_returns_the_keys_of_the_map h fuel :
  wf h → (Z.to_nat (hashmap_count h) < fuel)%nat →
  ∃ ks, drain fuel h (hashmap_iterator h) = Ok ks ∧
    Z.of_nat (length ks) = hashmap_count h ∧ NoDup ks ∧
    ∀ k, k ∈ ks ↔ hashmap_contains_key h k = Ok 1.
Proof.
  intros [bs Hrep] Hfuel. unfold hashmap_count in *.
  pose proof (rep_count _ _ Hrep) as Hcnt.
  exists (keys_of (mjoin bs)). split_and!.
  - apply (drain_all h bs Hrep). lia.
  - unfold keys_of. rewrite length_fmap. lia.
  - by apply (rep_keys_nodup_all h).
  - intros k. symmetry. by apply contains_key_iff.
Qed.

Lemma iteration_returns_the_keys_of_the_map_witness :
  ∃ ks, drain 4 chain_of_three (hashmap_iterator chain_of_three) = Ok ks ∧
    Z.of_nat (length ks) = hashmap_count chain_of_three ∧ NoDup ks ∧
    ∀ k, k ∈ ks ↔ hashmap_contains_key chain_of_three k = Ok 1.
Proof.
  apply (iteration_returns_the_keys_of_the_map chain_of_three 4).
  - apply chain_of_three_wf.
  - vm_compute. lia.
Defined.

(** X6.  The keys come slot by slot: of two keys that an iteration returns,
    the one returned first has the smaller slot index ([__doProbe]), or
    the same. *)
Theorem iteration_goes_slot_by_slot h fuel ks (i j : nat) ki kj :
  wf h → drain fuel h (hashmap_iterator h) = Ok ks →
  (i ≤ j)%nat → ks !! i = Some ki → ks !! j = Some kj →
  ∃ si sj, __doProbe h ki = Ok si ∧ __doProbe h kj = Ok sj ∧ si ≤ sj.
Proof.
  intros [bs Hrep] Hdrain Hij Hi Hj.
  assert (ks = keys_of (mjoin bs)) as ->.
  { destruct (decide (length (mjoin bs) < fuel)%nat) as [Hlt|Hge].
    - rewrite (drain_all h bs Hrep fuel Hlt) in Hdrain. by injection Hdrain.
    - exfalso. clear Hi Hj.
      assert (∀ it rest, iter_at bs it rest → (fuel ≤ length rest)%nat →
                drain fuel h it = Fault Diverges) as Hdiv.
      { clear Hdrain Hge. induction fuel as [|fuel IH]; intros it rest Hat Hlen; [done|].
        destruct (next_spec h bs Hrep it rest Hat) as (k & it' & rest' & Hn & Hat' & Hk).
        simpl. rewrite Hn, Ok_bind. simpl.
        destruct Hk as [(-> & -> & _)|(Hk & ->)]; [simpl in Hlen; lia|].
        destruct (Z.eqb_spec k 0); [done|].
        rewrite (IH it' rest' Hat'); [done|]. simpl in Hlen. lia. }
      rewrite (Hdiv (hashmap_iterator h) (keys_of (mjoin bs))) in Hdrain; [done| |].
      + replace (keys_of (mjoin bs)) with (keys_of (mjoin (drop 0 bs))) by done.
        apply (at_slot bs 0). lia.
      + unfold keys_of. rewrite length_fmap. lia. }
  unfold keys_of in Hi, Hj. rewrite list_lookup_fmap in Hi, Hj.
  destruct (mjoin bs !! i) as [[pi ei]|] eqn:Ei; [|done].
  destruct (mjoin bs !! j) as [[pj ej]|] eqn:Ej; [|done].
  simpl in Hi, Hj. injection Hi as <-. injection Hj as <-.
  pose proof (rep_size_pos _ _ Hrep) as Hpos.
  unfold __doProbe. destruct (Z.eqb_spec (arraySize h) 0) as [|_]; [lia|].
  eexists _, _. split; [done|]. split; [done|].
  assert (Z.to_nat (hash h (key ei) `mod` arraySize h)
          ≤ Z.to_nat (hash h (key ej) `mod` arraySize h))%nat as Hle.
  { apply (join_sorted
      (λ pe : Z * hash_entry_t, Z.to_nat (hash h (key pe.2) `mod` arraySize h)) bs)
      with (a := i) (b := j) (xa := (pi, ei)) (xb := (pj, ej)); [|done..].
    intros c l [p e] Hl Hin. simpl.
    destruct (rep_keys _ _ Hrep c l p e Hl Hin) as (_ & _ & ->). lia. }
  pose proof (Z.mod_pos_bound (hash h (key ei)) (arraySize h) Hpos).
  pose proof (Z.mod_pos_bound (hash h (key ej)) (arraySize h) Hpos).
  lia.
Qed.

Lemma slots_one_and_three_wf : wf slots_one_and_three.
Proof. sample_wf 8 [Entry 3 103; Entry 1 101; Entry 9 102]. Qed.

Lemma iteration_goes_slot_by_slot_witness :
  ∃ si sj, __doProbe slots_one_and_three 9 = Ok si ∧
           __doProbe slots_one_and_three 3 = Ok sj ∧ si ≤ sj.
Proof.
  apply (iteration_goes_slot_by_slot slots_one_and_three 4 [1; 9; 3] 1 2 9 3).
  - apply slots_one_and_three_wf.
  - vm_compute. reflexivity.
  - lia.
  - reflexivity.
  - reflexivity.
Defined.

Lemma get_null h : hashmap_get h 0 = Ok 0.
Proof. unfold hashmap_get. by rewrite orb_true_r. Qed.

Lemma next_key_value h bs it rest :
  rep h bs → iter_at bs it rest →
  ∃ k v it' rest', hashmap_iterator_next h it = Ok (k, it') ∧
    iter_at bs it' rest' ∧ hashmap_get h k = Ok v ∧ hd 0 rest = k ∧
    ((k = 0 ∧ v = 0 ∧ rest = [] ∧ rest' = []) ∨ (k ≠ 0 ∧ v ≠ 0 ∧ rest = k :: rest')).
Proof.
  intros Hrep Hat.
  destruct (next_spec h bs Hrep it rest Hat) as (k & it' & rest' & Hn & Hat' & Hk).
  destruct Hk as [(-> & -> & ->)|(Hk & ->)].
  - exists 0, 0, it', []. split_and!; [done|done|apply get_null|done|by left].
  - destruct (get_of_key h bs k Hrep) as (v & Hv & Hv0).
    { eapply iter_at_keys; [exact Hat|]. by left. }
    exists k, v, it', rest'. split_and!; [done..|by right].
Qed.

(** X7.  [hashmap_iterator_next_value] moves the cursor as
    [hashmap_iterator_next] does and returns the value that the map
    holds for the key that [Next] returns; it returns [NULL] when [Next]
    does, at the end of the iteration, and only then. *)
Theorem next_value_is_the_value_of_the_next_key h it :
  iter_wf h it →
  ∃ k v it', hashmap_iterator_next h it = Ok (k, it') ∧
    hashmap_iterator_next_value h it = Ok (v, it') ∧ iter_wf h it' ∧
    hashmap_get h k = Ok v ∧ (v = 0 ↔ k = 0).
Proof.
  intros (bs & rest & Hrep & Hat).
  destruct (next_key_value h bs it rest Hrep Hat)
    as (k & v & it' & rest' & Hn & Hat' & Hg & _ & Hk).
  exists k, v, it'. unfold hashmap_iterator_next_value. rewrite Hn, Ok_bind. simpl.
  split; [done|]. split.
  { destruct Hk as [(-> & -> & _)|(Hk & Hv & _)]; [done|].
    destruct (Z.eqb_spec k 0); [done|]. by rewrite Hg. }
  split; [by exists bs, rest'|]. split; [done|].
  destruct Hk as [(-> & -> & _)|(Hk & Hv & _)]; done.
Qed.

Lemma next_value_is_the_value_of_the_next_key_witness :
  ∃ k v it',
    hashmap_iterator_next two_of_four (hashmap_iterator two_of_four) = Ok (k, it') ∧
    hashmap_iterator_next_value two_of_four (hashmap_iterator two_of_four) = Ok (v, it') ∧
    iter_wf two_of_four it' ∧
    hashmap_get two_of_four k = Ok v ∧ (v = 0 ↔ k = 0).
Proof.
  apply (next_value_is_the_value_of_the_next_key two_of_four (hashmap_iterator two_of_four)).
  destruct two_of_four_wf as [bs Hrep].
  exists bs, (keys_of (mjoin (drop 0 bs))). split; [done|].
  apply (at_slot bs 0). lia.
Defined.

(** X8.  [hashmap_iterator_has_next] and [hashmap_iterator_peek_value] look
    ahead: [HasNext] answers 1 exactly when the [Next] that follows
    returns a key, and [PeekValue] returns the value the map holds for
    that key ([NULL] at the end); both leave the cursor where [Peek]
    leaves it. *)
Theorem has_next_and_peek_value_look_ahead h it :
  iter_wf h it →
  ∃ k v it1 it2,
    hashmap_iterator_has_next h it = Ok (if k =? 0 then 0 else 1, it1) ∧
    hashmap_iterator_peek_value h it = Ok (v, it1) ∧
    hashmap_iterator_peek h it = Ok (k, it1) ∧
    hashmap_iterator_next h it1 = Ok (k, it2) ∧
    hashmap_get h k = Ok v ∧ (v = 0 ↔ k = 0).
Proof.
  intros (bs & rest & Hrep & Hat).
  destruct (peek_spec h bs Hrep it rest Hat) as (it1 & Hpeek & Hat1 & _).
  destruct (next_key_value h bs it1 rest Hrep Hat1)
    as (k & v & it2 & rest' & Hn & Hat2 & Hg & Hhd & Hk).
  rewrite Hhd in Hpeek.
  exists k, v, it1, it2.
  unfold hashmap_iterator_has_next, hashmap_iterator_peek_value.
  rewrite Hpeek, !Ok_bind. simpl. rewrite Hg, Ok_bind.
  split_and!; [done..|].
  destruct Hk as [(-> & -> & _)|(Hk & Hv & _)]; done.
Qed.

Lemma has_next_and_peek_value_look_ahead_witness :
  ∃ k v it1 it2,
    hashmap_iterator_has_next two_of_four (hashmap_iterator two_of_four)
      = Ok (if k =? 0 then 0 else 1, it1) ∧
    hashmap_iterator_peek_value two_of_four (hashmap_iterator two_of_four) = Ok (v, it1) ∧
    hashmap_iterator_peek two_of_four (hashmap_iterator two_of_four) = Ok (k, it1) ∧
    hashmap_iterator_next two_of_four it1 = Ok (k, it2) ∧
    hashmap_get two_of_four k = Ok v ∧ (v = 0 ↔ k = 0).
Proof.
  apply (has_next_and_peek_value_look_ahead two_of_four (hashmap_iterator two_of_four)).
  destruct two_of_four_wf as [bs Hrep].
  exists bs, (keys_of (mjoin (drop 0 bs))). split; [done|].
  apply (at_slot bs 0). lia.
Defined.

(** X9.  On a fresh iterator [HasNext] tells whether the map holds an entry:
    it answers 0 when [Count] is 0 and 1 otherwise. *)
Theorem has_next_on_a_fresh_iterator h :
  wf h →
  ∃ it, hashmap_iterator_has_next h (hashmap_iterator h)
        = Ok (if hashmap_count h =? 0 then 0 else 1, it).
Proof.
  intros [bs Hrep].
  assert (iter_at bs (hashmap_iterator h) (keys_of (mjoin bs))) as Hat.
  { replace (keys_of (mjoin bs)) with (keys_of (mjoin (drop 0 bs))) by done.
    apply (at_slot bs 0). lia. }
  destruct (peek_spec h bs Hrep _ _ Hat) as (it1 & Hpeek & _).
  exists it1. unfold hashmap_iterator_has_next. rewrite Hpeek, Ok_bind. simpl.
  do 2 f_equal. unfold hashmap_count. rewrite (rep_count _ _ Hrep).
  destruct (mjoin bs) as [|[p e] l] eqn:E; [done|]. simpl.
  assert (key e ≠ 0) as Hk.
  { apply (rep_keys_in h bs p e Hrep). rewrite E. by left. }
  destruct (Z.eqb_spec (key e) 0); [done|].
  by destruct (Z.eqb_spec (Z.of_nat (S (length l))) 0); [lia|].
Qed.

Lemma has_next_on_a_fresh_iterator_witness :
  ∃ it, hashmap_iterator_has_next two_of_four (hashmap_iterator two_of_four)
        = Ok (if hashmap_count two_of_four =? 0 then 0 else 1, it).
Proof.
  apply (has_next_on_a_fresh_iterator two_of_four). apply two_of_four_wf.
Defined.

(** X10.  Once [Next] has returned [NULL] the cursor is at the end of the
    array, with no chain pointer, and it stays there: every further
    [Next] and [Peek] returns [NULL], [HasNext] answers 0. *)
Theorem exhausted_iterator_stays_exhausted h it it' :
  iter_wf h it → hashmap_iterator_next h it = Ok (0, it') →
  it' = Iter (hashmap_size h) 0 ∧ iter_wf h it' ∧
  hashmap_iterator_next h it' = Ok (0, it') ∧
  hashmap_iterator_peek h it' = Ok (0, it') ∧
  hashmap_iterator_has_next h it' = Ok (0, it') ∧
  hashmap_iterator_next_value h it' = Ok (0, it').
Proof.
  intros (bs & rest & Hrep & Hat) Hnext.
  pose proof (rep_size _ _ Hrep) as HN.
  assert (it' = Iter (arraySize h) 0) as ->.
  { destruct (next_spec h bs Hrep it rest Hat) as (k & it1 & rest' & Hn & _ & Hk).
    rewrite Hnext in Hn. injection Hn as <- <-.
    destruct Hk as [(_ & -> & _)|(Hk & _)]; [|done].
    inversion Hat as [c Hc Heq|c pre p e post Hl Hpre Heq]; subst.
    { unfold hashmap_iterator_next in Hnext. cbn [cur cur_linked Z.eqb negb] in Hnext.
      destruct (scan_spec h bs Hrep c Hc) as (c' & Hscan & Hb & Hempty & Hfull).
      rewrite Hscan, Ok_bind in Hnext.
      destruct (decide (c' = length bs)) as [->|Hne].
      + assert ((arraySize h =? Z.of_nat (length bs)) = true) as Ht by lia.
        rewrite Ht in Hnext. injection Hnext as <-. by rewrite HN.
      + exfalso. destruct Hfull as (x & t & Hl); [lia|].
        assert (x ∈ mjoin (drop c bs)) as Hin.
        { apply elem_of_join_lookup. exists (c' - c)%nat, (x :: t).
          rewrite lookup_drop. replace (c + (c' - c))%nat with c' by lia.
          split; [done|by left]. }
        destruct (mjoin (drop c bs)); [by apply elem_of_nil in Hin|done]. } }
  assert (iter_at bs (Iter (arraySize h) 0) []) as Hat'.
  { rewrite <-HN. replace [] with (keys_of (mjoin (drop (length bs) bs))).
    - by constructor.
    - by rewrite drop_all. }
  assert (scan h (arraySize h) = Ok (arraySize h)) as Hscan.
  { unfold scan. by rewrite Z.sub_diag. }
  assert (hashmap_iterator_next h (Iter (arraySize h) 0) = Ok (0, Iter (arraySize h) 0))
    as Hn.
  { unfold hashmap_iterator_next. cbn [cur cur_linked Z.eqb negb].
    by rewrite Hscan, Ok_bind, Z.eqb_refl. }
  assert (hashmap_iterator_peek h (Iter (arraySize h) 0) = Ok (0, Iter (arraySize h) 0))
    as Hp.
  { unfold hashmap_iterator_peek. cbn [cur cur_linked Z.eqb].
    by rewrite Hscan, Ok_bind, Z.ltb_irrefl. }
  unfold hashmap_iterator_has_next, hashmap_iterator_next_value, hashmap_size.
  rewrite Hn, Hp, !Ok_bind. simpl.
  split_and!; [done|by exists bs, []|done..].
Qed.

Lemma exhausted_iterator_stays_exhausted_witness :
  Iter 4 0 = Iter (hashmap_size two_of_four) 0 ∧ iter_wf two_of_four (Iter 4 0) ∧
  hashmap_iterator_next two_of_four (Iter 4 0) = Ok (0, Iter 4 0) ∧
  hashmap_iterator_peek two_of_four (Iter 4 0) = Ok (0, Iter 4 0) ∧
  hashmap_iterator_has_next two_of_four (Iter 4 0) = Ok (0, Iter 4 0) ∧
  hashmap_iterator_next_value two_of_four (Iter 4 0) = Ok (0, Iter 4 0).
Proof.
  apply (exhausted_iterator_stays_exhausted two_of_four (Iter 2 0) (Iter 4 0)).
  - destruct two_of_four_wf as [bs Hrep].
    exists bs, (keys_of (mjoin (drop 2 bs))). split; [done|].
    apply (at_slot bs 2). pose proof (rep_size _ _ Hrep) as HN.
    change (arraySize two_of_four) with 4 in HN. lia.
  - vm_compute. reflexivity.
Defined.

Lemma drain_values_spec h bs :
  rep h bs →
  ∀ fuel it rest, iter_at bs it rest → (length rest < fuel)%nat →
  ∃ vs, drain_values fuel h it = Ok vs ∧
        Forall2 (λ k v, v ≠ 0 ∧ hashmap_get h k = Ok v) rest vs.
Proof.
  intros Hrep. induction fuel as [|fuel IH]; intros it rest Hat Hlen; [lia|].
  destruct (next_key_value h bs it rest Hrep Hat)
    as (k & v & it' & rest' & Hn & Hat' & Hg & _ & Hk).
  simpl. unfold hashmap_iterator_next_value. rewrite Hn, !Ok_bind. simpl.
  destruct Hk as [(-> & -> & -> & _)|(Hk & Hv & ->)].
  - exists []. split; [done|constructor].
  - destruct (Z.eqb_spec k 0); [done|]. rewrite Hg, Ok_bind. simpl.
    destruct (Z.eqb_spec v 0); [done|].
    destruct (IH it' rest' Hat') as (vs & -> & Hall); [simpl in Hlen; lia|].
    exists (v :: vs). split; [done|]. by constructor.
Qed.

(** X11.  Iterating with [hashmap_iterator_next_value] until it returns [NULL]
    goes through the whole map: it returns one value for each key that
    the iteration with [Next] returns, in the same order, and each is
    the value that [Get] returns for that key. *)
Theorem values_come_in_the_order_of_the_keys h fuel :
  wf h → (Z.to_nat (hashmap_count h) < fuel)%nat →
  ∃ ks vs, drain fuel h (hashmap_iterator h) = Ok ks ∧
    drain_values fuel h (hashmap_iterator h) = Ok vs ∧
    Z.of_nat (length vs) = hashmap_count h ∧
    Forall2 (λ k v, v ≠ 0 ∧ hashmap_get h k = Ok v) ks vs.
Proof.
  intros [bs Hrep] Hfuel. unfold hashmap_count in *.
  pose proof (rep_count _ _ Hrep) as Hcnt.
  assert (iter_at bs (hashmap_iterator h) (keys_of (mjoin bs))) as Hat.
  { replace (keys_of (mjoin bs)) with (keys_of (mjoin (drop 0 bs))) by done.
    apply (at_slot bs 0). lia. }
  assert (length (keys_of (mjoin bs)) = length (mjoin bs)) as Hlen.
  { unfold keys_of. by rewrite length_fmap. }
  destruct (drain_values_spec h bs Hrep fuel _ _ Hat) as (vs & Hvs & Hall); [lia|].
  exists (keys_of (mjoin bs)), vs. split_and!; [|done| |done].
  - apply (drain_all h bs Hrep). lia.
  - apply Forall2_length in Hall. lia.
Qed.

Lemma values_come_in_the_order_of_the_keys_witness :
  ∃ ks vs, drain 4 chain_of_three (hashmap_iterator chain_of_three) = Ok ks ∧
    drain_values 4 chain_of_three (hashmap_iterator chain_of_three) = Ok vs ∧
    Z.of_nat (length vs) = hashmap_count chain_of_three ∧
    Forall2 (λ k v, v ≠ 0 ∧ hashmap_get chain_of_three k = Ok v) ks vs.
Proof.
  apply (values_come_in_the_order_of_the_keys chain_of_three 4).
  - apply chain_of_three_wf.
  - vm_compute. lia.
Defined.

(** ** What every reachable map guarantees *)


Lemma two_of_four_reachable : reachable two_of_four.
Proof.
  apply (reach_put 2 (map_of (put_all 2 (hashmap_new (λ k, k) Z.sub 4) [Entry 1 101]))
           5 102 0 two_of_four).
  - lia.
  - apply (reach_put 2 (hashmap_new (λ k, k) Z.sub 4) 1 101 0).
    + lia.
    + apply reach_new; [lia|apply sub_cmp].
    + vm_compute. reflexivity.
  - vm_compute. reflexivity.
Qed.


(** ** Growth and the array size *)

(** X13.  [hashmap_increase_capacity] multiplies the array size by the
    factor it is given, when the product is below 2^31 (the size is
    computed in [unsigned int] and returned as an [int]) and the factor
    is at least 2 or the count is low enough for the new array
    ([2 * (count - 1) < arraySize]: the puts into the new array then do
    not grow it again); and [__ensurecapacity] leaves the size as it is
    when the load is below the ratio and doubles it otherwise. *)
Theorem growth_multiplies_the_size d h factor :
  (2 ≤ d)%nat → wf h → 1 ≤ factor → hashmap_size h * factor < 2 ^ 31 →
  2 ≤ factor ∨ 2 * (hashmap_count h - 1) < hashmap_size h →
  (∃ h', hashmap_increase_capacity d h factor = Ok h' ∧ wf h' ∧
         hashmap_size h' = hashmap_size h * factor) ∧
  (∃ h', __ensurecapacity d h = Ok h' ∧ wf h' ∧
         hashmap_size h' =
           if below_spaceratio (hashmap_count h) (hashmap_size h) then hashmap_size h
           else hashmap_size h * 2).
Proof.
  intros Hd [bs Hrep] Hf Hfit31 Hload. unfold hashmap_size, hashmap_count in *.
  destruct d as [|[|d]]; [lia|lia|].
  pose proof (rep_size_pos _ _ Hrep) as Hpos.
  pose proof (rep_load _ _ Hrep) as Hle.
  split.
  - destruct (increase_capacity_with_spec _ _ (hashmap_put_ok_alloc d)
                h bs (arraySize h * factor) Hrep ltac:(done) ltac:(lia) factor Hf eq_refl
                ltac:(lia))
      as (h1 & bs1 & Hg & Hrep1 & _ & _ & _ & _ & _ & Hex & _).
    exists h1. split; [done|]. split; [by exists bs1|]. apply Hex. nia.
  - unfold __ensurecapacity, ensurecapacity_with.
    destruct (below_spaceratio (count h) (arraySize h)) eqn:Hbelow.
    + exists h. split; [done|]. split; [by exists bs|done].
    + assert (arraySize h * 2 < 2 ^ 32) as Hfit
        by (pose proof (doubling_fits h bs Hrep Hbelow); lia).
      destruct (increase_capacity_with_spec _ _ (hashmap_put_ok_alloc d)
                h bs (arraySize h * 2) Hrep ltac:(done) ltac:(lia) 2 ltac:(lia) eq_refl Hfit)
        as (h1 & bs1 & Hg & Hrep1 & _ & _ & _ & _ & _ & Hex & _).
      exists h1. split; [done|]. split; [by exists bs1|]. apply Hex. lia.
Qed.

Lemma growth_multiplies_the_size_witness :
  (∃ h', hashmap_increase_capacity 2 two_of_four 3 = Ok h' ∧ wf h' ∧
         hashmap_size h' = hashmap_size two_of_four * 3) ∧
  (∃ h', __ensurecapacity 2 two_of_four = Ok h' ∧ wf h' ∧
         hashmap_size h' =
           if below_spaceratio (hashmap_count two_of_four) (hashmap_size two_of_four)
           then hashmap_size two_of_four
           else hashmap_size two_of_four * 2).
Proof.
  apply (growth_multiplies_the_size 2 two_of_four 3).
  - lia.
  - apply two_of_four_wf.
  - lia.
  - vm_compute. reflexivity.
  - left. lia.
Defined.

(** ** A map without slots *)

(** X14.  A map created with capacity 0 can only be asked: [Get] returns
    [NULL], [Clear] and the iteration find nothing; [Put] (of a key and
    a value that are not [NULL]) and [Remove] divide by the array size
    in [__doProbe], which is 0: the growth that [Put] starts with leaves
    the size at 2 * 0.  ([calloc] of 0 nodes is taken to return a
    pointer, so that [assert(h->array)] passes.) *)
Theorem map_of_capacity_zero hashf cmp d k v :
  (1 ≤ d)%nat → k ≠ 0 → v ≠ 0 →
  hashmap_size (hashmap_new hashf cmp 0) = 0 ∧
  hashmap_get (hashmap_new hashf cmp 0) k = Ok 0 ∧
  hashmap_clear (hashmap_new hashf cmp 0) = Ok (hashmap_new hashf cmp 0) ∧
  hashmap_iterator_next (hashmap_new hashf cmp 0) (hashmap_iterator (hashmap_new hashf cmp 0))
    = Ok (0, Iter 0 0) ∧
  hashmap_put d (hashmap_new hashf cmp 0) k v = Fault DivByZero ∧
  hashmap_remove (hashmap_new hashf cmp 0) k = Fault DivByZero.
Proof.
  intros Hd Hk Hv. split_and!; try done.
  destruct d as [|d]; [lia|]. cbn [hashmap_put]. unfold put_with.
  destruct (Z.eqb_spec k 0); [done|]. destruct (Z.eqb_spec v 0); [done|]. done.
Qed.

Lemma map_of_capacity_zero_witness :
  hashmap_size (hashmap_new (λ k, k) Z.sub 0) = 0 ∧
  hashmap_get (hashmap_new (λ k, k) Z.sub 0) 1 = Ok 0 ∧
  hashmap_clear (hashmap_new (λ k, k) Z.sub 0) = Ok (hashmap_new (λ k, k) Z.sub 0) ∧
  hashmap_iterator_next (hashmap_new (λ k, k) Z.sub 0)
    (hashmap_iterator (hashmap_new (λ k, k) Z.sub 0)) = Ok (0, Iter 0 0) ∧
  hashmap_put 1 (hashmap_new (λ k, k) Z.sub 0) 1 101 = Fault DivByZero ∧
  hashmap_remove (hashmap_new (λ k, k) Z.sub 0) 1 = Fault DivByZero.
Proof.
  apply (map_of_capacity_zero (λ k, k) Z.sub 1 1 101); lia.
Defined.

(** ** What [__node_empty] frees *)

Lemma chain_suffix m l1 q e l2 :
  ∀ p, chain m p (l1 ++ (q, e) :: l2) → chain m q ((q, e) :: l2).
Proof.
  induction l1 as [|[q1 e1] l1 IH]; intros p Hc.
  - by pose proof Hc as (-> & _).
  - destruct Hc as (_ & _ & nx & _ & Hc). by apply (IH nx).
Qed.

(** A chain that ends in [NULL] visits no node twice. *)
Lemma chain_nodup m l : ∀ p, chain m p l → NoDup l.*1.
Proof.
  induction l as [|[q e] l IH]; intros p Hc; [constructor|].
  pose proof Hc as (-> & Hq & nx & Hm & Hc'). simpl.
  apply NoDup_cons. split; [|by eapply IH].
  intros Hin. apply list_elem_of_fmap in Hin as ([q' e'] & Heq & Hin). simpl in Heq. subst q'.
  apply list_elem_of_split in Hin as (l1 & l2 & ->).
  pose proof (chain_suffix _ _ _ _ _ _ Hc') as Hs.
  pose proof (chain_unique _ _ _ _ Hc Hs) as Heq.
  apply (f_equal length) in Heq. simpl in Heq. rewrite length_app in Heq. simpl in Heq. lia.
Qed.

(** X15.  [__node_empty] on the head of a chain frees every node of the chain
    and takes one off the count for each of them; the rest of the
    memory and of the map record stays as it is.  On [NULL] it does
    nothing. *)
Theorem node_empty_frees_the_chain h p l fuel :
  chain (cells h) p l → (length l ≤ fuel)%nat →
  ∃ h', __node_empty fuel h p = Ok h' ∧
    count h' = count h - Z.of_nat (length l) ∧
    (∀ q, q ∈ l.*1 → cells h' !! q = None) ∧
    (∀ q, q ∉ l.*1 → cells h' !! q = cells h !! q) ∧
    arraySize h' = arraySize h ∧ array h' = array h ∧ brk h' = brk h.
Proof.
  intros Hc Hfuel.
  destruct (node_empty_spec h l (chain_nodup _ _ _ Hc) fuel p Hc Hfuel)
    as (h' & Hne & (HN & Ha & _) & Hb & Hcnt & Hfr & Hgone).
  exists h'. done.
Qed.

Lemma node_empty_frees_the_chain_witness :
  ∃ h', __node_empty 2 chain_of_three 9 = Ok h' ∧
    count h' = count chain_of_three - Z.of_nat (length [(9, Entry 9 102); (10, Entry 17 103)]) ∧
    (∀ q, q ∈ [(9, Entry 9 102); (10, Entry 17 103)].*1 → cells h' !! q = None) ∧
    (∀ q, q ∉ [(9, Entry 9 102); (10, Entry 17 103)].*1 →
          cells h' !! q = cells chain_of_three !! q) ∧
    arraySize h' = arraySize chain_of_three ∧ array h' = array chain_of_three ∧
    brk h' = brk chain_of_three.
Proof.
  apply (node_empty_frees_the_chain chain_of_three 9
           [(9, Entry 9 102); (10, Entry 17 103)] 2).
  - vm_compute. split_and!; try done. eexists. split; [reflexivity|].
    split_and!; try done. eexists. split; reflexivity.
  - simpl. lia.
Defined.

(** ** The last entry *)



(** ** No node is leaked *)

Lemma no_new_garbage_owned h bs h' bs' :
  (∀ p, is_Some (cells h !! p) → owned h bs p) → no_new_garbage h bs h' bs' →
  ∀ p, is_Some (cells h' !! p) → owned h' bs' p.
Proof.
  intros Hall Hg p Hp.
  destruct (Hg p Hp) as [?|[Hp0 Hno]]; [done|]. destruct (Hno (Hall p Hp0)).
Qed.

Lemma tight_step h bs h' bs' :
  (∀ p, is_Some (cells h !! p) → owned h bs p) →
  rep h' bs' → no_new_garbage h bs h' bs' → tight h'.
Proof.
  intros Hall Hrep' Hg. exists bs'. split; [done|]. by eapply no_new_garbage_owned.
Qed.

Lemma hashmap_new_tight hashf cmp n :
  0 < n → (∀ x y, cmp x y = 0 ↔ x = y) → tight (hashmap_new hashf cmp n).
Proof.
  intros Hn Hcmp. exists (replicate (Z.to_nat n) []).
  split; [by apply hashmap_new_rep|]. intros p Hp. left.
  unfold hashmap_new, __allocnodes in *. hsimpl.
  rewrite lookup_zero_fill in Hp. case_decide; [lia|].
  rewrite lookup_empty in Hp. by destruct Hp.
Qed.

Lemma hashmap_put_tight d h k v prev h' :
  (2 ≤ d)%nat → tight h → hashmap_put d h k v = Ok (prev, h') → tight h'.
Proof.
  intros Hd (bs & Hrep & Hall) Hput.
  destruct (decide (k = 0 ∨ v = 0)) as [Hz|Hnz].
  { destruct d as [|d]; [lia|]. cbn [hashmap_put] in Hput. unfold put_with in Hput.
    assert ((k =? 0) || (v =? 0) = true) as Hb by (destruct Hz; subst; [done|lia]).
    rewrite Hb in Hput. injection Hput as _ <-. by exists bs. }
  assert (k ≠ 0 ∧ v ≠ 0) as [Hk Hv] by lia.
  destruct (decide (is_Some (to_map bs !! k) ∨ count h + 1 < 32768)) as [Hroom|Hfull].
  - destruct d as [|[|d]]; [lia|lia|].
    destruct (hashmap_put_ok_alloc d h bs k v Hrep I Hk Hv Hroom) as
      (h1 & bs1 & Hp & Hrep1 & _ & _ & _ & _ & _ & _ & _ & _ & _ & Hg).
    rewrite Hput in Hp. injection Hp as _ ->. by eapply tight_step.
  - rewrite (hashmap_put_full d h bs k v) in Hput; [done..| |lia].
    destruct (to_map bs !! k) eqn:E; [|done]. exfalso. apply Hfull. left. eauto.
Qed.

(** Every map that the operations build owns all that is allocated. *)
Lemma reachable_tight h : reachable h → tight h.
Proof.
  induction 1 as [hashf cmp n Hn Hcmp|d h k v prev h' Hd _ IH Hput
                 |h k entry h' _ IH Hrm|h h' _ IH Hcl|d h factor h' Hd Hf Hfit _ IH Hg].
  - by apply hashmap_new_tight.
  - by eapply hashmap_put_tight.
  - destruct IH as (bs & Hrep & Hall).
    destruct (hashmap_remove_entry_alloc h bs k Hrep)
      as (h1 & bs1 & Hr & Hrep1 & _ & _ & _ & _ & _ & Hg & _).
    rewrite Hrm in Hr. injection Hr as _ ->. by eapply tight_step.
  - destruct IH as (bs & Hrep & Hall).
    destruct (hashmap_clear_alloc h bs Hrep) as (h1 & bs1 & Hc & Hrep1 & _ & _ & _ & Hg).
    rewrite Hcl in Hc. injection Hc as ->. by eapply tight_step.
  - destruct IH as (bs & Hrep & Hall). destruct d as [|[|d]]; [lia|lia|].
    pose proof (rep_size_pos _ _ Hrep) as Hpos.
    destruct (increase_capacity_with_spec _ _ (hashmap_put_ok_alloc d)
                h bs (arraySize h * factor) Hrep ltac:(done) ltac:(lia) factor Hf eq_refl
                ltac:(lia))
      as (h1 & bs1 & Hg1 & Hrep1 & _ & _ & _ & _ & _ & _ & _ & _ & _ & Hgar).
    unfold hashmap_increase_capacity in Hg. rewrite Hg in Hg1. injection Hg1 as ->.
    by eapply tight_step.
Qed.

Lemma rep_owned_alloc h bs p : rep h bs → owned h bs p → is_Some (cells h !! p).
Proof.
  intros Hrep [Hp|Hp].
  - replace p with (array h + (p - array h)) by lia.
    apply (rep_block_alloc h bs Hrep). lia.
  - apply list_elem_of_fmap in Hp as ([q e] & -> & Hin).
    destruct (rep_addr_alloc h bs Hrep q e Hin) as [nx Hnx]. simpl. eauto.
Qed.



(** ** Free *)

Lemma rep_no_entries h bs :
  rep h bs → count h = 0 → ∀ j l, bs !! j = Some l → l = [].
Proof.
  intros Hrep Hc j l Hj. pose proof (rep_count _ _ Hrep) as Hcnt.
  rewrite Hc in Hcnt. destruct l as [|x l]; [done|].
  assert (x ∈ mjoin bs) as Hin.
  { apply elem_of_join_lookup. exists j, (x :: l). split; [done|by left]. }
  destruct (mjoin bs); [by apply elem_of_nil in Hin|simpl in Hcnt; lia].
Qed.

(** X18.  [hashmap_free] and [hashmap_freeall] empty the map as [Clear] does,
    and free the chain nodes, but not the array: when the map owned all
    that was allocated, what is allocated after the call is the array,
    no more and no less, each of its nodes without key and without
    chain; and this is what [hashmap_freeall] leaves behind when it has
    released the map itself. *)
Theorem free_leaves_the_array_allocated h :
  tight h →
  ∃ h' m, hashmap_free h = Ok h' ∧ hashmap_freeall h = Ok m ∧ m = cells h' ∧
    tight h' ∧ hashmap_count h' = 0 ∧
    hashmap_size h' = hashmap_size h ∧ array h' = array h ∧
    (∀ p, is_Some (m !! p) ↔ array h ≤ p < array h + hashmap_size h) ∧
    (∀ p nd, m !! p = Some nd → key (ety nd) = 0 ∧ next nd = 0).
Proof.
  intros (bs & Hrep & Hall).
  unfold hashmap_freeall, hashmap_free, hashmap_count, hashmap_size.
  destruct (hashmap_clear_alloc h bs Hrep) as
    (h' & bs' & Hc & Hrep' & (HN & Ha & _) & Hcnt & _ & Hg).
  pose proof (no_new_garbage_owned h bs h' bs' Hall Hg) as Hall'.
  exists h', (cells h'). rewrite Hc, Ok_bind.
  assert (∀ p, is_Some (cells h' !! p) ↔ array h ≤ p < array h + arraySize h) as Hiff.
  { intros p. split.
    - intros Hp. destruct (Hall' p Hp) as [?|Hin]; [lia|].
      apply list_elem_of_fmap in Hin as ([q e] & -> & Hin).
      apply elem_of_join_lookup in Hin as (j & l & Hj & Hin).
      rewrite (rep_no_entries h' bs' Hrep' Hcnt _ _ Hj) in Hin.
      by apply elem_of_nil in Hin.
    - intros Hp. apply (rep_owned_alloc h' bs' p Hrep'). left. lia. }
  split_and!; [done|done|done|by exists bs'|done|done|done|done|].
  intros p nd Hp. pose proof (proj1 (Hiff p) (mk_is_Some _ _ Hp)) as Hr.
  destruct (rep_bucket h' bs' Hrep' (p - array h)) as [l Hl]; [lia|].
  pose proof (rep_no_entries h' bs' Hrep' Hcnt _ _ Hl) as ->.
  pose proof (rep_slot _ _ Hrep' _ _ Hl) as [v Hs].
  rewrite Ha in Hs. replace (array h + Z.of_nat (Z.to_nat (p - array h))) with p in Hs by lia.
  rewrite Hs in Hp. by injection Hp as <-.
Qed.

Lemma free_leaves_the_array_allocated_witness :
  ∃ h' m, hashmap_free two_of_four = Ok h' ∧ hashmap_freeall two_of_four = Ok m ∧
    m = cells h' ∧ tight h' ∧ hashmap_count h' = 0 ∧
    hashmap_size h' = hashmap_size two_of_four ∧ array h' = array two_of_four ∧
    (∀ p, is_Some (m !! p) ↔
          array two_of_four ≤ p < array two_of_four + hashmap_size two_of_four) ∧
    (∀ p nd, m !! p = Some nd → key (ety nd) = 0 ∧ next nd = 0).
Proof.
  apply (free_leaves_the_array_allocated two_of_four).
  apply reachable_tight, two_of_four_reachable.
Defined.

(** ** Removing the key that the iterator has just returned *)

(** [Next], with the place of the key it returns: the entry [(q, e)] of
    bucket [c], after the entries [pre] and before the entries [post]. *)
Lemma next_at h bs it rest :
  rep h bs → iter_at bs it rest →
  (rest = [] ∧ ∃ it', hashmap_iterator_next h it = Ok (0, it')) ∨
  ∃ (c : nat) pre q e post,
    bs !! c = Some (pre ++ (q, e) :: post) ∧
    rest = keys_of ((q, e) :: post) ++ keys_of (mjoin (drop (S c) bs)) ∧
    hashmap_iterator_next h it =
      Ok (key e, match post with
                 | [] => Iter (Z.of_nat c + 1) 0
                 | (p2, _) :: _ => Iter (Z.of_nat c) p2
                 end).
Proof.
  intros Hrep. pose proof (rep_size _ _ Hrep) as HN.
  intros [c Hc|c pre p e post Hl Hpre]; unfold hashmap_iterator_next; cbn [cur cur_linked].
  - cbn [Z.eqb negb].
    destruct (scan_spec h bs Hrep c Hc) as (c' & -> & Hb & Hempty & Hfull).
    rewrite Ok_bind. rewrite (drop_skip_empty bs c c') by (lia || done).
    destruct (decide (c' = length bs)) as [->|Hne].
    + left. rewrite drop_all. split; [done|].
      assert ((arraySize h =? Z.of_nat (length bs)) = true) as -> by lia. eauto.
    + right. assert ((arraySize h =? Z.of_nat c') = false) as -> by lia.
      destruct Hfull as ([a e] & t & Hl); [lia|].
      pose proof (rep_slot _ _ Hrep _ _ Hl) as (_ & _ & nx & Hroot & Ht).
      rewrite (load_eq _ _ _ Hroot), Ok_bind. cbn [ety key next].
      exists c', [], a, e, t. split; [done|]. split.
      { rewrite (drop_S bs _ c' Hl). cbn [mjoin list_join]. by rewrite keys_of_app. }
      destruct t as [|[p1 e1] t].
      * simpl in Ht. subst nx. done.
      * simpl in Ht. destruct Ht as (<- & Hp1 & _).
        by assert ((nx =? 0) = false) as -> by lia.
  - right. pose proof (rep_slot _ _ Hrep _ _ Hl) as Hs.
    destruct pre as [|[a e0] pre]; [done|].
    change (chain (cells h) (array h + Z.of_nat c) ((a, e0) :: pre ++ (p, e) :: post)) in Hs.
    pose proof Hs as (_ & _ & nx0 & Hroot & Ht).
    assert ((p, e) ∈ (a, e0) :: pre ++ (p, e) :: post) as Hin.
    { right. apply elem_of_app. right. by left. }
    destruct (chain_alloc _ _ _ _ _ Hs Hin) as (Hp & nxp & Hmp).
    assert ((p =? 0) = false) as -> by lia. cbn [negb].
    rewrite (load_eq _ _ _ Hroot), Ok_bind. cbn [next].
    assert (nx0 ≠ 0) as Hnx0.
    { eapply chain_nonnil_ptr; [done|]. by destruct pre. }
    assert ((nx0 =? 0) = false) as -> by lia.
    rewrite (load_eq _ _ _ Hmp), Ok_bind. cbn [ety key next].
    pose proof (chain_after _ ((a, e0) :: pre) p e post nxp _ Hs Hmp) as Hpost.
    exists c, ((a, e0) :: pre), p, e, post. split; [done|]. split; [done|].
    destruct post as [|[p2 e2] post].
    + simpl in Hpost. by subst nxp.
    + simpl in Hpost. destruct Hpost as (<- & Hp2 & _).
      by assert ((nxp =? 0) = false) as -> by lia.
Qed.

Lemma to_map_entry h bs q e :
  rep h bs → (q, e) ∈ mjoin bs → to_map bs !! key e = Some (val e).
Proof.
  intros Hrep Hin. unfold to_map. apply elem_of_list_to_map_1.
  - rewrite kv_fst. by apply (rep_keys_nodup_all h).
  - unfold kv. apply list_elem_of_fmap. by exists (q, e).
Qed.

Lemma rest_shorter {A} (bs : list (list A)) c pre x post :
  bs !! c = Some (pre ++ x :: post) →
  (length post + length (mjoin (drop (S c) bs)) < length (mjoin bs))%nat.
Proof.
  intros Hl. rewrite <-(take_drop_middle bs c _ Hl) at 2.
  rewrite join_app.
  change (mjoin ((pre ++ x :: post) :: drop (S c) bs))
    with ((pre ++ x :: post) ++ mjoin (drop (S c) bs)).
  rewrite !length_app. cbn [length]. lia.
Qed.

(** The cursor that [Next] leaves, on the buckets [bs]. *)
Lemma iter_at_after bs c l pre post :
  bs !! c = Some l → l = pre ++ post → (post ≠ [] → pre ≠ []) →
  iter_at bs (match post with
              | [] => Iter (Z.of_nat c + 1) 0
              | (p2, _) :: _ => Iter (Z.of_nat c) p2
              end)
    (keys_of post ++ keys_of (mjoin (drop (S c) bs))).
Proof.
  intros Hl -> Hpre. destruct post as [|[p2 e2] post].
  - replace (Z.of_nat c + 1) with (Z.of_nat (S c)) by lia. simpl.
    constructor. apply lookup_lt_Some in Hl. lia.
  - by apply (at_node bs c pre p2 e2 post); [|apply Hpre].
Qed.

(** X19.  Removing the key that [Next] has just returned.  The rest of the
    iteration is not disturbed (it returns what it would have returned
    without the removal), except when the key was in the array node of
    its slot and that node had a chain of two nodes or more: then the
    cursor is left on the first chain node, which [Remove] frees, and
    the next [Next] reads it. *)
Theorem removing_the_key_just_returned h it k it1 fuel :
  iter_wf h it → hashmap_iterator_next h it = Ok (k, it1) → k ≠ 0 →
  (Z.to_nat (hashmap_count h) < fuel)%nat →
  ∃ long v h1,
    root_has_long_chain h k = Ok long ∧
    hashmap_remove h k = Ok (v, h1) ∧ v ≠ 0 ∧ wf h1 ∧
    if long then hashmap_iterator_next h1 it1 = Fault InvalidAccess
    else ∃ rest, drain fuel h it1 = Ok rest ∧ drain fuel h1 it1 = Ok rest.
Proof.
  intros (bs & rest0 & Hrep & Hat) Hnext Hk Hfuel. unfold hashmap_count in Hfuel.
  pose proof (rep_count _ _ Hrep) as Hcount.
  pose proof (rep_size_pos _ _ Hrep) as Hpos.
  destruct (next_at h bs it rest0 Hrep Hat)
    as [(_ & it' & Hn)|(c & pre & q & e & post & Hl & -> & Hn)];
    rewrite Hnext in Hn; injection Hn as Hke Hit; [done|]. subst k.
  assert ((q, e) ∈ pre ++ (q, e) :: post) as Hqe.
  { apply elem_of_app. right. by left. }
  destruct (rep_keys _ _ Hrep c _ q e Hl Hqe) as (_ & Hve & Hprobe).
  assert ((q, e) ∈ mjoin bs) as Hin.
  { apply elem_of_join_lookup. eauto. }
  pose proof (to_map_entry h bs q e Hrep Hin) as Hval.
  destruct (hashmap_remove_entry_alloc h bs (key e) Hrep)
    as (h1 & bs1 & Hr & Hrep1 & _ & (HN1 & Ha1 & _) & _ & _ & _ & Hg & Hbs1).
  rewrite Hval in Hr. rewrite Hprobe, Nat2Z.id, Hl in Hbs1. simpl in Hbs1.
  pose proof (lookup_lt_Some _ _ _ Hl) as Hclt.
  assert (bs1 !! c = Some (bucket_remove (key e) (pre ++ (q, e) :: post))) as Hl1.
  { rewrite Hbs1. by apply list_lookup_insert_eq. }
  assert (drop (S c) bs1 = drop (S c) bs) as Hdrop.
  { rewrite Hbs1. apply drop_insert_lt. lia. }
  pose proof (rest_shorter bs c pre (q, e) post Hl) as Hshort.
  assert (length (keys_of post ++ keys_of (mjoin (drop (S c) bs))) < fuel)%nat as Hlen.
  { unfold keys_of. rewrite length_app, !length_fmap. lia. }
  assert (drain fuel h it1 = Ok (keys_of post ++ keys_of (mjoin (drop (S c) bs))))
    as Hdrain.
  { apply (drain_spec h bs Hrep); [|done]. subst it1.
    apply (iter_at_after bs c _ (pre ++ [(q, e)]) post Hl); [by rewrite <-app_assoc|].
    intros _. by destruct pre. }
  pose proof (rep_slot _ _ Hrep _ _ Hl) as Hs.
  pose proof (rep_keys_nodup _ _ Hrep c _ Hl) as Hndk.
  unfold root_has_long_chain, __doProbe, hashmap_remove.
  destruct (Z.eqb_spec (arraySize h) 0) as [|_]; [lia|].
  rewrite Hr, Hprobe, !Ok_bind. cbn [val].
  destruct pre as [|[a e0] pre].
  - (* the key is in the array node *)
    cbn [app] in Hl.
    change (chain (cells h) (array h + Z.of_nat c) ((q, e) :: post)) in Hs.
    destruct Hs as (<- & _ & nx & Hroot & Ht).
    rewrite (load_eq _ _ _ Hroot), Ok_bind. cbn [ety next].
    rewrite Z.eqb_refl. cbn [negb orb].
    simpl in Hl1, Hbs1. rewrite Z.eqb_refl in Hl1, Hbs1.
    destruct post as [|[p2 e2] post].
    + simpl in Ht. subst nx. cbn [Z.eqb].
      exists false, (val e), h1. split_and!; [done|done|done|by exists bs1|].
      eexists. split; [exact Hdrain|].
      apply (drain_spec h1 bs1 Hrep1); [|done]. subst it1. rewrite <-Hdrop.
      by apply (iter_at_after bs1 c [] [] [] Hl1).
    + simpl in Ht. destruct Ht as (<- & Hnx & nx2 & Hm2 & Ht2).
      assert ((nx =? 0) = false) as -> by lia.
      rewrite (load_eq _ _ _ Hm2), Ok_bind. cbn [next].
      pose proof (rep_slot _ _ Hrep1 _ _ Hl1) as (_ & _ & nx1 & Hroot1 & Ht1).
      rewrite Ha1 in Hroot1.
      destruct post as [|[p3 e3] post].
      * simpl in Ht2. subst nx2. simpl in Ht1. subst nx1. cbn [Z.eqb negb].
        exists false, (val e), h1. split_and!; [done|done|done|by exists bs1|].
        eexists. split; [exact Hdrain|]. subst it1.
        destruct fuel as [|fuel]; [simpl in Hlen; lia|].
        cbn [drain]. unfold hashmap_iterator_next. cbn [cur cur_linked].
        assert ((nx =? 0) = false) as -> by lia. cbn [negb].
        rewrite Ha1, (load_eq _ _ _ Hroot1), Ok_bind. cbn [next ety Z.eqb].
        rewrite Ok_bind. cbv beta iota.
        destruct (rep_keys _ _ Hrep1 c _ _ e2 Hl1 ltac:(left)) as (Hke2 & _).
        destruct (Z.eqb_spec (key e2) 0) as [|_]; [done|].
        rewrite (drain_spec h1 bs1 Hrep1 fuel (Iter (Z.of_nat c + 1) 0)
                   (keys_of (mjoin (drop (S c) bs)))).
        -- done.
        -- rewrite <-Hdrop. by apply (iter_at_after bs1 c _ [(array h + Z.of_nat c, e2)] [] Hl1).
        -- simpl in Hlen. lia.
      * simpl in Ht2. destruct Ht2 as (<- & Hnx2 & _).
        assert ((nx2 =? 0) = false) as -> by lia. cbn [negb].
        exists true, (val e), h1. split_and!; [done|done|done|by exists bs1|].
        subst it1. unfold hashmap_iterator_next. cbn [cur cur_linked].
        assert ((nx =? 0) = false) as -> by lia. cbn [negb].
        rewrite Ha1, (load_eq _ _ _ Hroot1), Ok_bind. cbn [next].
        simpl in Ht1. destruct Ht1 as (-> & _).
        assert ((nx2 =? 0) = false) as -> by lia.
        (* the first chain node is freed *)
        assert (cells h1 !! nx = None) as Hfreed.
        { destruct (cells h1 !! nx) as [nd|] eqn:E; [|done]. exfalso.
          assert (owned h bs nx) as Ho.
          { right. apply list_elem_of_fmap. exists (nx, e2). split; [done|].
            apply elem_of_join_lookup. eexists c, _. split; [exact Hl|]. by right; left. }
          destruct (Hg nx (mk_is_Some _ _ E)) as [Ho1|[_ Hno]]; [|done].
          pose proof (rep_nodup _ _ Hrep) as Hnd.
          rewrite (join_lookup_perm bs c _ Hl), fmap_app in Hnd.
          apply NoDup_app in Hnd as (Hndl & Hdis & _). simpl in Hndl.
          apply NoDup_cons in Hndl as [Hn1 Hndl]. apply NoDup_cons in Hndl as [Hn2 Hndl].
          destruct Ho1 as [Harr|Ho1].
          - rewrite HN1, Ha1 in Harr.
            pose proof (rep_block _ _ Hrep c _ nx e2 Hl ltac:(by right; left) Harr) as Heq.
            apply Hn1. rewrite <-Heq. by left.
          - rewrite Hbs1 in Ho1.
            rewrite (join_insert_perm bs c _ Hclt), fmap_app, elem_of_app in Ho1.
            destruct Ho1 as [Ho1|Ho1].
            + simpl in Ho1. apply elem_of_cons in Ho1 as [Heq|Ho1]; [|done].
              apply Hn1. rewrite <-Heq. by left.
            + apply (Hdis nx); [by right; left|done]. }
        unfold load. by rewrite Hfreed.
  - (* the key is on the chain *)
    change (chain (cells h) (array h + Z.of_nat c)
              ((a, e0) :: pre ++ (q, e) :: post)) in Hs.
    destruct Hs as (<- & _ & nx & Hroot & Ht).
    rewrite (load_eq _ _ _ Hroot), Ok_bind. cbn [ety].
    change (((array h + Z.of_nat c, e0) :: pre) ++ (q, e) :: post)
      with ((array h + Z.of_nat c, e0) :: pre ++ (q, e) :: post) in *.
    rewrite keys_of_cons, keys_of_app, keys_of_cons in Hndk.
    apply NoDup_cons in Hndk as [Hne0 Hndk].
    apply NoDup_app in Hndk as (_ & Hdis & _).
    assert (key e0 ≠ key e) as Hne.
    { intros Heq. apply Hne0. rewrite Heq, elem_of_app. right. by left. }
    assert (key e ∉ keys_of pre) as Hnpre.
    { intros Hin'. apply (Hdis _ Hin'). by left. }
    destruct (Z.eqb_spec (key e0) (key e)) as [|_]; [done|]. cbn [negb orb].
    simpl in Hl1. destruct (Z.eqb_spec (key e0) (key e)) as [|_]; [done|].
    rewrite (drop_key_split (key e) pre q e post Hnpre eq_refl) in Hl1.
    exists false, (val e), h1. split_and!; [done|done|done|by exists bs1|].
    eexists. split; [exact Hdrain|].
    apply (drain_spec h1 bs1 Hrep1); [|done]. subst it1. rewrite <-Hdrop.
    by apply (iter_at_after bs1 c _ ((array h + Z.of_nat c, e0) :: pre) post Hl1).
Qed.

Lemma removing_the_key_just_returned_witness :
  ∃ long v h1,
    root_has_long_chain chain_of_two 1 = Ok long ∧
    hashmap_remove chain_of_two 1 = Ok (v, h1) ∧ v ≠ 0 ∧ wf h1 ∧
    if long then hashmap_iterator_next h1 (Iter 1 9) = Fault InvalidAccess
    else ∃ rest, drain 3 chain_of_two (Iter 1 9) = Ok rest ∧
                 drain 3 h1 (Iter 1 9) = Ok rest.
Proof.
  apply (removing_the_key_just_returned chain_of_two (hashmap_iterator chain_of_two)
           1 (Iter 1 9) 3).
  - destruct chain_of_two_wf as [bs Hrep].
    exists bs, (keys_of (mjoin (drop 0 bs))). split; [done|].
    apply (at_slot bs 0). lia.
  - vm_compute. reflexivity.
  - lia.
  - vm_compute. lia.
Defined.

(** ** Peek and Next on a valid cursor *)

(** X20.  On a well-formed map and a cursor that is valid for it (at a
    slot of the array, or on a node of the chain of its slot), with no
    change of the map in between: [Peek] returns the key that [Next]
    returns when called right after it, and that [Next] would have
    returned in its place, [NULL] included.  With a chain pointer [Peek]
    leaves the cursor as it is; without one it leaves the index on the
    first slot from the index on that has a key, or at the array size
    when there is none: the slots it skipped are empty and the cursor
    keeps the new index. *)
Theorem peek_agrees_with_next h it :
  iter_wf h it →
  ∃ k it1 it2 it2',
    hashmap_iterator_peek h it = Ok (k, it1) ∧
    hashmap_iterator_next h it1 = Ok (k, it2) ∧
    hashmap_iterator_next h it = Ok (k, it2') ∧
    iter_wf h it1 ∧
    (cur_linked it ≠ 0 → it1 = it) ∧
    (cur_linked it = 0 →
       cur_linked it1 = 0 ∧ cur it ≤ cur it1 ≤ arraySize h ∧
       (∀ c, cur it ≤ c < cur it1 → slot_empty h c) ∧
       (cur it1 < arraySize h →
          k ≠ 0 ∧ ∃ nd, load h (array h + cur it1) = Ok nd ∧ key (ety nd) = k) ∧
       (cur it1 = arraySize h → k = 0)).
Proof.
  intros (bs & rest & Hrep & Hat).
  pose proof (rep_size _ _ Hrep) as HN.
  destruct (peek_spec h bs Hrep it rest Hat) as (it1 & Hpeek & Hat1 & Hsame & Hscan).
  destruct (next_spec h bs Hrep it1 rest Hat1) as (k1 & it2 & rest1 & Hn1 & _ & Hk1).
  destruct (next_spec h bs Hrep it rest Hat) as (k2 & it2' & rest2 & Hn2 & _ & Hk2).
  assert (k1 = hd 0 rest) as Hk1'.
  { destruct Hk1 as [(-> & -> & _)|(_ & ->)]; done. }
  assert (k2 = hd 0 rest) as Hk2'.
  { destruct Hk2 as [(-> & -> & _)|(_ & ->)]; done. }
  subst k1 k2. exists (hd 0 rest), it1, it2, it2'.
  split_and!; [done|done|done|by exists bs, rest|done|].
  intros Hnull. destruct (Hscan Hnull) as (Hl1 & c & c' & Hc & Hc' & Hb & Hempty & Hfull).
  split; [done|]. rewrite Hc, Hc'. split; [lia|]. split_and!.
  - intros z Hz. replace z with (Z.of_nat (Z.to_nat z)) by lia.
    apply (slot_empty_of h bs _ Hrep). apply Hempty. lia.
  - intros Hlt. destruct Hfull as ([a e] & t & Hl); [lia|].
    pose proof (rep_slot _ _ Hrep _ _ Hl) as (_ & _ & nx & Hroot & _).
    destruct (rep_keys _ _ Hrep c' _ a e Hl ltac:(left)) as (Hke & _).
    assert (rest = keys_of (mjoin (drop c' bs))) as ->.
    { inversion Hat1 as [c0 Hc0 Heq|c0 pre p e0 post Hl0 Hpre Heq]; subst.
      - simpl in Hc'. apply Nat2Z.inj in Hc'. by subst c0.
      - simpl in Hl1. subst p.
        assert ((0, e0) ∈ pre ++ (0, e0) :: post) as Hin by set_solver.
        pose proof (rep_slot _ _ Hrep _ _ Hl0) as Hs0.
        destruct pre as [|x pre]; [done|].
        destruct (chain_alloc _ _ _ _ _ Hs0 Hin) as [? _]. done. }
    rewrite (drop_S bs _ c' Hl). simpl. split; [done|].
    exists (Node e nx). by rewrite (load_eq _ _ _ Hroot).
  - intros Heq. assert (c' = length bs) as -> by lia.
    assert (rest = keys_of (mjoin (drop (length bs) bs))) as ->.
    { inversion Hat1 as [c0 Hc0 Heq'|c0 pre p e0 post Hl0 Hpre Heq']; subst.
      - simpl in Hc'. apply Nat2Z.inj in Hc'. by subst c0.
      - simpl in Hc'. apply Nat2Z.inj in Hc'. subst c0.
        apply lookup_lt_Some in Hl0. lia. }
    by rewrite drop_all.
Qed.

Lemma peek_agrees_with_next_witness :
  ∃ k it1 it2 it2',
    hashmap_iterator_peek two_of_four (hashmap_iterator two_of_four) = Ok (k, it1) ∧
    hashmap_iterator_next two_of_four it1 = Ok (k, it2) ∧
    hashmap_iterator_next two_of_four (hashmap_iterator two_of_four) = Ok (k, it2') ∧
    iter_wf two_of_four it1 ∧
    (cur_linked (hashmap_iterator two_of_four) ≠ 0 → it1 = hashmap_iterator two_of_four) ∧
    (cur_linked (hashmap_iterator two_of_four) = 0 →
       cur_linked it1 = 0 ∧
       cur (hashmap_iterator two_of_four) ≤ cur it1 ≤ arraySize two_of_four ∧
       (∀ c, cur (hashmap_iterator two_of_four) ≤ c < cur it1 → slot_empty two_of_four c) ∧
       (cur it1 < arraySize two_of_four →
          k ≠ 0 ∧ ∃ nd, load two_of_four (array two_of_four + cur it1) = Ok nd ∧
                        key (ety nd) = k) ∧
       (cur it1 = arraySize two_of_four → k = 0)).
Proof.
  apply (peek_agrees_with_next two_of_four (hashmap_iterator two_of_four)).
  destruct two_of_four_wf as [bs Hrep].
  exists bs, (keys_of (mjoin (drop 0 bs))). split; [done|].
  apply (at_slot bs 0). lia.
Defined.
